(** * capital-api-client: the REST session and the streaming client

    A shallow embedding of the class [CapitalWebSocket] (the streaming
    client; in this tree its source is the second half of src/types.ts,
    from [export class CapitalWebSocket] on, which src/CapitalAPI.ts
    imports as ./CapitalWebSocket) and of the session handling of the
    class [CapitalAPI] (src/CapitalAPI.ts), followed by the properties
    of the two classes.

    Both classes are objects with private mutable fields whose methods
    may throw.  A method is a function from the object to an outcome:
    the value returned (or the error thrown) together with the object as
    the method left it.  An exception keeps the assignments made before
    it, as in JavaScript. *)

From Stdlib Require Import ZArith List String Ascii Bool Lia DecimalString.
Import ListNotations.
Open Scope string_scope.
Open Scope Z_scope.

(* ================================================================== *)
(** * The JavaScript runtime as far as the two classes use it          *)
(* ================================================================== *)

Module JS.

(** [Error] objects: [new Error(msg)] has the name ["Error"], the errors
    of the runtime have their own ([SyntaxError], [TypeError]). *)
Record Error : Type := mkError { name : string; message : string }.

Definition new_Error (msg : string) : Error := mkError "Error" msg.

(** [String(e)], which is what a template literal does to an error. *)
Definition Error_toString (e : Error) : string :=
  if (message e =? "")%string then name e else name e ++ ": " ++ message e.

(** The result of running a method on an object of type [S]. *)
Inductive Outcome (S A : Type) : Type :=
| Return (a : A) (s : S)
| Throw (e : Error) (s : S).
Arguments Return {S A} a s.
Arguments Throw {S A} e s.

Definition M (S A : Type) : Type := S -> Outcome S A.

Definition ret {S A} (a : A) : M S A := fun s => Return a s.

Definition bind {S A B} (m : M S A) (k : A -> M S B) : M S B :=
  fun s => match m s with
           | Return a s' => k a s'
           | Throw e s' => Throw e s'
           end.

Definition throw {S A} (e : Error) : M S A := fun s => Throw e s.

(** [try { body } catch (error) { handler(error) }] *)
Definition try_catch {S A} (body : M S A) (handler : Error -> M S A) : M S A :=
  fun s => match body s with
           | Return a s' => Return a s'
           | Throw e s' => handler e s'
           end.

Definition get {S} : M S S := fun s => Return s s.
Definition modify {S} (f : S -> S) : M S unit := fun s => Return tt (f s).

(** The object a method leaves behind, whether it returned or threw. *)
Definition final {S A} (o : Outcome S A) : S :=
  match o with Return _ s => s | Throw _ s => s end.

Definition returned {S A} (o : Outcome S A) : bool :=
  match o with Return _ _ => true | Throw _ _ => false end.

Definition thrown {S A} (o : Outcome S A) : option Error :=
  match o with Return _ _ => None | Throw e _ => Some e end.

(** [xs.forEach(f)]: stops at the first exception. *)
Fixpoint forEach {S A} (f : A -> M S unit) (xs : list A) : M S unit :=
  match xs with
  | [] => ret tt
  | x :: rest => bind (f x) (fun _ => forEach f rest)
  end.

(** Truthiness of a string: only the empty string is falsy. *)
Definition truthy (s : string) : bool := negb (s =? "")%string.

(** [a || b] on a possibly undefined string. *)
Definition or_else (a : option string) (b : string) : string :=
  match a with
  | Some s => if truthy s then s else b
  | None => b
  end.

(** [xs.join(sep)] on an array of strings. *)
Definition join (sep : string) (xs : list string) : string := String.concat sep xs.

(** [hay.includes(needle)] *)
Fixpoint includes (needle hay : string) : bool :=
  prefix needle hay ||
  match hay with
  | EmptyString => false
  | String _ rest => includes needle rest
  end.

(** Numbers are IEEE doubles.  The two counters of the streaming client
    start at 0 and only ever grow by [++]: on such values the double
    arithmetic is exact up to 2^53 and [2^53 + 1] rounds back to 2^53. *)
Definition MAX_EXACT : Z := 2 ^ 53.

Definition incr (n : Z) : Z := if n <? MAX_EXACT then n + 1 else n.

(** [n.toString()] and [String(n)] for an integer [n] of absolute value
    at most 2^53.  Such an integer is a double, and the shortest decimal
    text that reads back as it, which is what JavaScript prints, is the
    decimal text of the integer.  Beyond 2^53 JavaScript prints fewer
    digits than the integer has; the definition is not used there. *)
Definition Number_toString (n : Z) : string := NilZero.string_of_int (Z.to_int n).

(** ** JSON *)

(** JavaScript values as [JSON.parse] produces and [JSON.stringify]
    consumes them.  [JUndefined] is the value of an absent property or of
    an omitted optional argument.  A number carries its decimal text: the
    client never computes with the numbers of a frame. *)
#[local] Unset Elimination Schemes.
Inductive JValue : Type :=
| JUndefined
| JNull
| JBool (b : bool)
| JNumber (literal : string)
| JString (s : string)
| JArray (items : list JValue)
| JObject (fields : list (string * JValue)).
#[local] Set Elimination Schemes.

Definition hex_digit (n : nat) : ascii :=
  match n with
  | 0%nat => "0" | 1%nat => "1" | 2%nat => "2" | 3%nat => "3"
  | 4%nat => "4" | 5%nat => "5" | 6%nat => "6" | 7%nat => "7"
  | 8%nat => "8" | 9%nat => "9" | 10%nat => "a" | 11%nat => "b"
  | 12%nat => "c" | 13%nat => "d" | 14%nat => "e" | _ => "f"
  end%char.

Definition DQUOTE : string := String (ascii_of_nat 34) "".

(** One character of a string literal as [JSON.stringify] writes it. *)
Definition quote_char (c : ascii) : string :=
  let n := nat_of_ascii c in
  if (n =? 34)%nat then String "\" (String c "")
  else if (n =? 92)%nat then "\\"
  else if (n =? 8)%nat then "\b"
  else if (n =? 9)%nat then "\t"
  else if (n =? 10)%nat then "\n"
  else if (n =? 12)%nat then "\f"
  else if (n =? 13)%nat then "\r"
  else if (n <? 32)%nat then
    "\u00" ++ String (hex_digit (n / 16)) (String (hex_digit (n mod 16)) "")
  else String c "".

Fixpoint quote_body (s : string) : string :=
  match s with
  | EmptyString => ""
  | String c rest => quote_char c ++ quote_body rest
  end.

Definition quote (s : string) : string := DQUOTE ++ quote_body s ++ DQUOTE.

(** [JSON.stringify(v)] for a value that is not itself undefined: a
    property whose value is undefined is left out, an undefined array
    item is written [null]. *)
Fixpoint JSON_stringify (v : JValue) : string :=
  match v with
  | JUndefined => "null"
  | JNull => "null"
  | JBool true => "true"
  | JBool false => "false"
  | JNumber literal => literal
  | JString s => quote s
  | JArray items => "[" ++ join "," (map JSON_stringify items) ++ "]"
  | JObject fields =>
      "{" ++
      join ","
        ((fix members (fs : list (string * JValue)) : list string :=
            match fs with
            | [] => []
            | (k, JUndefined) :: rest => members rest
            | (k, x) :: rest => (quote k ++ ":" ++ JSON_stringify x) :: members rest
            end) fields) ++
      "}"
  end.

(** [v[key]]: reading a property of null or undefined is a TypeError;
    values other than objects have none of the properties read here. *)
Definition TypeError_property (key : string) : Error :=
  mkError "TypeError" ("Cannot read properties of null (reading '" ++ key ++ "')").

Fixpoint assoc (key : string) (fs : list (string * JValue)) : JValue :=
  match fs with
  | [] => JUndefined
  | (k, x) :: rest => if (k =? key)%string then x else assoc key rest
  end.

Definition property (v : JValue) (key : string) : Error + JValue :=
  match v with
  | JUndefined | JNull => inl (TypeError_property key)
  | JObject fields => inr (assoc key fields)
  | _ => inr JUndefined
  end.

End JS.

Declare Scope js_scope.
Delimit Scope js_scope with js.
Notation "x <- m ;; k" := (JS.bind m (fun x => k))
  (at level 61, m at next level, right associativity) : js_scope.
Notation "m ;; k" := (JS.bind m (fun _ => k))
  (at level 61, right associativity) : js_scope.

(* ================================================================== *)
(** * The class [CapitalWebSocket]                                     *)
(* ================================================================== *)

Module CapitalWebSocket.
Import JS.
Local Open Scope js_scope.

(** [readyState] of a socket of the [ws] library. *)
Definition CONNECTING : Z := 0.
Definition OPEN : Z := 1.
Definition CLOSING : Z := 2.
Definition CLOSED : Z := 3.

(** The socket object held in [this.ws]: the address its constructor
    was given and its [readyState]. *)
Record WebSocket : Type := mkWebSocket { address : string; readyState : Z }.

(** [type Resolution] of src/types.ts *)
Inductive Resolution : Type :=
| MINUTE | MINUTE_5 | MINUTE_15 | MINUTE_30 | HOUR | HOUR_4 | DAY | WEEK.

Definition Resolution_text (r : Resolution) : string :=
  match r with
  | MINUTE => "MINUTE" | MINUTE_5 => "MINUTE_5" | MINUTE_15 => "MINUTE_15"
  | MINUTE_30 => "MINUTE_30" | HOUR => "HOUR" | HOUR_4 => "HOUR_4"
  | DAY => "DAY" | WEEK => "WEEK"
  end.

(** ['classic' | 'heikin-ashi'] *)
Inductive CandleType : Type := classic | heikin_ashi.

Definition CandleType_text (c : CandleType) : string :=
  match c with classic => "classic" | heikin_ashi => "heikin-ashi" end.

(** [interface WebSocketMessage] of src/types.ts; an absent payload is
    [JUndefined]. *)
Module Msg.
Record t : Type := mk {
  destination : string;
  correlationId : string;
  cst : string;
  securityToken : string;
  payload : JValue
}.
End Msg.

(** The object [JSON.stringify] sees, properties in the order of the
    object literal of [createMessage]. *)
Definition message_value (m : Msg.t) : JValue :=
  JObject [ ("destination", JString (Msg.destination m));
            ("correlationId", JString (Msg.correlationId m));
            ("cst", JString (Msg.cst m));
            ("securityToken", JString (Msg.securityToken m));
            ("payload", Msg.payload m) ].

(** [interface CapitalWebSocketConfig] *)
Module Config.
Record t : Type := mk {
  cst : string;
  securityToken : string;
  streamingUrl : option string
}.
End Config.

(** ** The subscription table: a JavaScript [Map<string, any>]

    Bindings are kept in insertion order, the order [forEach] visits
    them; [set] on a key that is present replaces the value in place. *)
Definition Map : Type := list (string * Msg.t).

Fixpoint Map_set (key : string) (value : Msg.t) (m : Map) : Map :=
  match m with
  | [] => [(key, value)]
  | (k, v) :: rest =>
      if (k =? key)%string then (k, value) :: rest
      else (k, v) :: Map_set key value rest
  end.

Fixpoint Map_delete (key : string) (m : Map) : Map :=
  match m with
  | [] => []
  | (k, v) :: rest =>
      if (k =? key)%string then Map_delete key rest
      else (k, v) :: Map_delete key rest
  end.

Fixpoint Map_get (key : string) (m : Map) : option Msg.t :=
  match m with
  | [] => None
  | (k, v) :: rest => if (k =? key)%string then Some v else Map_get key rest
  end.

Definition Map_has (key : string) (m : Map) : bool :=
  match Map_get key m with Some _ => true | None => false end.

Definition Map_values (m : Map) : list Msg.t := map snd m.

(** ** Timers and the log of effects *)

(** The callbacks the class hands to [setTimeout] and [setInterval]. *)
Inductive Timer : Type :=
| Reconnect                     (* onClose: () => { this.connect() } *)
| Opened                        (* connect: () => { this.onOpen(); resolve() }, delay 0 *)
| Poll (pollCount : Z)          (* connect: the interval of 500 ms *)
| Backup (pollInterval : nat)   (* connect: the timeout of 10 s, which clears the interval *)
| AutoPing.                     (* startAutoPing *)

(** The argument of an emitted event. *)
Inductive EventArg : Type :=
| NoArg
| Value (v : JValue)
| Failure (e : Error).

(** What the object does to the world around it, in the order it does
    it: the calls of [this.emit], [new WebSocket], [ws.send],
    [ws.close], [setTimeout]/[setInterval] and [clearInterval]. *)
Inductive Effect : Type :=
| Emit (event : string) (arg : EventArg)
| NewSocket (url : string) (headers : list (string * string))
| SocketSend (frame : string)
| SocketClose
| SetTimer (id : nat) (callback : Timer) (delay : Z)
| ClearTimer (id : nat).

(** ** The object

    The private fields of the class, the listeners registered on the
    [EventEmitter] it extends, the timers it has pending and the log of
    its effects. *)
#[local] Set Primitive Projections.
Record t : Type := mk {
  ws : option WebSocket;
  cst : string;
  securityToken : string;
  streamingUrl : string;
  correlationIdCounter : Z;
  reconnectInterval : Z;
  maxReconnectAttempts : Z;
  reconnectAttempts : Z;
  isConnected : bool;
  subscriptions : Map;
  listeners : list string;
  timers : list (nat * Timer);
  timerSeq : nat;
  trace : list Effect
}.
#[local] Unset Primitive Projections.

Definition set_ws (x : option WebSocket) (o : t) : t :=
  mk x (cst o) (securityToken o) (streamingUrl o) (correlationIdCounter o)
     (reconnectInterval o) (maxReconnectAttempts o) (reconnectAttempts o)
     (isConnected o) (subscriptions o) (listeners o) (timers o) (timerSeq o) (trace o).

Definition set_tokens (c s : string) (o : t) : t :=
  mk (ws o) c s (streamingUrl o) (correlationIdCounter o)
     (reconnectInterval o) (maxReconnectAttempts o) (reconnectAttempts o)
     (isConnected o) (subscriptions o) (listeners o) (timers o) (timerSeq o) (trace o).

Definition set_correlationIdCounter (x : Z) (o : t) : t :=
  mk (ws o) (cst o) (securityToken o) (streamingUrl o) x
     (reconnectInterval o) (maxReconnectAttempts o) (reconnectAttempts o)
     (isConnected o) (subscriptions o) (listeners o) (timers o) (timerSeq o) (trace o).

Definition set_reconnectAttempts (x : Z) (o : t) : t :=
  mk (ws o) (cst o) (securityToken o) (streamingUrl o) (correlationIdCounter o)
     (reconnectInterval o) (maxReconnectAttempts o) x
     (isConnected o) (subscriptions o) (listeners o) (timers o) (timerSeq o) (trace o).

Definition set_isConnected (x : bool) (o : t) : t :=
  mk (ws o) (cst o) (securityToken o) (streamingUrl o) (correlationIdCounter o)
     (reconnectInterval o) (maxReconnectAttempts o) (reconnectAttempts o)
     x (subscriptions o) (listeners o) (timers o) (timerSeq o) (trace o).

Definition set_subscriptions (x : Map) (o : t) : t :=
  mk (ws o) (cst o) (securityToken o) (streamingUrl o) (correlationIdCounter o)
     (reconnectInterval o) (maxReconnectAttempts o) (reconnectAttempts o)
     (isConnected o) x (listeners o) (timers o) (timerSeq o) (trace o).

Definition set_listeners (x : list string) (o : t) : t :=
  mk (ws o) (cst o) (securityToken o) (streamingUrl o) (correlationIdCounter o)
     (reconnectInterval o) (maxReconnectAttempts o) (reconnectAttempts o)
     (isConnected o) (subscriptions o) x (timers o) (timerSeq o) (trace o).

Definition set_timers (x : list (nat * Timer)) (seq : nat) (o : t) : t :=
  mk (ws o) (cst o) (securityToken o) (streamingUrl o) (correlationIdCounter o)
     (reconnectInterval o) (maxReconnectAttempts o) (reconnectAttempts o)
     (isConnected o) (subscriptions o) (listeners o) x seq (trace o).

Definition set_trace (x : list Effect) (o : t) : t :=
  mk (ws o) (cst o) (securityToken o) (streamingUrl o) (correlationIdCounter o)
     (reconnectInterval o) (maxReconnectAttempts o) (reconnectAttempts o)
     (isConnected o) (subscriptions o) (listeners o) (timers o) (timerSeq o) x.

Definition log (e : Effect) (o : t) : t := set_trace (trace o ++ [e]) o.

(** [setTimeout(callback, delay)] and [setInterval(callback, delay)]:
    the timer gets the next identifier and stays pending. *)
Definition setTimer (callback : Timer) (delay : Z) (o : t) : t :=
  log (SetTimer (timerSeq o) callback delay)
      (set_timers (timers o ++ [(timerSeq o, callback)]) (S (timerSeq o)) o).

Definition without (id : nat) (ts : list (nat * Timer)) : list (nat * Timer) :=
  filter (fun p => negb (Nat.eqb (fst p) id)) ts.

(** A timeout that fires is no longer pending. *)
Definition expire (id : nat) (o : t) : t :=
  set_timers (without id (timers o)) (timerSeq o) o.

(** [clearInterval(id)] *)
Definition clearTimer (id : nat) (o : t) : t :=
  log (ClearTimer id) (expire id o).

Fixpoint pending (id : nat) (ts : list (nat * Timer)) : option Timer :=
  match ts with
  | [] => None
  | (i, callback) :: rest => if Nat.eqb i id then Some callback else pending id rest
  end.

Definition reschedule (id : nat) (callback : Timer) (o : t) : t :=
  set_timers (map (fun p => if Nat.eqb (fst p) id then (id, callback) else p) (timers o))
             (timerSeq o) o.

(** ** [EventEmitter]: [on] and [emit]

    Listeners are callbacks of the caller; they are taken to return
    normally and not to call back into the object.  Emitting ['error']
    while no listener is registered for it throws the error, as Node's
    [EventEmitter] does. *)
Definition listenerCount (event : string) (o : t) : nat :=
  count_occ string_dec (listeners o) event.

Definition on (event : string) : M t unit :=
  modify (fun o => set_listeners (listeners o ++ [event]) o).

Definition unhandled (arg : EventArg) : Error :=
  match arg with
  | Failure e => e
  | _ => mkError "Error" "Unhandled error."
  end.

Definition emit (event : string) (arg : EventArg) : M t unit :=
  fun o =>
    let o' := log (Emit event arg) o in
    if (event =? "error")%string && Nat.eqb (listenerCount event o) 0
    then Throw (unhandled arg) o'
    else Return tt o'.

(** ** The class *)

Definition DEFAULT_STREAMING_URL : string :=
  "wss://api-streaming-capital.backend-capital.com/connect".

(** [constructor(config)] with the field initialisers. *)
Definition new (config : Config.t) : t :=
  mk None (Config.cst config) (Config.securityToken config)
     (or_else (Config.streamingUrl config) DEFAULT_STREAMING_URL)
     0 5000 5 0 false [] [] [] 0%nat [].

Definition getNextCorrelationId : M t string :=
  fun o =>
    let n := incr (correlationIdCounter o) in
    Return (Number_toString n) (set_correlationIdCounter n o).

Definition createMessage (destination : string) (payload : JValue) : M t Msg.t :=
  id <- getNextCorrelationId ;;
  o <- get ;;
  ret (Msg.mk destination id (cst o) (securityToken o) payload).

Definition NOT_CONNECTED : Error := new_Error "WebSocket is not connected".

Definition socket_open (o : t) : bool :=
  match ws o with
  | Some sock => readyState sock =? 1
  | None => false
  end.

(** The text [ws.send] is given for a message. *)
Definition frame_of (message : Msg.t) : string := JSON_stringify (message_value message).

Definition send (message : Msg.t) : M t unit :=
  fun o =>
    if socket_open o
    then Return tt (log (SocketSend (frame_of message)) o)
    else Throw NOT_CONNECTED o.

Definition destination_is (dest : JValue) (s : string) : bool :=
  match dest with
  | JString d => (d =? s)%string
  | _ => false
  end.

(** [message.payload] once [message.destination] has been read: the
    message is then neither null nor undefined. *)
Definition payload_of (message : JValue) : JValue :=
  match property message "payload" with
  | inr v => v
  | inl _ => JUndefined
  end.

Definition PARSE_FAILED (error : Error) : Error :=
  new_Error ("Failed to parse WebSocket message: " ++ Error_toString error).

Definition MAX_ATTEMPTS_REACHED : Error := new_Error "Max reconnection attempts reached".

Section Handlers.

(** [JSON.parse] of the runtime: the value, or the error it throws.
    [data] is the text of the frame, [data.toString()]. *)
Variable JSON_parse : string -> Error + JValue.

Definition dispatch (message : JValue) : M t unit :=
  match property message "destination" with
  | inl e => throw e
  | inr dest =>
      if destination_is dest "quote" then emit "quote" (Value (payload_of message))
      else if destination_is dest "ohlc.event" then emit "ohlc" (Value (payload_of message))
      else if destination_is dest "ping" then emit "pong" (Value message)
      else if destination_is dest "marketData.subscribe"
           || destination_is dest "marketData.unsubscribe"
           || destination_is dest "OHLCMarketData.subscribe"
           || destination_is dest "OHLCMarketData.unsubscribe"
      then emit "subscription" (Value message)
      else emit "message" (Value message)
  end.

Definition onMessage (data : string) : M t unit :=
  try_catch
    (match JSON_parse data with
     | inl e => throw e
     | inr message => dispatch message
     end)
    (fun error => emit "error" (Failure (PARSE_FAILED error))).

Definition onError (error : Error) : M t unit :=
  emit "error" (Failure error).

Definition onClose : M t unit :=
  modify (set_isConnected false) ;;
  emit "disconnect" NoArg ;;
  o <- get ;;
  if reconnectAttempts o <? maxReconnectAttempts o
  then modify (set_reconnectAttempts (incr (reconnectAttempts o))) ;;
       modify (setTimer Reconnect (reconnectInterval o))
  else emit "error" (Failure MAX_ATTEMPTS_REACHED).

Definition onOpen : M t unit :=
  modify (set_isConnected true) ;;
  modify (set_reconnectAttempts 0) ;;
  emit "connect" NoArg ;;
  o <- get ;;
  forEach (fun entry => send (snd entry)) (subscriptions o).

(** [connect()] when [new WebSocket] returns a socket, as it does for
    every address it can parse.  [state] is the [readyState] the socket
    reports right after its construction.  The promise the method
    returns is not part of the object.  (When the constructor throws,
    the [catch] of the method rejects the promise and nothing else
    happens: the field [ws] keeps what it held and no timer is set.) *)
Definition connect (state : Z) : M t unit :=
  o <- get ;;
  modify (log (NewSocket (streamingUrl o)
                 [ ("CST", cst o);
                   ("X-SECURITY-TOKEN", securityToken o);
                   ("User-Agent", "Capital API Client") ])) ;;
  modify (set_ws (Some (mkWebSocket (streamingUrl o) state))) ;;
  if state =? 1
  then modify (setTimer Opened 0)
  else o1 <- get ;;
       modify (setTimer (Poll 0) 500) ;;
       modify (setTimer (Backup (timerSeq o1)) 10000).

Definition disconnect : M t unit :=
  o <- get ;;
  match ws o with
  | Some _ => modify (log SocketClose) ;; modify (set_ws None)
  | None => ret tt
  end ;;
  modify (set_isConnected false) ;;
  modify (set_subscriptions []).

Definition isConnectedToServer (o : t) : bool :=
  isConnected o && socket_open o.

Definition getWebSocketState (o : t) : option Z := option_map readyState (ws o).

(** [this.ws?.url]: the socket reports its address as the URL parser of
    the runtime writes it ([href]), which for an address without a path
    ends in a slash the address does not have. *)
Definition getWebSocketUrl (href : string -> string) (o : t) : option string :=
  option_map (fun sock => href (address sock)) (ws o).

Definition epics_value (epics : list string) : JValue := JArray (map JString epics).

Definition resolutions_value (resolutions : option (list Resolution)) : JValue :=
  match resolutions with
  | Some rs => JArray (map (fun r => JString (Resolution_text r)) rs)
  | None => JUndefined
  end.

(** [{ epics }] *)
Definition marketData_payload (epics : list string) : JValue :=
  JObject [("epics", epics_value epics)].

(** [{ epics, resolutions, type }] *)
Definition ohlc_payload (epics : list string) (resolutions : option (list Resolution))
  (type : option CandleType) : JValue :=
  JObject [ ("epics", epics_value epics);
            ("resolutions", resolutions_value resolutions);
            ("type", match type with
                     | Some c => JString (CandleType_text c)
                     | None => JUndefined
                     end) ].

(** [{ epics, resolutions, types }] *)
Definition ohlc_unsubscribe_payload (epics : list string)
  (resolutions : option (list Resolution)) (types : option (list CandleType)) : JValue :=
  JObject [ ("epics", epics_value epics);
            ("resolutions", resolutions_value resolutions);
            ("types", match types with
                      | Some ts => JArray (map (fun c => JString (CandleType_text c)) ts)
                      | None => JUndefined
                      end) ].

Definition marketData_key (epics : list string) : string :=
  "marketData_" ++ join "," epics.

Definition resolutions_key (resolutions : option (list Resolution)) : string :=
  or_else (option_map (fun rs => join "," (map Resolution_text rs)) resolutions) "default".

Definition subscribeToMarketData (epics : list string) : M t unit :=
  message <- createMessage "marketData.subscribe" (marketData_payload epics) ;;
  modify (fun o => set_subscriptions (Map_set (marketData_key epics) message (subscriptions o)) o) ;;
  send message.

Definition unsubscribeFromMarketData (epics : list string) : M t unit :=
  message <- createMessage "marketData.unsubscribe" (marketData_payload epics) ;;
  modify (fun o => set_subscriptions (Map_delete (marketData_key epics) (subscriptions o)) o) ;;
  send message.

Definition subscribe_ohlc_key (epics : list string) (resolutions : option (list Resolution))
  (type : option CandleType) : string :=
  "ohlc_" ++ join "," epics ++ "_" ++ resolutions_key resolutions ++ "_" ++
  or_else (option_map CandleType_text type) "classic".

Definition unsubscribe_ohlc_key (epics : list string) (resolutions : option (list Resolution))
  (types : option (list CandleType)) : string :=
  "ohlc_" ++ join "," epics ++ "_" ++ resolutions_key resolutions ++ "_" ++
  or_else (option_map (fun ts => join "," (map CandleType_text ts)) types) "classic".

Definition subscribeToOHLCData (epics : list string) (resolutions : option (list Resolution))
  (type : option CandleType) : M t unit :=
  message <- createMessage "OHLCMarketData.subscribe" (ohlc_payload epics resolutions type) ;;
  modify (fun o => set_subscriptions
                     (Map_set (subscribe_ohlc_key epics resolutions type) message (subscriptions o)) o) ;;
  send message.

Definition unsubscribeFromOHLCData (epics : list string) (resolutions : option (list Resolution))
  (types : option (list CandleType)) : M t unit :=
  message <- createMessage "OHLCMarketData.unsubscribe"
               (ohlc_unsubscribe_payload epics resolutions types) ;;
  modify (fun o => set_subscriptions
                     (Map_delete (unsubscribe_ohlc_key epics resolutions types) (subscriptions o)) o) ;;
  send message.

Definition ping : M t unit :=
  message <- createMessage "ping" JUndefined ;;
  send message.

(** [startAutoPing(interval = 540000)] *)
Definition startAutoPing (interval : option Z) : M t unit :=
  modify (setTimer AutoPing (match interval with Some ms => ms | None => 540000 end)).

Definition updateTokens (cst' securityToken' : string) : M t unit :=
  modify (set_tokens cst' securityToken').

(** ** The event loop

    The library sets the [readyState] of a socket before it emits the
    event; the socket of the event is the one in [this.ws]. *)
Definition set_readyState (state : Z) (o : t) : t :=
  set_ws (option_map (fun sock => mkWebSocket (address sock) state) (ws o)) o.

(** A pending timer fires.  [state] is only read by a reconnect: the
    [readyState] of the socket it constructs. *)
Definition fire (id : nat) (state : Z) : M t unit :=
  o <- get ;;
  match pending id (timers o) with
  | None => ret tt
  | Some Reconnect => modify (expire id) ;; connect state
  | Some Opened => modify (expire id) ;; onOpen
  | Some (Poll pollCount) =>
      if socket_open o then modify (clearTimer id) ;; onOpen
      else if incr pollCount >=? 20 then modify (clearTimer id)
      else modify (reschedule id (Poll (incr pollCount)))
  | Some (Backup pollInterval) =>
      modify (expire id) ;;
      modify (clearTimer pollInterval) ;;
      if socket_open o then onOpen else ret tt
  | Some AutoPing =>
      if isConnectedToServer o then ping else ret tt
  end.

(** What can happen to the object: a call of a public method, an event
    of the socket, a timer. *)
Inductive Action : Type :=
| Call_on (event : string)
| Call_connect (state : Z)
| Call_disconnect
| Call_subscribeToMarketData (epics : list string)
| Call_unsubscribeFromMarketData (epics : list string)
| Call_subscribeToOHLCData (epics : list string) (resolutions : option (list Resolution))
    (type : option CandleType)
| Call_unsubscribeFromOHLCData (epics : list string) (resolutions : option (list Resolution))
    (types : option (list CandleType))
| Call_ping
| Call_startAutoPing (interval : option Z)
| Call_updateTokens (cst' securityToken' : string)
| Socket_open
| Socket_message (data : string)
| Socket_error (error : Error)
| Socket_close
| Socket_unexpected_response (statusCode : Z) (statusMessage : string)
| Timer_fires (id : nat) (state : Z).

Definition step (a : Action) : M t unit :=
  match a with
  | Call_on event => on event
  | Call_connect state => connect state
  | Call_disconnect => disconnect
  | Call_subscribeToMarketData epics => subscribeToMarketData epics
  | Call_unsubscribeFromMarketData epics => unsubscribeFromMarketData epics
  | Call_subscribeToOHLCData epics resolutions type => subscribeToOHLCData epics resolutions type
  | Call_unsubscribeFromOHLCData epics resolutions types =>
      unsubscribeFromOHLCData epics resolutions types
  | Call_ping => ping
  | Call_startAutoPing interval => startAutoPing interval
  | Call_updateTokens c s => updateTokens c s
  | Socket_open => modify (set_readyState OPEN) ;; onOpen
  | Socket_message data => onMessage data
  | Socket_error error => onError error
  | Socket_close => modify (set_readyState CLOSED) ;; onClose
  | Socket_unexpected_response _ _ => ret tt   (* only rejects the promise *)
  | Timer_fires id state => fire id state
  end.

(** A run: each action starts from the object the previous one left,
    whether it returned or threw. *)
Fixpoint run (actions : list Action) (o : t) : t :=
  match actions with
  | [] => o
  | a :: rest => run rest (final (step a o))
  end.

End Handlers.

(** ** Reading the log *)

Definition emitted (event : string) (e : Effect) : bool :=
  match e with
  | Emit ev _ => (ev =? event)%string
  | _ => false
  end.

Definition emitted_error (needle : string) (e : Effect) : bool :=
  match e with
  | Emit ev (Failure err) => (ev =? "error")%string && includes needle (message err)
  | _ => false
  end.

Definition is_reconnect (e : Effect) : bool :=
  match e with
  | SetTimer _ Reconnect _ => true
  | _ => false
  end.

Definition is_new_socket (e : Effect) : bool :=
  match e with
  | NewSocket _ _ => true
  | _ => false
  end.

Fixpoint frames (es : list Effect) : list string :=
  match es with
  | [] => []
  | SocketSend frame :: rest => frame :: frames rest
  | _ :: rest => frames rest
  end.

Definition count (p : Effect -> bool) (es : list Effect) : nat :=
  List.length (filter p es).

End CapitalWebSocket.

(* ================================================================== *)
(** * src/CapitalAPI.ts: the session of the REST client                *)
(* ================================================================== *)

Module CapitalAPI.
Import JS.

(** ** HTTP as [axios] shows it to the class *)

Inductive Verb : Type := GET | POST | PUT | DELETE.

Record Request : Type := mkRequest {
  verb : Verb;
  endpoint : string;
  request_headers : list (string * string)
}.

Record Response : Type := mkResponse {
  status : Z;
  headers : list (string * string);
  data : JValue
}.

(** What comes back for a request: a response of the server, or no
    response at all (refused connection, timeout). *)
Inductive Reply : Type :=
| Answered (r : Response)
| Unanswered (e : Error).

(** The two [axios] instances: [this.client], which carries the
    interceptors, and the one [createSession] makes for itself. *)
Inductive Instance : Type := Shared | Temporary.

Record Exchange : Type := mkExchange {
  via : Instance;
  request : Request;
  reply : Reply
}.

(** What a rejected call throws: the error and, when the server did
    answer, [error.response]. *)
Record Rejection : Type := mkRejection {
  error : Error;
  response : option Response
}.

(** The default [validateStatus] of axios. *)
Definition accepted (r : Response) : bool := (200 <=? status r) && (status r <? 300).

Definition replied_401 (rp : Reply) : bool :=
  match rp with
  | Answered r => status r =? 401
  | Unanswered _ => false
  end.

(** ** The object *)

Record t : Type := mk {
  baseUrl : string;
  apiKey : option string;
  cst : option string;
  securityToken : option string;
  history : list Exchange
}.

(** [interface CapitalAPIConfig] of src/types.ts; the timeout does not
    bear on the session. *)
Module Config.
Record t : Type := mk {
  baseUrl : option string;
  demoMode : bool;
  apiKey : option string
}.
End Config.

Definition new (config : Config.t) : t :=
  mk (if Config.demoMode config
      then "https://demo-api-capital.backend-capital.com"
      else or_else (Config.baseUrl config) "https://api-capital.backend-capital.com")
     (Config.apiKey config) None None [].

Inductive Result (A : Type) : Type :=
| Resolved (a : A) (o : t)
| Rejected (r : Rejection) (o : t).
Arguments Resolved {A} a o.
Arguments Rejected {A} r o.

Definition after {A} (r : Result A) : t :=
  match r with Resolved _ o => o | Rejected _ o => o end.

Definition set_session (c s : option string) (o : t) : t :=
  mk (baseUrl o) (apiKey o) c s (history o).

Definition record (x : Exchange) (o : t) : t :=
  mk (baseUrl o) (apiKey o) (cst o) (securityToken o) (history o ++ [x]).

Definition clearSession (o : t) : t := set_session None None o.

Definition setSessionTokens (c s : string) (o : t) : t := set_session (Some c) (Some s) o.

Definition setApiKey (k : string) (o : t) : t :=
  mk (baseUrl o) (Some k) (cst o) (securityToken o) (history o).

Definition present (x : option string) : bool :=
  match x with Some s => truthy s | None => false end.

Definition isAuthenticated (o : t) : bool := present (cst o) && present (securityToken o).

Definition getSessionTokens (o : t) : option string * option string :=
  (cst o, securityToken o).

Definition header (name : string) (value : option string) : list (string * string) :=
  match value with
  | Some s => if truthy s then [(name, s)] else []
  | None => []
  end.

Definition DEFAULT_HEADERS : list (string * string) :=
  [("Content-Type", "application/json"); ("Accept", "application/json")].

(** The request interceptor of [this.client]. *)
Definition intercept_request (o : t) : list (string * string) :=
  DEFAULT_HEADERS ++ header "X-CAP-API-KEY" (apiKey o) ++ header "CST" (cst o)
  ++ header "X-SECURITY-TOKEN" (securityToken o).

Definition AxiosError (r : Response) : Error :=
  mkError "AxiosError" ("Request failed with status code " ++ Number_toString (status r)).

(** A request through [this.client]: the request interceptor, the
    exchange, the response interceptor. *)
Definition client_request (v : Verb) (url : string) (rp : Reply) (o : t) : Result Response :=
  let o1 := record (mkExchange Shared (mkRequest v url (intercept_request o)) rp) o in
  match rp with
  | Answered r =>
      if accepted r then Resolved r o1
      else Rejected (mkRejection (AxiosError r) (Some r))
                    (if status r =? 401 then clearSession o1 else o1)
  | Unanswered e => Rejected (mkRejection e None) o1
  end.

Definition plain (e : Error) : Rejection := mkRejection e None.

Definition status_of (r : Rejection) : option Z := option_map status (response r).

(** [private async get] *)
Definition get (url : string) (rp : Reply) (o : t) : Result JValue :=
  match client_request GET url rp o with
  | Resolved r o' =>
      match data r with
      | JUndefined => Rejected (plain (new_Error "No response data received")) o'
      | d => Resolved d o'
      end
  | Rejected rj o' =>
      match status_of rj with
      | Some 401 =>
          Rejected (plain (new_Error "Authentication failed - check your credentials and API key")) o'
      | _ => Rejected rj o'
      end
  end.

(** [private async post], [put] and [delete] *)
Definition send (v : Verb) (url : string) (rp : Reply) (o : t) : Result JValue :=
  match client_request v url rp o with
  | Resolved r o' => Resolved (data r) o'
  | Rejected rj o' => Rejected rj o'
  end.

Fixpoint lookup (name : string) (hs : list (string * string)) : option string :=
  match hs with
  | [] => None
  | (k, x) :: rest => if (k =? name)%string then Some x else lookup name rest
  end.

(** [hs[a] || hs[b]] *)
Definition either (a b : string) (hs : list (string * string)) : option string :=
  match lookup a hs with
  | Some s => if truthy s then Some s else lookup b hs
  | None => lookup b hs
  end.

(** [data?.errorCode || data?.message || 'Unknown error'], which the
    template literal of [createSession] writes into the message.  The
    text is given for the error bodies of the API, in which
    [errorCode] and [message] are strings when they are there
    ([described]).  A field that is a number, [true], an array or an
    object is truthy as well and is written as [String(field)]; the
    definition does not give that text. *)
Definition textual (v : JValue) : bool :=
  match v with
  | JUndefined | JNull | JBool false | JString _ => true
  | _ => false
  end.

Definition described (d : JValue) : bool :=
  match d with
  | JObject fields => textual (assoc "errorCode" fields) && textual (assoc "message" fields)
  | _ => true
  end.

Definition text_field (d : JValue) (key : string) : option string :=
  match d with
  | JObject fields =>
      match assoc key fields with
      | JString s => Some s
      | _ => None
      end
  | _ => None
  end.

Definition error_text (d : JValue) : string :=
  or_else (text_field d "errorCode") (or_else (text_field d "message") "Unknown error").

Definition API_ERROR (r : Response) : Error :=
  new_Error ("API Error (" ++ (if status r =? 0 then "unknown" else Number_toString (status r))
             ++ "): " ++ error_text (data r)).

Definition API_KEY_NEEDED (what : string) : Error :=
  new_Error ("API key is required to " ++ what).

(** ** The numbers of a body

    A number of a JSON text, [-? int frac? exp?], is read as the double
    nearest to the decimal it writes. *)
Definition digit_of (c : ascii) : option Z :=
  let n := Z.of_nat (nat_of_ascii c) in
  if (48 <=? n) && (n <=? 57) then Some (n - 48) else None.

(** The digits before the exponent, read as one integer [m], how many
    of them follow the point, and what follows the [e]. *)
Fixpoint significand (s : string) (point : bool) (m scale : Z) : Z * Z * string :=
  match s with
  | EmptyString => (m, scale, s)
  | String c rest =>
      match digit_of c with
      | Some d => significand rest point (10 * m + d) (if point then scale + 1 else scale)
      | None =>
          if Ascii.eqb c "." then significand rest true m scale
          else if Ascii.eqb c "-" then significand rest point m scale
          else (m, scale, rest)
      end
  end.

Fixpoint natural (s : string) (n : Z) : Z :=
  match s with
  | EmptyString => n
  | String c rest =>
      match digit_of c with
      | Some d => natural rest (10 * n + d)
      | None => n
      end
  end.

Definition exponent (s : string) : Z :=
  match s with
  | EmptyString => 0
  | String c rest =>
      if Ascii.eqb c "-" then - natural rest 0
      else if Ascii.eqb c "+" then natural rest 0
      else natural s 0
  end.

(** The literal writes the number [m * 10 ^ e], up to its sign. *)
Definition decimal (literal : string) : Z * Z :=
  let '(m, scale, rest) := significand literal false 0 0 in
  (m, exponent rest - scale).

(** The number is read as zero: it is zero, or it is at most 2^-1075,
    half of the least positive double, where the nearest double is 0
    (the tie goes to the even neighbour). *)
Definition reads_as_zero (literal : string) : bool :=
  let (m, e) := decimal literal in
  (m =? 0) || ((e <? 0) && (m * 2 ^ 1075 <=? 10 ^ (- e))).

(** Truthiness of a value of a body. *)
Definition truthy_value (d : JValue) : bool :=
  match d with
  | JUndefined | JNull | JBool false | JString EmptyString => false
  | JNumber literal => negb (reads_as_zero literal)
  | _ => true
  end.

(** [String(v)] and the [+] of a string and [v] throw a TypeError on an
    object that cannot be made a primitive.  Of the values of a body
    these are the objects with a property [toString] of their own, which
    is no function, and the arrays with such an item. *)
Fixpoint printable (v : JValue) : bool :=
  match v with
  | JArray items => forallb printable items
  | JObject fields =>
      match assoc "toString" fields with
      | JUndefined => true
      | _ => false
      end
  | _ => true
  end.

Definition TypeError_primitive : Error :=
  mkError "TypeError" "Cannot convert object to primitive value".

(** [createSession]: posts through an instance of its own, which has no
    interceptor, and takes the two tokens from the response headers. *)
Definition createSession (rp : Reply) (o : t) : Result JValue :=
  if negb (present (apiKey o)) then Rejected (plain (API_KEY_NEEDED "create session")) o
  else
    let o1 := record (mkExchange Temporary
                        (mkRequest POST "/api/v1/session"
                           (DEFAULT_HEADERS ++ header "X-CAP-API-KEY" (apiKey o))) rp) o in
    match rp with
    | Answered r =>
        if accepted r then
          let o2 :=
            match either "cst" "CST" (headers r),
                  either "x-security-token" "X-SECURITY-TOKEN" (headers r) with
            | Some c, Some s =>
                if truthy c && truthy s then setSessionTokens c s o1 else o1
            | _, _ => o1
            end in
          if truthy_value (data r) then Resolved (data r) o2
          else Rejected (plain (new_Error "Invalid response received")) o2
        else Rejected (plain (API_ERROR r)) o1
    | Unanswered e => Rejected (plain e) o1
    end.

Definition getEncryptionKey (rp : Reply) (o : t) : Result JValue :=
  if negb (present (apiKey o)) then Rejected (plain (API_KEY_NEEDED "get encryption key")) o
  else get "/api/v1/session/encryptionKey" rp o.

(** [createSessionWithEncryption]: the key first, then the session.
    Between the two, reading [encryptionData.encryptionKey] throws when
    the body of the first reply is null, and [password + '|' +
    timestamp] in [encryptPassword] throws when the [timeStamp] of the
    body cannot be made a primitive.  (Texts are taken to be well-formed
    Unicode, which [Utf8.parse] asks for.) *)
Definition createSessionWithEncryption (key session : Reply) (o : t) : Result JValue :=
  match getEncryptionKey key o with
  | Resolved encryptionData o' =>
      match property encryptionData "encryptionKey" with
      | inl e => Rejected (plain e) o'
      | inr _ =>
          match property encryptionData "timeStamp" with
          | inl e => Rejected (plain e) o'
          | inr timeStamp =>
              if printable timeStamp then createSession session o'
              else Rejected (plain TypeError_primitive) o'
          end
      end
  | Rejected rj o' => Rejected rj o'
  end.

Definition logout (rp : Reply) (o : t) : Result JValue :=
  match send DELETE "/api/v1/session" rp o with
  | Resolved d o' => Resolved d (clearSession o')
  | Rejected rj o' => Rejected rj o'
  end.

(** The public methods that make one request.  Arguments that only fill
    the body or the query of the request are left out. *)
Inductive Call : Type :=
| getServerTime | ping | call_getEncryptionKey | call_createSession
| getSessionDetails | switchAccount | call_logout
| getAllAccounts | getAccountPreferences | updateAccountPreferences
| getActivityHistory | getTransactionHistory | topUpDemoAccount
| getDealConfirmation (dealReference : string)
| getAllPositions | createPosition | getPosition (dealId : string)
| updatePosition (dealId : string) | closePosition (dealId : string)
| getAllWorkingOrders | createWorkingOrder | updateWorkingOrder (dealId : string)
| deleteWorkingOrder (dealId : string)
| getMarketNavigation | getMarketNavigationNode (nodeId : string)
| getMarkets | getMarketDetails (epic : string) | getHistoricalPrices (epic : string)
| getClientSentiment | getClientSentimentForMarket (marketId : string)
| getAllWatchlists | createWatchlist | getWatchlist (watchlistId : string)
| addMarketToWatchlist (watchlistId : string) | deleteWatchlist (watchlistId : string)
| removeMarketFromWatchlist (watchlistId epic : string).

Definition perform (c : Call) (rp : Reply) (o : t) : Result JValue :=
  match c with
  | getServerTime => get "/api/v1/time" rp o
  | ping => get "/api/v1/ping" rp o
  | call_getEncryptionKey => getEncryptionKey rp o
  | call_createSession => createSession rp o
  | getSessionDetails => get "/api/v1/session" rp o
  | switchAccount => send PUT "/api/v1/session" rp o
  | call_logout => logout rp o
  | getAllAccounts => get "/api/v1/accounts" rp o
  | getAccountPreferences => get "/api/v1/accounts/preferences" rp o
  | updateAccountPreferences => send PUT "/api/v1/accounts/preferences" rp o
  | getActivityHistory => get "/api/v1/history/activity" rp o
  | getTransactionHistory => get "/api/v1/history/transactions" rp o
  | topUpDemoAccount => send POST "/api/v1/accounts/topUp" rp o
  | getDealConfirmation dealReference => get ("/api/v1/confirms/" ++ dealReference) rp o
  | getAllPositions => get "/api/v1/positions" rp o
  | createPosition => send POST "/api/v1/positions" rp o
  | getPosition dealId => get ("/api/v1/positions/" ++ dealId) rp o
  | updatePosition dealId => send PUT ("/api/v1/positions/" ++ dealId) rp o
  | closePosition dealId => send DELETE ("/api/v1/positions/" ++ dealId) rp o
  | getAllWorkingOrders => get "/api/v1/workingorders" rp o
  | createWorkingOrder => send POST "/api/v1/workingorders" rp o
  | updateWorkingOrder dealId => send PUT ("/api/v1/workingorders/" ++ dealId) rp o
  | deleteWorkingOrder dealId => send DELETE ("/api/v1/workingorders/" ++ dealId) rp o
  | getMarketNavigation => get "/api/v1/marketnavigation" rp o
  | getMarketNavigationNode nodeId => get ("/api/v1/marketnavigation/" ++ nodeId) rp o
  | getMarkets => get "/api/v1/markets" rp o
  | getMarketDetails epic => get ("/api/v1/markets/" ++ epic) rp o
  | getHistoricalPrices epic => get ("/api/v1/prices/" ++ epic) rp o
  | getClientSentiment => get "/api/v1/clientsentiment" rp o
  | getClientSentimentForMarket marketId => get ("/api/v1/clientsentiment/" ++ marketId) rp o
  | getAllWatchlists => get "/api/v1/watchlists" rp o
  | createWatchlist => send POST "/api/v1/watchlists" rp o
  | getWatchlist watchlistId => get ("/api/v1/watchlists/" ++ watchlistId) rp o
  | addMarketToWatchlist watchlistId => send PUT ("/api/v1/watchlists/" ++ watchlistId) rp o
  | deleteWatchlist watchlistId => send DELETE ("/api/v1/watchlists/" ++ watchlistId) rp o
  | removeMarketFromWatchlist watchlistId epic =>
      send DELETE ("/api/v1/watchlists/" ++ watchlistId ++ "/" ++ epic) rp o
  end.

(** The call put a request on the wire. *)
Definition requested (c : Call) (rp : Reply) (o : t) : bool :=
  Nat.ltb (List.length (history o)) (List.length (history (after (perform c rp o)))).

Definition is_createSession (c : Call) : bool :=
  match c with call_createSession => true | _ => false end.

(** [createWebSocketConnection(config)]: the streaming client gets the
    tokens of the session. *)
Definition createWebSocketConnection (streamingUrl : option string) (o : t)
  : Error + CapitalWebSocket.t :=
  match cst o, securityToken o with
  | Some c, Some s =>
      if truthy c && truthy s
      then inr (CapitalWebSocket.new (CapitalWebSocket.Config.mk c s streamingUrl))
      else inl (new_Error
        "Session tokens are required for WebSocket connection. Please authenticate first.")
  | _, _ => inl (new_Error
        "Session tokens are required for WebSocket connection. Please authenticate first.")
  end.

End CapitalAPI.

(* ================================================================== *)
(** * A reference decoder for JSON text                                *)
(* ================================================================== *)

(** The message handler of the streaming client is stated for any
    [JSON.parse]; this decoder of the JSON grammar (RFC 8259) stands in
    for the one of the runtime where a concrete frame is decoded.
    Strings are sequences of bytes, [\uXXXX] is decoded to UTF-8. *)
Module ReferenceJSON.
Import JS.

Definition code (c : ascii) : nat := nat_of_ascii c.

Definition is_space (c : ascii) : bool :=
  let n := code c in
  Nat.eqb n 32 || Nat.eqb n 9 || Nat.eqb n 10 || Nat.eqb n 13.

Definition is_digit (c : ascii) : bool :=
  let n := code c in Nat.leb 48 n && Nat.leb n 57.

Fixpoint skip_space (s : string) : string :=
  match s with
  | String c rest => if is_space c then skip_space rest else s
  | EmptyString => s
  end.

Fixpoint drop (n : nat) (s : string) : string :=
  match n, s with
  | S k, String _ rest => drop k rest
  | _, _ => s
  end.

Definition keyword (kw : string) (v : JValue) (s : string) : option (JValue * string) :=
  if prefix kw s then Some (v, drop (String.length kw) s) else None.

(** The digits at the head of [s], and what follows them. *)
Fixpoint digits (s : string) : string * string :=
  match s with
  | String c rest =>
      if is_digit c then let (d, r) := digits rest in (String c d, r) else (EmptyString, s)
  | EmptyString => (EmptyString, s)
  end.

Definition head_is (c : ascii) (s : string) : bool :=
  match s with
  | String x _ => Ascii.eqb x c
  | EmptyString => false
  end.

(** [-? int frac? exp?] *)
Definition number (s : string) : option (string * string) :=
  let (sign, s1) := if head_is "-" s then ("-", drop 1 s) else ("", s) in
  let (int, s2) := digits s1 in
  if (int =? "")%string || (head_is "0" int && Nat.ltb 1 (String.length int)) then None
  else
    let frac :=
      if head_is "." s2 then
        let (f, r) := digits (drop 1 s2) in
        if (f =? "")%string then None else Some ("." ++ f, r)
      else Some ("", s2) in
    match frac with
    | None => None
    | Some (f, s3) =>
        if head_is "e" s3 || head_is "E" s3 then
          let e := substring 0 1 s3 in
          let s4 := drop 1 s3 in
          let (esign, s5) :=
            if head_is "+" s4 then ("+", drop 1 s4)
            else if head_is "-" s4 then ("-", drop 1 s4)
            else ("", s4) in
          let (x, s6) := digits s5 in
          if (x =? "")%string then None
          else Some (sign ++ int ++ f ++ e ++ esign ++ x, s6)
        else Some (sign ++ int ++ f, s3)
    end.

Definition hex_value (c : ascii) : option nat :=
  let n := code c in
  if Nat.leb 48 n && Nat.leb n 57 then Some (n - 48)%nat
  else if Nat.leb 97 n && Nat.leb n 102 then Some (n - 87)%nat
  else if Nat.leb 65 n && Nat.leb n 70 then Some (n - 55)%nat
  else None.

Definition utf8 (n : nat) : string :=
  if Nat.ltb n 128 then String (ascii_of_nat n) ""
  else if Nat.ltb n 2048 then
    String (ascii_of_nat (192 + n / 64)) (String (ascii_of_nat (128 + n mod 64)) "")
  else
    String (ascii_of_nat (224 + n / 4096))
      (String (ascii_of_nat (128 + (n / 64) mod 64))
         (String (ascii_of_nat (128 + n mod 64)) "")).

Definition simple_escape (c : ascii) : option ascii :=
  let n := code c in
  if Nat.eqb n 34 || Nat.eqb n 92 || Nat.eqb n 47 then Some c
  else if Nat.eqb n 98 then Some (ascii_of_nat 8)
  else if Nat.eqb n 102 then Some (ascii_of_nat 12)
  else if Nat.eqb n 110 then Some (ascii_of_nat 10)
  else if Nat.eqb n 114 then Some (ascii_of_nat 13)
  else if Nat.eqb n 116 then Some (ascii_of_nat 9)
  else None.

(** A string literal after its opening quote: the text and what follows
    the closing quote. *)
Fixpoint literal (s : string) : option (string * string) :=
  match s with
  | EmptyString => None
  | String c rest =>
      if Nat.eqb (code c) 34 then Some (EmptyString, rest)
      else if Nat.eqb (code c) 92 then
        match rest with
        | String e rest1 =>
            if Nat.eqb (code e) 117 then
              match rest1 with
              | String a (String b (String x (String y rest2))) =>
                  match hex_value a, hex_value b, hex_value x, hex_value y, literal rest2 with
                  | Some h3, Some h2, Some h1, Some h0, Some (text, r) =>
                      Some (utf8 (((h3 * 16 + h2) * 16 + h1) * 16 + h0) ++ text, r)
                  | _, _, _, _, _ => None
                  end
              | _ => None
              end
            else
              match simple_escape e, literal rest1 with
              | Some x, Some (text, r) => Some (String x text, r)
              | _, _ => None
              end
        | EmptyString => None
        end
      else if Nat.ltb (code c) 32 then None
      else
        match literal rest with
        | Some (text, r) => Some (String c text, r)
        | None => None
        end
  end.

(** A repeated name keeps its place and takes the last value. *)
Fixpoint put (key : string) (v : JValue) (fs : list (string * JValue)) : list (string * JValue) :=
  match fs with
  | [] => [(key, v)]
  | (k, x) :: rest =>
      if (k =? key)%string then (k, v) :: rest else (k, x) :: put key v rest
  end.

Fixpoint value (fuel : nat) (s : string) : option (JValue * string) :=
  match fuel with
  | O => None
  | S fuel' =>
      let s := skip_space s in
      match s with
      | EmptyString => None
      | String c rest =>
          if Ascii.eqb c "{" then
            if head_is "}" (skip_space rest) then Some (JObject [], drop 1 (skip_space rest))
            else members fuel' rest []
          else if Ascii.eqb c "[" then
            if head_is "]" (skip_space rest) then Some (JArray [], drop 1 (skip_space rest))
            else items fuel' rest []
          else if Nat.eqb (code c) 34 then
            match literal rest with
            | Some (text, r) => Some (JString text, r)
            | None => None
            end
          else if Ascii.eqb c "t" then keyword "true" (JBool true) s
          else if Ascii.eqb c "f" then keyword "false" (JBool false) s
          else if Ascii.eqb c "n" then keyword "null" JNull s
          else
            match number s with
            | Some (n, r) => Some (JNumber n, r)
            | None => None
            end
      end
  end
with items (fuel : nat) (s : string) (acc : list JValue) : option (JValue * string) :=
  match fuel with
  | O => None
  | S fuel' =>
      match value fuel' s with
      | Some (v, r) =>
          let r := skip_space r in
          if head_is "," r then items fuel' (drop 1 r) (acc ++ [v])
          else if head_is "]" r then Some (JArray (acc ++ [v]), drop 1 r)
          else None
      | None => None
      end
  end
with members (fuel : nat) (s : string) (acc : list (string * JValue)) : option (JValue * string) :=
  match fuel with
  | O => None
  | S fuel' =>
      match skip_space s with
      | String q rest =>
          if Nat.eqb (code q) 34 then
            match literal rest with
            | Some (key, r) =>
                let r := skip_space r in
                if head_is ":" r then
                  match value fuel' (drop 1 r) with
                  | Some (v, r') =>
                      let r' := skip_space r' in
                      if head_is "," r' then members fuel' (drop 1 r') (put key v acc)
                      else if head_is "}" r' then Some (JObject (put key v acc), drop 1 r')
                      else None
                  | None => None
                  end
                else None
            | None => None
            end
          else None
      | EmptyString => None
      end
  end.

Definition SyntaxError : Error := mkError "SyntaxError" "Unexpected token in JSON".

(** Every call of [value], [items] and [members] reads at least one
    character, so the length of the text bounds what they need. *)
Definition JSON_parse (data : string) : Error + JValue :=
  match value (S (String.length data)) data with
  | Some (v, rest) =>
      if (skip_space rest =? "")%string then inr v else inl SyntaxError
  | None => inl SyntaxError
  end.

End ReferenceJSON.


(* ================================================================== *)
(** * What a frame says: the value behind a JSON text                  *)
(* ================================================================== *)

Module Codec.
Import JS.

Definition is_undefined (v : JValue) : bool :=
  match v with JUndefined => true | _ => false end.

(** The properties [JSON.stringify] writes. *)
Definition defined (fields : list (string * JValue)) : list (string * JValue) :=
  filter (fun kv => negb (is_undefined (snd kv))) fields.

(** The value a reader of [JSON.stringify(v)] gets: properties that are
    undefined are not there, an undefined item of an array is null. *)
Fixpoint written (v : JValue) : JValue :=
  match v with
  | JUndefined => JNull
  | JArray items => JArray (map written items)
  | JObject fields =>
      JObject
        ((fix properties (fs : list (string * JValue)) : list (string * JValue) :=
            match fs with
            | [] => []
            | (k, JUndefined) :: rest => properties rest
            | (k, x) :: rest => (k, written x) :: properties rest
            end) fields)
  | _ => v
  end.

(** Values without numbers, in which no object names a property twice:
    the frames of the client are made of such values. *)
Fixpoint plain (v : JValue) : bool :=
  match v with
  | JNumber _ => false
  | JArray items => forallb plain items
  | JObject fields =>
      (fix properties (fs : list (string * JValue)) (seen : list string) : bool :=
         match fs with
         | [] => true
         | (k, JUndefined) :: rest => properties rest seen
         | (k, x) :: rest =>
             negb (existsb (String.eqb k) seen) && plain x && properties rest (k :: seen)
         end) fields []
  | _ => true
  end.

(** A bound on the recursion of a reader: one for each value, one more
    for each item and each property that is written. *)
Fixpoint size (v : JValue) : nat :=
  match v with
  | JArray items => S (fold_right (fun x n => S (size x + n)) 0%nat items)
  | JObject fields =>
      S ((fix properties (fs : list (string * JValue)) : nat :=
            match fs with
            | [] => 0%nat
            | (k, JUndefined) :: rest => properties rest
            | (k, x) :: rest => S (size x + properties rest)
            end) fields)
  | _ => 1%nat
  end.

Definition weight_items (items : list JValue) : nat :=
  fold_right (fun x n => S (size x + n)) 0%nat items.

Definition weight_fields (fields : list (string * JValue)) : nat :=
  fold_right (fun kv n => S (size (snd kv) + n)) 0%nat fields.

(** One property as [JSON.stringify] writes it. *)
Definition member_text (kv : string * JValue) : string :=
  quote (fst kv) ++ ":" ++ JSON_stringify (snd kv).

Definition written_member (kv : string * JValue) : string * JValue :=
  (fst kv, written (snd kv)).

(** The characters a written value can begin with. *)
Definition opening (c : ascii) : bool :=
  Ascii.eqb c "{" || Ascii.eqb c "[" || Nat.eqb (nat_of_ascii c) 34
  || Ascii.eqb c "t" || Ascii.eqb c "f" || Ascii.eqb c "n".

End Codec.

(* ================================================================== *)
(** * Vocabulary of the properties                                     *)
(* ================================================================== *)

Module Vocabulary.
Import JS CapitalWebSocket.

(** The message [createMessage] builds on the object [o]. *)
Definition created (destination : string) (payload : JValue) (o : t) : Msg.t :=
  Msg.mk destination (Number_toString (incr (correlationIdCounter o)))
         (cst o) (securityToken o) payload.

(** The [types] argument of [unsubscribeFromOHLCData] that names the one
    [type] a subscription was made with. *)
Definition matching_types (type : option CandleType) : option (list CandleType) :=
  option_map (fun c => [c]) type.

(** The frames a replay of the table [m] sends, in the order of the table. *)
Definition replay (m : Map) : list string := map frame_of (Map_values m).

(** Identifiers of pending timers are below the next identifier. *)
Definition timers_fresh (o : t) : Prop :=
  Forall (fun p => (fst p < timerSeq o)%nat) (timers o).

(** Timers that neither reconnect nor report an open socket by themselves. *)
Definition quiet (callback : Timer) : bool :=
  match callback with
  | Reconnect | Opened => false
  | _ => true
  end.

(** What can happen to an object while its socket does not open and
    nobody calls [connect()]: every other call of the caller, the other
    events of the socket, the timers. *)
Definition keeps_down (a : Action) : bool :=
  match a with
  | Call_connect _ | Socket_open => false
  | _ => true
  end.

(** [connect()] on a fresh object, then the socket closes five times in
    a row; the reconnection timer set by a close fires before the next. *)
Definition five_closes : list Action :=
  [ Call_connect CONNECTING;
    Socket_close; Timer_fires 2 CONNECTING;
    Socket_close; Timer_fires 5 CONNECTING;
    Socket_close; Timer_fires 8 CONNECTING;
    Socket_close; Timer_fires 11 CONNECTING;
    Socket_close ].

(** The fifth reconnection is attempted and its socket closes as well. *)
Definition sixth_close : list Action := [ Timer_fires 14 CONNECTING; Socket_close ].

(** One episode of a connection that drops and comes back: the socket
    closes, the reconnection timer the close sets fires, the new socket
    opens. *)
Definition episode (JSON_parse : string -> Error + JValue) (o : t) : t :=
  run JSON_parse
    [ Socket_close; Timer_fires (timerSeq o) CONNECTING; Socket_open ] o.

(** One failed reconnection: the socket closes, the reconnection timer
    the close sets fires, and the socket it constructs stays closed. *)
Definition failure (JSON_parse : string -> Error + JValue) (o : t) : t :=
  run JSON_parse [ Socket_close; Timer_fires (timerSeq o) CONNECTING ] o.

(** The call threw an error whose message contains [needle]. *)
Definition throws_containing {A} (needle : string) (r : Outcome t A) : bool :=
  match r with
  | Throw e _ => includes needle (message e)
  | Return _ _ => false
  end.

(** A caller connects and the socket opens. *)
Definition connects : list Action := [ Call_connect CONNECTING; Socket_open ].

Definition is_close (a : Action) : bool :=
  match a with Socket_close => true | _ => false end.

(** The reconnection budget is used up, the socket is not open and no
    pending timer reconnects or reports an open socket. *)
Definition spent (o : t) : bool :=
  (maxReconnectAttempts o <=? reconnectAttempts o)
  && negb (socket_open o)
  && forallb (fun p => quiet (snd p)) (timers o).

(** The budget is untouched and the identifiers of the timers are in order. *)
Definition ready (o : t) : Prop :=
  reconnectAttempts o = 0 /\ 0 < maxReconnectAttempts o /\ timers_fresh o.

(** The objects a client can become: the constructor, then any calls,
    events of the socket and timers. *)
Inductive reachable (JSON_parse : string -> Error + JValue) : t -> Prop :=
| reachable_new config : reachable JSON_parse (new config)
| reachable_step a o :
    reachable JSON_parse o -> reachable JSON_parse (final (step JSON_parse a o)).

(** What holds of every such object: the identifiers of its timers are
    in order, its counter of reconnections is within the budget of
    five, its table binds no key twice and holds messages of the
    subscription methods. *)
Definition sound (o : t) : Prop :=
  timers_fresh o
  /\ 0 <= reconnectAttempts o <= maxReconnectAttempts o
  /\ maxReconnectAttempts o = 5
  /\ NoDup (map fst (subscriptions o))
  /\ Forall (fun entry => Codec.plain (Msg.payload (snd entry)) = true) (subscriptions o).

(** The calls that write the table. *)
Definition writes_table (a : Action) : bool :=
  match a with
  | Call_disconnect
  | Call_subscribeToMarketData _ | Call_unsubscribeFromMarketData _
  | Call_subscribeToOHLCData _ _ _ | Call_unsubscribeFromOHLCData _ _ _ => true
  | _ => false
  end.

End Vocabulary.
(* ================================================================== *)
(** * Further vocabulary: the life of a connection                     *)
(* ================================================================== *)

From Stdlib Require DecimalZ DecimalPos.

Module Lifecycle.
Import JS CapitalWebSocket.

(** The events [onMessage] raises for a frame that was read. *)
Definition MESSAGE_EVENTS : list string :=
  ["quote"; "ohlc"; "pong"; "subscription"; "message"].

(** The destinations of the acknowledgements of the server. *)
Definition ACKNOWLEDGED : list string :=
  [ "marketData.subscribe"; "marketData.unsubscribe";
    "OHLCMarketData.subscribe"; "OHLCMarketData.unsubscribe" ].

(** The calls of [new WebSocket]: the address and the headers each was
    given for its handshake, oldest first. *)
Fixpoint sockets (es : list Effect) : list (string * list (string * string)) :=
  match es with
  | [] => []
  | NewSocket url headers :: rest => (url, headers) :: sockets rest
  | _ :: rest => sockets rest
  end.

(** The headers [connect()] gives the handshake. *)
Definition handshake (cst securityToken : string) : list (string * string) :=
  [ ("CST", cst); ("X-SECURITY-TOKEN", securityToken);
    ("User-Agent", "Capital API Client") ].

Definition is_close_of_socket (e : Effect) : bool :=
  match e with SocketClose => true | _ => false end.

(** One tick of the timer [id]. *)
Definition tick (JSON_parse : string -> Error + JValue) (id : nat) (o : t) : t :=
  final (step JSON_parse (Timer_fires id CONNECTING) o).

(** The delays of the reconnections the object scheduled. *)
Fixpoint reconnections (es : list Effect) : list Z :=
  match es with
  | [] => []
  | SetTimer _ Reconnect delay :: rest => delay :: reconnections rest
  | _ :: rest => reconnections rest
  end.

Definition is_string (v : JValue) : bool :=
  match v with JString _ => true | _ => false end.

(** The envelope of the streaming protocol: an object whose destination,
    correlation id and two tokens are strings. *)
Definition envelope (v : JValue) : bool :=
  match v with
  | JObject fields =>
      is_string (assoc "destination" fields)
      && is_string (assoc "correlationId" fields)
      && is_string (assoc "cst" fields)
      && is_string (assoc "securityToken" fields)
  | _ => false
  end.

(** The frame is JSON text that reads as an envelope. *)
Definition well_formed (frame : string) : bool :=
  match ReferenceJSON.JSON_parse frame with
  | inr v => envelope v
  | inl _ => false
  end.

(** The correlation ids of the messages in the table. *)
Definition ids (m : Map) : list string :=
  map (fun entry => Msg.correlationId (snd entry)) m.

(** What one call, event or timer may do to the world around an object
    that was [o] when it began. *)
Definition allowed (o : t) (e : Effect) : Prop :=
  match e with
  | SocketSend frame =>
      exists message, Codec.plain (Msg.payload message) = true /\ frame = frame_of message
  | NewSocket url headers =>
      url = streamingUrl o /\ headers = handshake (cst o) (securityToken o)
  | SetTimer _ Reconnect delay => delay = reconnectInterval o
  | SetTimer _ Opened delay => delay = 0
  | SetTimer _ (Poll _) delay => delay = 500
  | SetTimer _ (Backup _) delay => delay = 10000
  | _ => True
  end.

(** The object [o'] is what a call, an event or a timer made of [o]. *)
Definition grows (o o' : t) : Prop :=
  (exists done, trace o' = (trace o ++ done)%list /\ Forall (allowed o) done)
  /\ streamingUrl o' = streamingUrl o
  /\ reconnectInterval o' = reconnectInterval o
  /\ (correlationIdCounter o' = correlationIdCounter o
      \/ correlationIdCounter o' = incr (correlationIdCounter o)).

(** The messages of the table carry the numbers the counter has given
    out, each at most once while the counter is exact. *)
Definition numbered (o : t) : Prop :=
  0 <= correlationIdCounter o <= MAX_EXACT
  /\ Forall (fun entry =>
               exists n, 0 < n <= correlationIdCounter o
                         /\ Msg.correlationId (snd entry) = Number_toString n)
            (subscriptions o)
  /\ (correlationIdCounter o < MAX_EXACT -> NoDup (ids (subscriptions o))).

(** What happens to the object without a call of its owner: the events
    of the socket and the timers. *)
Definition is_event (a : Action) : bool :=
  match a with
  | Socket_open | Socket_message _ | Socket_error _ | Socket_close
  | Socket_unexpected_response _ _ | Timer_fires _ _ => true
  | _ => false
  end.

End Lifecycle.

(* ================================================================== *)
(** * src/CapitalAPI.ts: [encryptPassword]                             *)
(* ================================================================== *)

(** [crypto-js] as [encryptPassword] uses it.  A text is the sequence of
    its UTF-8 bytes, which is what [Utf8.parse] puts into the word
    array; [Base64.stringify] reads the bytes three at a time. *)
Module Crypto.

Definition BASE64_MAP : string :=
  "ABCDEFGHIJKLMNOPQRSTUVWXYZabcdefghijklmnopqrstuvwxyz0123456789+/=".

(** [map.charAt(n)] *)
Definition charAt (n : Z) (s : string) : string :=
  match String.get (Z.to_nat n) s with
  | Some c => String c ""
  | None => ""
  end.

(** [crypto.enc.Utf8.parse(text)]: the bytes of the text. *)
Definition Utf8_parse (text : string) : list Z :=
  map (fun c => Z.of_nat (nat_of_ascii c)) (list_ascii_of_string text).

(** [(byte1 << 16) | (byte2 << 8) | byte3] *)
Definition triplet_of (byte1 byte2 byte3 : Z) : Z :=
  Z.lor (Z.lor (Z.shiftl byte1 16) (Z.shiftl byte2 8)) byte3.

(** [(triplet >>> (6 * (3 - j))) & 0x3f] *)
Definition sextet (triplet j : Z) : Z := Z.land (Z.shiftr triplet (6 * (3 - j))) 63.

(** The characters pushed for the bytes: four for three bytes, and for
    the one or two bytes that remain at the end, whose missing bytes
    read as 0, the two or three characters that hold their bits. *)
Fixpoint base64Chars (bytes : list Z) : list string :=
  match bytes with
  | [] => []
  | [byte1] =>
      let triplet := triplet_of byte1 0 0 in
      [charAt (sextet triplet 0) BASE64_MAP; charAt (sextet triplet 1) BASE64_MAP]
  | [byte1; byte2] =>
      let triplet := triplet_of byte1 byte2 0 in
      [charAt (sextet triplet 0) BASE64_MAP; charAt (sextet triplet 1) BASE64_MAP;
       charAt (sextet triplet 2) BASE64_MAP]
  | byte1 :: byte2 :: byte3 :: rest =>
      let triplet := triplet_of byte1 byte2 byte3 in
      charAt (sextet triplet 0) BASE64_MAP :: charAt (sextet triplet 1) BASE64_MAP
      :: charAt (sextet triplet 2) BASE64_MAP :: charAt (sextet triplet 3) BASE64_MAP
      :: base64Chars rest
  end.

(** [while (base64Chars.length % 4) base64Chars.push(paddingChar)] *)
Definition padded (chars : list string) : list string :=
  chars ++ repeat (charAt 64 BASE64_MAP) ((4 - List.length chars mod 4) mod 4).

(** [crypto.enc.Base64.stringify(wordArray)] *)
Definition Base64_stringify (bytes : list Z) : string :=
  String.concat "" (padded (base64Chars bytes)).

End Crypto.

Module Password.
Import JS Crypto.

(** [private encryptPassword(encryptionKey, timestamp, password)]; the
    timestamp is the one of the API, an integer number of milliseconds,
    which is far below 2^53. *)
Definition encryptPassword (encryptionKey : string) (timestamp : Z) (password : string)
  : string :=
  let input := password ++ "|" ++ Number_toString timestamp in
  let inputBase64 := Base64_stringify (Utf8_parse input) in
  inputBase64.

End Password.

(** A reference decoder of Base64 (RFC 4648), to read what
    [encryptPassword] wrote. *)
Module ReferenceBase64.

Definition value (c : ascii) : option Z :=
  let n := Z.of_nat (nat_of_ascii c) in
  if (65 <=? n) && (n <=? 90) then Some (n - 65)
  else if (97 <=? n) && (n <=? 122) then Some (n - 71)
  else if (48 <=? n) && (n <=? 57) then Some (n + 4)
  else if n =? 43 then Some 62
  else if n =? 47 then Some 63
  else None.

Fixpoint decode (s : string) : option (list Z) :=
  match s with
  | EmptyString => Some []
  | String a (String b (String c (String d rest))) =>
      match value a, value b with
      | Some s0, Some s1 =>
          let byte1 := s0 * 4 + s1 / 16 in
          if Ascii.eqb c "=" then
            if Ascii.eqb d "=" && (rest =? "")%string then Some [byte1] else None
          else
            match value c with
            | Some s2 =>
                let byte2 := (s1 mod 16) * 16 + s2 / 4 in
                if Ascii.eqb d "=" then
                  if (rest =? "")%string then Some [byte1; byte2] else None
                else
                  match value d, decode rest with
                  | Some s3, Some bytes =>
                      Some (byte1 :: byte2 :: (s2 mod 4) * 64 + s3 :: bytes)
                  | _, _ => None
                  end
            | None => None
            end
      | _, _ => None
      end
  | _ => None
  end.

(** The text whose bytes these are. *)
Definition text_of (bytes : list Z) : string :=
  string_of_list_ascii (map (fun b => ascii_of_nat (Z.to_nat b)) bytes).

End ReferenceBase64.

(* ================================================================== *)
(** * Further vocabulary: the requests of the REST client              *)
(* ================================================================== *)

Module Wire.
Import JS CapitalAPI.

(** The exchanges a call added to the history of the object. *)
Definition exchanges (c : Call) (rp : Reply) (o : CapitalAPI.t) : list Exchange :=
  skipn (List.length (history o)) (history (after (perform c rp o))).

(** The server answered with a status the client accepts. *)
Definition succeeded (rp : Reply) : bool :=
  match rp with
  | Answered r => accepted r
  | Unanswered _ => false
  end.

(** The error of a rejected call, if it was rejected. *)
Definition rejection {A} (r : Result A) : option Rejection :=
  match r with
  | Resolved _ _ => None
  | Rejected rj _ => Some rj
  end.

Definition AUTHENTICATION_FAILED : Error :=
  new_Error "Authentication failed - check your credentials and API key".

(** The tokens a reply to [createSession] carries in its headers. *)
Definition token_headers (r : Response) : option string * option string :=
  (either "cst" "CST" (headers r),
   either "x-security-token" "X-SECURITY-TOKEN" (headers r)).

(** The reply to [createSession] carries both tokens. *)
Definition carries_tokens (r : Response) : bool :=
  match token_headers r with
  | (Some c, Some s) => truthy c && truthy s
  | _ => false
  end.

(** The server answered a GET with a status the client accepts and a
    body. *)
Definition delivered (rp : Reply) : bool :=
  match rp with
  | Answered r => accepted r && negb (Codec.is_undefined (data r))
  | Unanswered _ => false
  end.

(** The body of the reply that brings the key can be used: its
    [encryptionKey] can be read, which that of null cannot, and its
    [timeStamp] can be written into a string. *)
Definition usable (encryptionData : JValue) : bool :=
  match property encryptionData "encryptionKey", property encryptionData "timeStamp" with
  | inr _, inr timeStamp => printable timeStamp
  | _, _ => false
  end.

Definition NO_SESSION : Error :=
  new_Error "Session tokens are required for WebSocket connection. Please authenticate first.".

End Wire.


(* ================================================================== *)
(** * The reference decoder reads what [JSON.stringify] writes         *)
(* ================================================================== *)

Import JS Codec.

(** ** Strings *)

Lemma append_assoc (a b c : string) : ((a ++ b) ++ c = a ++ (b ++ c))%string.
Proof. induction a as [|x a IH]; simpl; [reflexivity|]. rewrite IH. reflexivity. Qed.

Lemma append_empty (a : string) : (a ++ "" = a)%string.
Proof. induction a as [|x a IH]; simpl; [reflexivity|]. rewrite IH. reflexivity. Qed.

Lemma length_append (a b : string) :
  String.length (a ++ b) = (String.length a + String.length b)%nat.
Proof. induction a as [|x a IH]; simpl; [reflexivity|]. rewrite IH. reflexivity. Qed.

(** ** String literals *)

Lemma hex_digit_value n : (n < 16)%nat -> ReferenceJSON.hex_value (hex_digit n) = Some n.
Proof.
  intros H. do 16 (destruct n as [|n]; [reflexivity|]). lia.
Qed.

Lemma literal_quote_char c text :
  ReferenceJSON.literal (quote_char c ++ text) =
  match ReferenceJSON.literal text with
  | Some (t, r) => Some (String c t, r)
  | None => None
  end.
Proof.
  unfold quote_char.
  pose proof (nat_ascii_bounded c) as B.
  pose proof (ascii_nat_embedding c) as E.
  remember (nat_of_ascii c) as n eqn:N.
  destruct (Nat.eqb_spec n 34) as [->|N34].
  { subst c. reflexivity. }
  destruct (Nat.eqb_spec n 92) as [->|N92].
  { subst c. reflexivity. }
  destruct (Nat.eqb_spec n 8) as [->|N8].
  { subst c. reflexivity. }
  destruct (Nat.eqb_spec n 9) as [->|N9].
  { subst c. reflexivity. }
  destruct (Nat.eqb_spec n 10) as [->|N10].
  { subst c. reflexivity. }
  destruct (Nat.eqb_spec n 12) as [->|N12].
  { subst c. reflexivity. }
  destruct (Nat.eqb_spec n 13) as [->|N13].
  { subst c. reflexivity. }
  destruct (Nat.ltb_spec n 32) as [L|L].
  - subst c. do 32 (destruct n as [|n]; [try reflexivity; try contradiction|]). lia.
  - simpl. unfold ReferenceJSON.code. rewrite <- N.
    apply Nat.eqb_neq in N34, N92. rewrite N34, N92.
    apply Nat.ltb_ge in L. rewrite L. reflexivity.
Qed.

Lemma literal_quote_body s rest :
  ReferenceJSON.literal (quote_body s ++ DQUOTE ++ rest) = Some (s, rest).
Proof.
  induction s as [|c s IH].
  - reflexivity.
  - cbn [quote_body]. rewrite append_assoc, literal_quote_char, IH. reflexivity.
Qed.

(** ** The writer, one constructor at a time *)

Lemma stringify_object fields :
  JSON_stringify (JObject fields)
  = ("{" ++ join "," (map member_text (defined fields)) ++ "}")%string.
Proof.
  cbn [JSON_stringify]. do 3 f_equal.
  induction fields as [|[k x] fields IH]; [reflexivity|].
  destruct x; [exact IH|exact (f_equal (cons _) IH)..].
Qed.

Lemma written_object fields :
  written (JObject fields) = JObject (map written_member (defined fields)).
Proof.
  cbn [written]. f_equal.
  induction fields as [|[k x] fields IH]; [reflexivity|].
  destruct x; [exact IH|exact (f_equal (cons _) IH)..].
Qed.

Lemma plain_object fields :
  plain (JObject fields) = true ->
  NoDup (map fst (defined fields))
  /\ Forall (fun kv => plain (snd kv) = true) (defined fields).
Proof.
  cbn [plain].
  assert (G : forall fs seen,
            (fix properties (fs : list (string * JValue)) (seen : list string) : bool :=
               match fs with
               | [] => true
               | (k, JUndefined) :: rest => properties rest seen
               | (k, x) :: rest =>
                   negb (existsb (String.eqb k) seen) && plain x && properties rest (k :: seen)
               end) fs seen = true ->
            NoDup (map fst (defined fs))
            /\ (forall k, In k (map fst (defined fs)) -> ~ In k seen)
            /\ Forall (fun kv => plain (snd kv) = true) (defined fs)).
  { induction fs as [|[k x] fs IH]; intros seen H.
    - simpl. repeat split; [constructor|intros k []|constructor].
    - assert (D : x = JUndefined \/
                  (is_undefined x = false
                   /\ negb (existsb (String.eqb k) seen) && plain x
                      && (fix properties (fs : list (string * JValue)) (seen : list string)
                            : bool :=
                            match fs with
                            | [] => true
                            | (k, JUndefined) :: rest => properties rest seen
                            | (k, x) :: rest =>
                                negb (existsb (String.eqb k) seen) && plain x
                                && properties rest (k :: seen)
                            end) fs (k :: seen) = true)).
      { destruct x; [left; reflexivity|right; split; [reflexivity|exact H]..]. }
      destruct D as [->|[U D]].
      + simpl. apply IH. exact H.
      + unfold defined. simpl. rewrite U. simpl. fold (defined fs).
        apply andb_true_iff in D as [D R]. apply andb_true_iff in D as [S P].
        apply negb_true_iff in S.
        destruct (IH _ R) as [ND [FR AL]].
        repeat split.
        * constructor; [|exact ND]. intros I. apply (FR k I). now left.
        * intros k' [<-|I] J.
          -- assert (X : existsb (String.eqb k) seen = true).
             { apply existsb_exists. exists k. split; [exact J|apply String.eqb_refl]. }
             congruence.
          -- apply (FR k' I). now right.
        * constructor; [exact P|exact AL]. }
  intros H. destruct (G fields [] H) as [ND [_ AL]]. split; assumption.
Qed.

Lemma size_object fields : size (JObject fields) = S (weight_fields (defined fields)).
Proof.
  cbn [size]. f_equal.
  induction fields as [|[k x] fields IH]; [reflexivity|].
  destruct x; [exact IH|exact (f_equal (fun n => S (_ + n)) IH)..].
Qed.

Lemma size_positive v : (1 <= size v)%nat.
Proof. destruct v; simpl; lia. Qed.

(** A written value begins with an opening character. *)
Lemma stringify_opening v :
  plain v = true ->
  exists c text, JSON_stringify v = String c text /\ opening c = true.
Proof.
  destruct v; intros P; try discriminate P.
  - exists "n"%char, "ull"%string. split; reflexivity.
  - exists "n"%char, "ull"%string. split; reflexivity.
  - destruct b; [exists "t"%char, "rue"%string|exists "f"%char, "alse"%string];
      split; reflexivity.
  - eexists. eexists. split; reflexivity.
  - eexists. eexists. split; reflexivity.
  - rewrite stringify_object. eexists. eexists. split; reflexivity.
Qed.

Lemma put_fresh key value fields :
  ~ In key (map fst fields) ->
  ReferenceJSON.put key value fields = (fields ++ [(key, value)])%list.
Proof.
  induction fields as [|[k x] fields IH]; simpl; intros N; [reflexivity|].
  destruct (String.eqb_spec k key) as [->|D]; [tauto|].
  rewrite IH by tauto. reflexivity.
Qed.

(** ** The reader, one step at a time *)

Lemma opening_cases c :
  opening c = true ->
  ReferenceJSON.is_space c = false
  /\ Ascii.eqb c "]" = false /\ Ascii.eqb c "}" = false /\ Ascii.eqb c "," = false.
Proof.
  unfold opening. intros H.
  repeat (apply orb_true_iff in H as [H|H]);
    try (apply Ascii.eqb_eq in H; subst c; repeat split; reflexivity).
  apply Nat.eqb_eq in H.
  rewrite <- (ascii_nat_embedding c), H. repeat split; reflexivity.
Qed.

Lemma value_object fuel rest :
  ReferenceJSON.value (S fuel) (String "{" rest)
  = if ReferenceJSON.head_is "}" (ReferenceJSON.skip_space rest)
    then Some (JObject [], ReferenceJSON.drop 1 (ReferenceJSON.skip_space rest))
    else ReferenceJSON.members fuel rest [].
Proof. reflexivity. Qed.

Lemma value_array fuel rest :
  ReferenceJSON.value (S fuel) (String "[" rest)
  = if ReferenceJSON.head_is "]" (ReferenceJSON.skip_space rest)
    then Some (JArray [], ReferenceJSON.drop 1 (ReferenceJSON.skip_space rest))
    else ReferenceJSON.items fuel rest [].
Proof. reflexivity. Qed.

Lemma prefix_append kw rest : prefix kw (kw ++ rest) = true.
Proof.
  induction kw as [|c kw IH]; simpl.
  - destruct rest; reflexivity.
  - destruct (ascii_dec c c) as [_|N]; [exact IH|contradiction].
Qed.

Lemma drop_append kw rest : ReferenceJSON.drop (String.length kw) (kw ++ rest) = rest.
Proof. induction kw as [|c kw IH]; simpl; [destruct rest; reflexivity|exact IH]. Qed.

Lemma keyword_append kw v rest :
  ReferenceJSON.keyword kw v (kw ++ rest) = Some (v, rest).
Proof. unfold ReferenceJSON.keyword. rewrite prefix_append, drop_append. reflexivity. Qed.

Lemma value_null fuel rest :
  ReferenceJSON.value (S fuel) ("null" ++ rest) = Some (JNull, rest).
Proof.
  change (ReferenceJSON.value (S fuel) ("null" ++ rest))
    with (ReferenceJSON.keyword "null" JNull ("null" ++ rest)).
  apply keyword_append.
Qed.

Lemma value_true fuel rest :
  ReferenceJSON.value (S fuel) ("true" ++ rest) = Some (JBool true, rest).
Proof.
  change (ReferenceJSON.value (S fuel) ("true" ++ rest))
    with (ReferenceJSON.keyword "true" (JBool true) ("true" ++ rest)).
  apply keyword_append.
Qed.

Lemma value_false fuel rest :
  ReferenceJSON.value (S fuel) ("false" ++ rest) = Some (JBool false, rest).
Proof.
  change (ReferenceJSON.value (S fuel) ("false" ++ rest))
    with (ReferenceJSON.keyword "false" (JBool false) ("false" ++ rest)).
  apply keyword_append.
Qed.

Lemma value_string fuel s rest :
  ReferenceJSON.value (S fuel) (quote s ++ rest) = Some (JString s, rest).
Proof.
  unfold quote. rewrite !append_assoc.
  change (ReferenceJSON.value (S fuel) (DQUOTE ++ quote_body s ++ DQUOTE ++ rest))
    with (match ReferenceJSON.literal (quote_body s ++ DQUOTE ++ rest) with
          | Some (text, r) => Some (JString text, r)
          | None => None
          end).
  rewrite literal_quote_body. reflexivity.
Qed.

Lemma items_step fuel s acc v r :
  ReferenceJSON.value fuel s = Some (v, r) ->
  ReferenceJSON.items (S fuel) s acc
  = if ReferenceJSON.head_is "," (ReferenceJSON.skip_space r)
    then ReferenceJSON.items fuel (ReferenceJSON.drop 1 (ReferenceJSON.skip_space r))
           (acc ++ [v])
    else if ReferenceJSON.head_is "]" (ReferenceJSON.skip_space r)
         then Some (JArray (acc ++ [v]), ReferenceJSON.drop 1 (ReferenceJSON.skip_space r))
         else None.
Proof. intros H. cbn [ReferenceJSON.items]. rewrite H. reflexivity. Qed.

Lemma members_step fuel key s acc v r :
  ReferenceJSON.value fuel s = Some (v, r) ->
  ReferenceJSON.members (S fuel) (quote key ++ ":" ++ s) acc
  = if ReferenceJSON.head_is "," (ReferenceJSON.skip_space r)
    then ReferenceJSON.members fuel (ReferenceJSON.drop 1 (ReferenceJSON.skip_space r))
           (ReferenceJSON.put key v acc)
    else if ReferenceJSON.head_is "}" (ReferenceJSON.skip_space r)
         then Some (JObject (ReferenceJSON.put key v acc),
                    ReferenceJSON.drop 1 (ReferenceJSON.skip_space r))
         else None.
Proof.
  intros H. unfold quote. rewrite !append_assoc.
  change (ReferenceJSON.members (S fuel) (DQUOTE ++ quote_body key ++ DQUOTE ++ ":" ++ s) acc)
    with (match ReferenceJSON.literal (quote_body key ++ DQUOTE ++ ":" ++ s) with
          | Some (k, r0) =>
              let r1 := ReferenceJSON.skip_space r0 in
              if ReferenceJSON.head_is ":" r1 then
                match ReferenceJSON.value fuel (ReferenceJSON.drop 1 r1) with
                | Some (v, r') =>
                    let r'' := ReferenceJSON.skip_space r' in
                    if ReferenceJSON.head_is "," r''
                    then ReferenceJSON.members fuel (ReferenceJSON.drop 1 r'')
                           (ReferenceJSON.put k v acc)
                    else if ReferenceJSON.head_is "}" r''
                         then Some (JObject (ReferenceJSON.put k v acc),
                                    ReferenceJSON.drop 1 r'')
                         else None
                | None => None
                end
              else None
          | None => None
          end).
  rewrite literal_quote_body. cbv zeta.
  change (ReferenceJSON.skip_space (":" ++ s)) with (String ":" s).
  change (ReferenceJSON.head_is ":" (String ":" s)) with true. cbv iota.
  change (ReferenceJSON.drop 1 (String ":" s)) with s.
  rewrite H. reflexivity.
Qed.

Lemma join_opening v vs tail :
  plain v = true ->
  exists c text,
    (join "," (map JSON_stringify (v :: vs)) ++ tail)%string = String c text
    /\ opening c = true.
Proof.
  intros P. destruct (stringify_opening v P) as [c [text [E O]]].
  destruct vs as [|v' vs]; cbn [map join String.concat]; rewrite E.
  - exists c. eexists. split; [reflexivity|exact O].
  - exists c. eexists. split; [reflexivity|exact O].
Qed.

(** ** Reading what was written *)

Lemma reads_what_is_written fuel :
  (forall v rest,
      (size v <= fuel)%nat -> plain v = true ->
      ReferenceJSON.value fuel (JSON_stringify v ++ rest) = Some (written v, rest))
  /\ (forall v vs acc rest,
         (weight_items (v :: vs) <= fuel)%nat -> forallb plain (v :: vs) = true ->
         ReferenceJSON.items fuel
           (join "," (map JSON_stringify (v :: vs)) ++ "]" ++ rest) acc
         = Some (JArray (acc ++ map written (v :: vs)), rest))
  /\ (forall kv fs acc rest,
         (weight_fields (kv :: fs) <= fuel)%nat ->
         Forall (fun kv => plain (snd kv) = true) (kv :: fs) ->
         NoDup (map fst (kv :: fs)) ->
         (forall k, In k (map fst (kv :: fs)) -> ~ In k (map fst acc)) ->
         ReferenceJSON.members fuel
           (join "," (map member_text (kv :: fs)) ++ "}" ++ rest) acc
         = Some (JObject (acc ++ map written_member (kv :: fs)), rest)).
Proof.
  induction fuel as [|fuel [V [I M]]].
  - split; [|split].
    + intros v rest S. pose proof (size_positive v). lia.
    + intros v vs acc rest W. simpl in W. lia.
    + intros kv fs acc rest W. simpl in W. lia.
  - split; [|split].
    + (* a value *)
      intros v rest S P. destruct v; try discriminate P.
      * apply value_null.
      * apply value_null.
      * destruct b; [apply value_true|apply value_false].
      * apply value_string.
      * destruct items as [|v vs]; [reflexivity|].
        change (JSON_stringify (JArray (v :: vs)))
          with (String "[" (join "," (map JSON_stringify (v :: vs)) ++ "]")).
        cbn [String.append]. rewrite append_assoc, value_array.
        cbn [plain] in P.
        destruct (join_opening v vs ("]" ++ rest)
                    ltac:(cbn [forallb] in P; apply andb_true_iff in P as [P _]; exact P))
          as [c [text [E O]]].
        destruct (opening_cases c O) as [SP [NB _]].
        rewrite E. cbn [ReferenceJSON.skip_space]. rewrite SP.
        cbn [ReferenceJSON.head_is]. rewrite NB. rewrite <- E.
        apply (I v vs [] rest); [|exact P].
        cbn [size] in S. unfold weight_items. lia.
      * rewrite stringify_object, written_object.
        destruct (plain_object _ P) as [ND AL].
        rewrite size_object in S.
        destruct (defined fields) as [|kv fs]; [reflexivity|].
        change ("{" ++ join "," (map member_text (kv :: fs)) ++ "}")%string
          with (String "{" (join "," (map member_text (kv :: fs)) ++ "}")).
        cbn [String.append]. rewrite append_assoc, value_object.
        assert (H : exists text,
                   (join "," (map member_text (kv :: fs)) ++ "}" ++ rest)%string
                   = String (ascii_of_nat 34) text).
        { destruct fs; cbn [map join String.concat]; unfold member_text, quote;
            rewrite !append_assoc; eexists; reflexivity. }
        destruct H as [text E]. rewrite E. rewrite <- E.
        replace (ReferenceJSON.head_is "}"
                   (ReferenceJSON.skip_space
                      (join "," (map member_text (kv :: fs)) ++ "}" ++ rest)))
          with false by (rewrite E; reflexivity).
        apply (M kv fs [] rest); [lia|exact AL|exact ND|].
        intros k _ [].
    + (* the items of an array *)
      intros v vs acc rest W P.
      cbn [forallb] in P. apply andb_true_iff in P as [Pv Ps].
      unfold weight_items in W. cbn [fold_right] in W. fold (weight_items vs) in W.
      destruct vs as [|v' vs].
      * cbn [map join String.concat].
        rewrite (items_step fuel _ acc (written v) ("]" ++ rest))
          by (apply V; [lia|exact Pv]).
        reflexivity.
      * change (join "," (map JSON_stringify (v :: v' :: vs)))
          with (JSON_stringify v ++ "," ++ join "," (map JSON_stringify (v' :: vs)))%string.
        rewrite !append_assoc.
        rewrite (items_step fuel _ acc (written v)
                   ("," ++ join "," (map JSON_stringify (v' :: vs)) ++ "]" ++ rest))
          by (apply V; [lia|exact Pv]).
        change (ReferenceJSON.skip_space
                  ("," ++ join "," (map JSON_stringify (v' :: vs)) ++ "]" ++ rest))
          with (String "," (join "," (map JSON_stringify (v' :: vs)) ++ "]" ++ rest)).
        cbn [ReferenceJSON.head_is ReferenceJSON.drop].
        change (Ascii.eqb "," ",") with true. cbv iota.
        rewrite I; [|unfold weight_items in *; lia|exact Ps].
        rewrite <- app_assoc. reflexivity.
    + (* the properties of an object *)
      intros [k x] fs acc rest W P ND FR.
      inversion P as [|? ? Px Ps]; subst.
      inversion ND as [|? ? Nk NDs]; subst.
      unfold weight_fields in W. cbn [fold_right snd] in W. fold (weight_fields fs) in W.
      assert (FK : ReferenceJSON.put k (written x) acc = (acc ++ [(k, written x)])%list).
      { apply put_fresh. apply FR. now left. }
      destruct fs as [|kv' fs].
      * cbn [map join String.concat]. unfold member_text. cbn [fst snd].
        rewrite !append_assoc.
        rewrite (members_step fuel k _ acc (written x) ("}" ++ rest))
          by (apply V; [lia|exact Px]).
        rewrite FK. reflexivity.
      * change (join "," (map member_text ((k, x) :: kv' :: fs)))
          with (member_text (k, x) ++ "," ++ join "," (map member_text (kv' :: fs)))%string.
        unfold member_text at 1. cbn [fst snd]. rewrite !append_assoc.
        rewrite (members_step fuel k _ acc (written x)
                   ("," ++ join "," (map member_text (kv' :: fs)) ++ "}" ++ rest))
          by (apply V; [lia|exact Px]).
        change (ReferenceJSON.skip_space
                  ("," ++ join "," (map member_text (kv' :: fs)) ++ "}" ++ rest))
          with (String "," (join "," (map member_text (kv' :: fs)) ++ "}" ++ rest)).
        cbn [ReferenceJSON.head_is ReferenceJSON.drop].
        change (Ascii.eqb "," ",") with true. cbv iota.
        rewrite FK.
        rewrite M; [|unfold weight_fields in *; lia|exact Ps|exact NDs|].
        -- rewrite <- app_assoc. reflexivity.
        -- intros k' Ik Ia. rewrite map_app in Ia. apply in_app_or in Ia as [Ia|[<-|[]]].
           ++ apply (FR k'); [right; exact Ik|exact Ia].
           ++ apply Nk. exact Ik.
Qed.

(** ** The length of a text bounds the recursion of its reader *)

Lemma weight_items_length vs :
  Forall (fun v => (size v <= String.length (JSON_stringify v))%nat) vs ->
  (weight_items vs <= S (String.length (join "," (map JSON_stringify vs))))%nat.
Proof.
  induction 1 as [|v vs Hv _ IH]; [simpl; lia|].
  destruct vs as [|v' vs].
  - simpl. lia.
  - change (join "," (map JSON_stringify (v :: v' :: vs)))
      with (JSON_stringify v ++ "," ++ join "," (map JSON_stringify (v' :: vs)))%string.
    rewrite !length_append.
    change (weight_items (v :: v' :: vs)) with (S (size v + weight_items (v' :: vs))).
    simpl String.length at 2. lia.
Qed.

Lemma weight_fields_length fs :
  Forall (fun kv => (size (snd kv) <= String.length (JSON_stringify (snd kv)))%nat) fs ->
  (weight_fields fs <= S (String.length (join "," (map member_text fs))))%nat.
Proof.
  induction 1 as [|[k x] fs Hx _ IH]; [simpl; lia|].
  assert (L : (String.length (JSON_stringify x) <= String.length (member_text (k, x)))%nat).
  { unfold member_text. rewrite !length_append. simpl. lia. }
  simpl snd in Hx.
  destruct fs as [|kv' fs].
  - cbn [map join String.concat weight_fields fold_right snd]. lia.
  - change (join "," (map member_text ((k, x) :: kv' :: fs)))
      with (member_text (k, x) ++ "," ++ join "," (map member_text (kv' :: fs)))%string.
    rewrite !length_append.
    change (weight_fields ((k, x) :: kv' :: fs))
      with (S (size x + weight_fields (kv' :: fs))).
    simpl String.length at 2. lia.
Qed.

Lemma weight_items_bound vs n :
  (weight_items vs <= n)%nat -> Forall (fun v => (size v <= n)%nat) vs.
Proof.
  induction vs as [|v vs IH]; intros W; constructor;
    change (weight_items (v :: vs)) with (S (size v + weight_items vs)) in W; [lia|].
  apply IH. lia.
Qed.

Lemma weight_fields_bound fs n :
  (weight_fields fs <= n)%nat -> Forall (fun kv => (size (snd kv) <= n)%nat) fs.
Proof.
  induction fs as [|kv fs IH]; intros W; constructor;
    change (weight_fields (kv :: fs)) with (S (size (snd kv) + weight_fields fs)) in W; [lia|].
  apply IH. lia.
Qed.

Lemma size_length n : forall v,
  (size v <= n)%nat -> plain v = true ->
  (size v <= String.length (JSON_stringify v))%nat.
Proof.
  induction n as [|n IH]; intros v S P.
  - pose proof (size_positive v). lia.
  - destruct v as [ | |b|literal|text|items|fields];
      try discriminate P; try (simpl; lia).
    + destruct b; simpl; lia.
    + change (JSON_stringify (JArray items))
        with ("[" ++ join "," (map JSON_stringify items) ++ "]")%string.
      rewrite !length_append.
      change (size (JArray items)) with (Datatypes.S (weight_items items)) in *.
      assert (F : Forall (fun v => (size v <= String.length (JSON_stringify v))%nat) items).
      { cbn [plain] in P. rewrite forallb_forall in P.
        pose proof (weight_items_bound items n ltac:(lia)) as B.
        rewrite Forall_forall in *. intros v I. apply IH; auto. }
      pose proof (weight_items_length items F). simpl String.length. lia.
    + rewrite stringify_object, size_object in *. rewrite !length_append.
      destruct (plain_object _ P) as [_ AL].
      assert (F : Forall (fun kv => (size (snd kv)
                                     <= String.length (JSON_stringify (snd kv)))%nat)
                         (defined fields)).
      { pose proof (weight_fields_bound (defined fields) n ltac:(lia)) as B.
        rewrite Forall_forall in *. intros kv I. apply IH; auto. }
      pose proof (weight_fields_length (defined fields) F). simpl String.length. lia.
Qed.

(** The reference decoder reads back what [JSON.stringify] writes for a
    value without numbers and without repeated property names. *)
Theorem parse_stringify v :
  plain v = true ->
  ReferenceJSON.JSON_parse (JSON_stringify v) = inr (written v).
Proof.
  intros P. unfold ReferenceJSON.JSON_parse.
  pose proof (size_length (size v) v (Nat.le_refl _) P) as L.
  destruct (reads_what_is_written (S (String.length (JSON_stringify v)))) as [V _].
  rewrite <- (append_empty (JSON_stringify v)) at 2.
  rewrite V by (lia || exact P). reflexivity.
Qed.

(* ================================================================== *)
(** * Properties of the streaming client                               *)
(* ================================================================== *)

Import JS CapitalWebSocket Vocabulary.
Local Open Scope js_scope.

(** Projections and setters compute; nothing else is unfolded. *)
Ltac fields :=
  cbn [ws cst securityToken streamingUrl correlationIdCounter reconnectInterval
       maxReconnectAttempts reconnectAttempts isConnected subscriptions listeners
       timers timerSeq trace
       set_ws set_tokens set_correlationIdCounter set_reconnectAttempts
       set_isConnected set_subscriptions set_listeners set_timers set_trace
       log setTimer expire clearTimer reschedule final returned thrown] in *.

Ltac monad := unfold bind, ret, modify, get, throw, try_catch in *.

(** ** [emit] *)

Lemma emit_event event arg o :
  (event =? "error")%string = false ->
  emit event arg o = Return tt (log (Emit event arg) o).
Proof. intros H. unfold emit. rewrite H. reflexivity. Qed.

Lemma emit_heard arg o :
  listenerCount "error" o <> 0%nat ->
  emit "error" arg o = Return tt (log (Emit "error" arg) o).
Proof.
  intros H. unfold emit. apply Nat.eqb_neq in H. rewrite H. reflexivity.
Qed.

Lemma emit_unheard arg o :
  listenerCount "error" o = 0%nat ->
  emit "error" arg o = Throw (unhandled arg) (log (Emit "error" arg) o).
Proof. intros H. unfold emit. rewrite H. reflexivity. Qed.

Lemma final_emit event arg o : final (emit event arg o) = log (Emit event arg) o.
Proof. unfold emit. destruct (_ && _); reflexivity. Qed.

(** ** The table *)

Lemma Map_get_set key value m : Map_get key (Map_set key value m) = Some value.
Proof.
  induction m as [|[k v] m IH]; simpl.
  - rewrite String.eqb_refl. reflexivity.
  - destruct (k =? key)%string eqn:E; simpl; rewrite E; auto.
Qed.

Lemma Map_get_set_other key key' value m :
  key' <> key -> Map_get key' (Map_set key value m) = Map_get key' m.
Proof.
  intros N. induction m as [|[k v] m IH]; simpl.
  - apply String.eqb_neq in N. rewrite String.eqb_sym in N. rewrite N. reflexivity.
  - destruct (k =? key)%string eqn:E; simpl.
    + apply String.eqb_eq in E. subst k.
      apply String.eqb_neq in N. rewrite String.eqb_sym in N. rewrite N. reflexivity.
    + destruct (k =? key')%string; auto.
Qed.

Lemma Map_get_delete key m : Map_get key (Map_delete key m) = None.
Proof.
  induction m as [|[k v] m IH]; simpl; auto.
  destruct (k =? key)%string eqn:E; simpl; try rewrite E; auto.
Qed.

Lemma Map_get_delete_other key key' m :
  key' <> key -> Map_get key' (Map_delete key m) = Map_get key' m.
Proof.
  intros N. induction m as [|[k v] m IH]; simpl; auto.
  destruct (k =? key)%string eqn:E; simpl.
  - apply String.eqb_eq in E. subst k.
    apply String.eqb_neq in N. rewrite String.eqb_sym in N. rewrite N. exact IH.
  - rewrite IH. reflexivity.
Qed.

Lemma Map_get_In key value m : Map_get key m = Some value -> In value (Map_values m).
Proof.
  induction m as [|[k v] m IH]; simpl; [discriminate|].
  destruct (k =? key)%string; intros H.
  - injection H as ->. now left.
  - right. auto.
Qed.

Lemma Map_delete_keys key m : ~ In key (map fst (Map_delete key m)).
Proof.
  induction m as [|[k v] m IH]; simpl; auto.
  destruct (k =? key)%string eqn:E; simpl; auto.
  intros [H|H]; [|contradiction].
  subst k. rewrite String.eqb_refl in E. discriminate.
Qed.

Lemma Map_delete_absent key m : Map_get key m = None -> Map_delete key m = m.
Proof.
  induction m as [|[k v] m IH]; simpl; auto.
  destruct (k =? key)%string; [discriminate|].
  intros H. rewrite IH; auto.
Qed.

Lemma Map_delete_set key value m :
  Map_get key m = None -> Map_delete key (Map_set key value m) = m.
Proof.
  induction m as [|[k v] m IH]; simpl.
  - rewrite String.eqb_refl. reflexivity.
  - destruct (k =? key)%string eqn:E; [discriminate|].
    intros H. simpl. rewrite E, IH; auto.
Qed.

Lemma Map_delete_after_set key value m :
  Map_delete key (Map_set key value m) = Map_delete key m.
Proof.
  induction m as [|[k v] m IH]; simpl.
  - rewrite String.eqb_refl. reflexivity.
  - destruct (k =? key)%string eqn:E; simpl; rewrite E; [reflexivity|].
    rewrite IH. reflexivity.
Qed.

(** A table built by [set] and [delete] never binds a key twice. *)
Lemma Map_set_keys key value m :
  NoDup (map fst m) -> NoDup (map fst (Map_set key value m)).
Proof.
  induction m as [|[k v] m IH]; simpl; intros H.
  - constructor; [intros []|constructor].
  - destruct (k =? key)%string eqn:E; simpl; auto.
    inversion H as [|? ? Hk Hm]; subst. constructor; auto.
    intros Hin. apply Hk. clear - Hin E.
    induction m as [|[k' v'] m IH]; simpl in *.
    + destruct Hin as [->|[]]. rewrite String.eqb_refl in E. discriminate.
    + destruct (k' =? key)%string; simpl in *; tauto.
Qed.

(** The unsubscribe call that names the type of a subscription computes
    the key the subscription was stored under. *)
Lemma ohlc_keys_agree epics resolutions type :
  unsubscribe_ohlc_key epics resolutions (matching_types type)
  = subscribe_ohlc_key epics resolutions type.
Proof.
  unfold unsubscribe_ohlc_key, subscribe_ohlc_key, matching_types.
  destruct type as [c|]; [|reflexivity]. destruct c; reflexivity.
Qed.

(** ** The log *)

Lemma frames_app a b : frames (a ++ b) = (frames a ++ frames b)%list.
Proof.
  induction a as [|e a IH]; simpl; auto.
  destruct e; simpl; rewrite ?IH; reflexivity.
Qed.

Lemma frames_sent l : frames (map SocketSend l) = l.
Proof. induction l; simpl; congruence. Qed.

Lemma count_app p a b : count p (a ++ b) = (count p a + count p b)%nat.
Proof. unfold count. rewrite filter_app, length_app. reflexivity. Qed.

Lemma count_cons p e es :
  count p (e :: es) = ((if p e then 1 else 0) + count p es)%nat.
Proof. unfold count. simpl. destruct (p e); reflexivity. Qed.

Lemma count_sent p l :
  (forall f, p (SocketSend f) = false) -> count p (map SocketSend l) = 0%nat.
Proof.
  intros H. unfold count. induction l; simpl; auto. rewrite H. exact IHl.
Qed.

Lemma count_log p event arg es :
  p (Emit event arg) = false -> count p (es ++ [Emit event arg]) = count p es.
Proof. intros H. rewrite count_app. unfold count at 2. simpl. rewrite H. apply Nat.add_0_r. Qed.

Lemma count_clear p id es :
  p (ClearTimer id) = false -> count p (es ++ [ClearTimer id]) = count p es.
Proof. intros H. rewrite count_app. unfold count at 2. simpl. rewrite H. apply Nat.add_0_r. Qed.

(** ** [send] and the replay of the table *)

Lemma send_open message o :
  socket_open o = true -> send message o = Return tt (log (SocketSend (frame_of message)) o).
Proof. intros H. unfold send. rewrite H. reflexivity. Qed.

Lemma send_closed message o :
  socket_open o = false -> send message o = Throw NOT_CONNECTED o.
Proof. intros H. unfold send. rewrite H. reflexivity. Qed.

Lemma replay_open m : forall o,
  socket_open o = true ->
  forEach (fun entry => send (snd entry)) m o
  = Return tt (set_trace (trace o ++ map SocketSend (replay m)) o).
Proof.
  induction m as [|[k v] m IH]; intros o H.
  - simpl. unfold ret, replay. simpl. rewrite app_nil_r. destruct o; reflexivity.
  - simpl. unfold bind. rewrite send_open by assumption.
    rewrite IH by exact H. fields. simpl.
    rewrite <- app_assoc. reflexivity.
Qed.

Lemma replay_subscriptions (m : Map) : forall o,
  subscriptions (final (forEach (fun entry => send (snd entry)) m o)) = subscriptions o.
Proof.
  induction m as [|[k v] m IH]; intros o; simpl; auto.
  unfold bind, send. destruct (socket_open o); fields; auto.
  rewrite IH. reflexivity.
Qed.

Lemma onOpen_open o :
  socket_open o = true ->
  onOpen o =
  Return tt (set_trace (trace o ++ Emit "connect" NoArg :: map SocketSend (replay (subscriptions o)))
               (set_reconnectAttempts 0 (set_isConnected true o))).
Proof.
  intros H. unfold onOpen. monad. rewrite emit_event by reflexivity.
  fields. rewrite replay_open by exact H. fields.
  rewrite <- app_assoc. reflexivity.
Qed.

Lemma onOpen_counter o : reconnectAttempts (final (onOpen o)) = 0.
Proof.
  unfold onOpen. monad. rewrite emit_event by reflexivity. fields.
  set (o1 := log _ _).
  assert (G : forall (m : Map) o', reconnectAttempts o' = 0 ->
            reconnectAttempts (final (forEach (fun entry => send (snd entry)) m o')) = 0).
  { induction m as [|[k v] m IH]; intros o' E; simpl; auto.
    unfold bind, send. destruct (socket_open o'); fields; auto. }
  apply G. reflexivity.
Qed.

Lemma onOpen_subscriptions o : subscriptions (final (onOpen o)) = subscriptions o.
Proof.
  unfold onOpen. monad. rewrite emit_event by reflexivity. fields.
  rewrite replay_subscriptions. reflexivity.
Qed.

(** ** The methods, one step at a time *)

Lemma createMessage_eq destination payload o :
  createMessage destination payload o
  = Return (created destination payload o)
           (set_correlationIdCounter (incr (correlationIdCounter o)) o).
Proof. reflexivity. Qed.

Lemma subscribeToMarketData_eq epics o :
  subscribeToMarketData epics o =
  let message := created "marketData.subscribe" (marketData_payload epics) o in
  send message
    (set_subscriptions (Map_set (marketData_key epics) message (subscriptions o))
       (set_correlationIdCounter (incr (correlationIdCounter o)) o)).
Proof. reflexivity. Qed.

Lemma unsubscribeFromMarketData_eq epics o :
  unsubscribeFromMarketData epics o =
  let message := created "marketData.unsubscribe" (marketData_payload epics) o in
  send message
    (set_subscriptions (Map_delete (marketData_key epics) (subscriptions o))
       (set_correlationIdCounter (incr (correlationIdCounter o)) o)).
Proof. reflexivity. Qed.

Lemma subscribeToOHLCData_eq epics resolutions type o :
  subscribeToOHLCData epics resolutions type o =
  let message := created "OHLCMarketData.subscribe" (ohlc_payload epics resolutions type) o in
  send message
    (set_subscriptions
       (Map_set (subscribe_ohlc_key epics resolutions type) message (subscriptions o))
       (set_correlationIdCounter (incr (correlationIdCounter o)) o)).
Proof. reflexivity. Qed.

Lemma subscribeToMarketData_subscriptions epics o :
  subscriptions (final (subscribeToMarketData epics o))
  = Map_set (marketData_key epics)
      (created "marketData.subscribe" (marketData_payload epics) o) (subscriptions o).
Proof.
  rewrite subscribeToMarketData_eq. cbv zeta. unfold send.
  match goal with |- context [socket_open ?x] => destruct (socket_open x) end; reflexivity.
Qed.

Lemma unsubscribeFromMarketData_subscriptions epics o :
  subscriptions (final (unsubscribeFromMarketData epics o))
  = Map_delete (marketData_key epics) (subscriptions o).
Proof.
  rewrite unsubscribeFromMarketData_eq. cbv zeta. unfold send.
  match goal with |- context [socket_open ?x] => destruct (socket_open x) end; reflexivity.
Qed.

Lemma subscribeToOHLCData_subscriptions epics resolutions type o :
  subscriptions (final (subscribeToOHLCData epics resolutions type o))
  = Map_set (subscribe_ohlc_key epics resolutions type)
      (created "OHLCMarketData.subscribe" (ohlc_payload epics resolutions type) o)
      (subscriptions o).
Proof.
  rewrite subscribeToOHLCData_eq. cbv zeta. unfold send.
  match goal with |- context [socket_open ?x] => destruct (socket_open x) end; reflexivity.
Qed.

Lemma unsubscribeFromOHLCData_subscriptions epics resolutions types o :
  subscriptions (final (unsubscribeFromOHLCData epics resolutions types o))
  = Map_delete (unsubscribe_ohlc_key epics resolutions types) (subscriptions o).
Proof.
  unfold unsubscribeFromOHLCData, createMessage, getNextCorrelationId. monad. fields.
  unfold send. fields.
  match goal with |- context [socket_open ?x] => destruct (socket_open x) end; reflexivity.
Qed.

Lemma unsubscribeFromOHLCData_closed epics resolutions types o :
  socket_open o = false ->
  thrown (unsubscribeFromOHLCData epics resolutions types o) = Some NOT_CONNECTED.
Proof.
  intros H. unfold unsubscribeFromOHLCData, createMessage, getNextCorrelationId. monad. fields.
  rewrite send_closed by exact H. reflexivity.
Qed.

Lemma ping_subscriptions o : subscriptions (final (ping o)) = subscriptions o.
Proof.
  unfold ping, createMessage, getNextCorrelationId. monad. fields.
  unfold send. fields.
  match goal with |- context [socket_open ?x] => destruct (socket_open x) end; reflexivity.
Qed.

Lemma connect_connecting o :
  connect CONNECTING o =
  Return tt
    (setTimer (Backup (timerSeq o)) 10000
       (setTimer (Poll 0) 500
          (set_ws (Some (mkWebSocket (streamingUrl o) CONNECTING))
             (log (NewSocket (streamingUrl o)
                     [ ("CST", cst o); ("X-SECURITY-TOKEN", securityToken o);
                       ("User-Agent", "Capital API Client") ]) o)))).
Proof. reflexivity. Qed.

Lemma connect_subscriptions state o :
  subscriptions (final (connect state o)) = subscriptions o.
Proof. unfold connect. monad. fields. destruct (state =? 1); reflexivity. Qed.

(** ** Events of the socket and timers *)

Lemma socket_opens parse o :
  ws o <> None ->
  step parse Socket_open o =
  let o1 := set_readyState OPEN o in
  Return tt
    (set_trace (trace o ++ Emit "connect" NoArg :: map SocketSend (replay (subscriptions o)))
       (set_reconnectAttempts 0 (set_isConnected true o1))).
Proof.
  intros H. cbn [step]. monad. cbv zeta.
  assert (E : socket_open (set_readyState OPEN o) = true).
  { unfold set_readyState, socket_open. fields. destruct (ws o); [reflexivity|congruence]. }
  rewrite onOpen_open by exact E. reflexivity.
Qed.

Lemma connects_replay parse o :
  let o' := run parse connects o in
  frames (trace o') = (frames (trace o) ++ replay (subscriptions o))%list
  /\ subscriptions o' = subscriptions o
  /\ socket_open o' = true.
Proof.
  cbv zeta. unfold connects. cbn [run].
  change (step parse (Call_connect CONNECTING) o) with (connect CONNECTING o).
  rewrite connect_connecting. fields.
  rewrite socket_opens by (fields; discriminate). fields.
  repeat split.
  rewrite !frames_app. simpl. rewrite frames_sent, !app_nil_r. reflexivity.
Qed.

Lemma onMessage_final parse data o :
  exists event arg, final (onMessage parse data o) = log (Emit event arg) o.
Proof.
  unfold onMessage, try_catch.
  destruct (parse data) as [e|message].
  - unfold throw. eexists. eexists. apply final_emit.
  - unfold dispatch. destruct (property message "destination") as [e|dest].
    + unfold throw. eexists. eexists. apply final_emit.
    + repeat match goal with
             | |- context [if ?b then _ else _] => destruct b
             end;
        rewrite emit_event by reflexivity; eexists; eexists; reflexivity.
Qed.

Lemma onClose_subscriptions o : subscriptions (final (onClose o)) = subscriptions o.
Proof.
  unfold onClose. monad. rewrite emit_event by reflexivity. fields.
  destruct (reconnectAttempts o <? maxReconnectAttempts o); fields; auto.
  rewrite final_emit. reflexivity.
Qed.

Lemma incr_small n : 0 <= n < MAX_EXACT -> incr n = n + 1.
Proof. intros H. unfold incr. destruct (Z.ltb_spec n MAX_EXACT); lia. Qed.

Lemma socket_closes_retry parse o :
  reconnectAttempts o < maxReconnectAttempts o ->
  step parse Socket_close o =
  Return tt
    (setTimer Reconnect (reconnectInterval o)
       (set_reconnectAttempts (incr (reconnectAttempts o))
          (log (Emit "disconnect" NoArg)
             (set_isConnected false (set_readyState CLOSED o))))).
Proof.
  intros H. cbn [step]. unfold onClose. monad. rewrite emit_event by reflexivity.
  unfold set_readyState. fields. apply Z.ltb_lt in H. rewrite H. reflexivity.
Qed.

Lemma socket_closes_spent parse o :
  maxReconnectAttempts o <= reconnectAttempts o ->
  final (step parse Socket_close o) =
  log (Emit "error" (Failure MAX_ATTEMPTS_REACHED))
    (log (Emit "disconnect" NoArg) (set_isConnected false (set_readyState CLOSED o))).
Proof.
  intros H. cbn [step]. unfold onClose. monad. rewrite emit_event by reflexivity.
  unfold set_readyState. fields. apply Z.ltb_ge in H. rewrite H. apply final_emit.
Qed.

Lemma pending_fresh id callback ts :
  Forall (fun p => (fst p < id)%nat) ts ->
  pending id (ts ++ [(id, callback)]) = Some callback.
Proof.
  induction 1 as [|[i c] ts Hi _ IH]; simpl.
  - rewrite Nat.eqb_refl. reflexivity.
  - simpl in Hi. replace (Nat.eqb i id) with false; [exact IH|].
    symmetry. apply Nat.eqb_neq. lia.
Qed.

Lemma without_fresh id callback ts :
  Forall (fun p => (fst p < id)%nat) ts ->
  without id (ts ++ [(id, callback)]) = ts.
Proof.
  unfold without. induction 1 as [|[i c] ts Hi _ IH]; simpl.
  - rewrite Nat.eqb_refl. reflexivity.
  - simpl in Hi. replace (Nat.eqb i id) with false; [simpl; rewrite IH; reflexivity|].
    symmetry. apply Nat.eqb_neq. lia.
Qed.

Lemma reconnect_fires parse o id interval :
  timers_fresh o -> id = timerSeq o ->
  step parse (Timer_fires id CONNECTING) (setTimer Reconnect interval o) =
  connect CONNECTING
    (set_timers (timers o) (S id) (log (SetTimer id Reconnect interval) o)).
Proof.
  intros F ->. cbn [step]. unfold fire. monad. fields.
  rewrite pending_fresh by exact F. unfold expire. fields.
  rewrite without_fresh by exact F. reflexivity.
Qed.

Lemma fire_subscriptions id state o :
  subscriptions (final (fire id state o)) = subscriptions o.
Proof.
  unfold fire. monad.
  destruct (pending id (timers o)) as [[| |pollCount|pollInterval|]|]; fields; auto.
  - rewrite connect_subscriptions. reflexivity.
  - rewrite onOpen_subscriptions. reflexivity.
  - destruct (socket_open o); fields.
    + rewrite onOpen_subscriptions. reflexivity.
    + destruct (incr pollCount >=? 20); reflexivity.
  - destruct (socket_open o); fields; auto. rewrite onOpen_subscriptions. reflexivity.
  - destruct (isConnectedToServer o); fields; auto. apply ping_subscriptions.
Qed.

(** ** What changes the table *)

(** Events of the socket, timers and the other calls leave the table,
    and with it every stored message, as it is. *)
Lemma table_is_written_by_calls_only parse a o :
  writes_table a = false ->
  subscriptions (final (step parse a o)) = subscriptions o.
Proof.
  intros W. destruct a; try discriminate W; cbn [step].
  - reflexivity.
  - apply connect_subscriptions.
  - apply ping_subscriptions.
  - reflexivity.
  - reflexivity.
  - change (subscriptions (final (onOpen (set_readyState OPEN o))) = subscriptions o).
    rewrite onOpen_subscriptions. reflexivity.
  - destruct (onMessage_final parse data o) as [event [arg ->]]. reflexivity.
  - unfold onError. rewrite final_emit. reflexivity.
  - change (subscriptions (final (onClose (set_readyState CLOSED o))) = subscriptions o).
    rewrite onClose_subscriptions. reflexivity.
  - reflexivity.
  - apply fire_subscriptions.
Qed.

Lemma table_outlives_events parse actions : forall o,
  forallb (fun a => negb (writes_table a)) actions = true ->
  subscriptions (run parse actions o) = subscriptions o.
Proof.
  induction actions as [|a actions IH]; intros o H; simpl; auto.
  simpl in H. apply andb_true_iff in H as [Ha Hs]. apply negb_true_iff in Ha.
  rewrite IH by exact Hs. apply table_is_written_by_calls_only. exact Ha.
Qed.

(** ** Once the budget is spent *)

Lemma pending_quiet id ts callback :
  forallb (fun p => quiet (snd p)) ts = true ->
  pending id ts = Some callback -> quiet callback = true.
Proof.
  induction ts as [|[i c] ts IH]; simpl; [discriminate|].
  intros Q. apply andb_true_iff in Q as [Qc Qs].
  destruct (Nat.eqb i id); intros H.
  - injection H as <-. exact Qc.
  - auto.
Qed.

Lemma without_quiet id ts :
  forallb (fun p => quiet (snd p)) ts = true ->
  forallb (fun p => quiet (snd p)) (without id ts) = true.
Proof.
  unfold without. induction ts as [|[i c] ts IH]; simpl; auto.
  intros Q. apply andb_true_iff in Q as [Qc Qs].
  destruct (Nat.eqb i id); simpl; auto. rewrite Qc. auto.
Qed.

Lemma reschedule_quiet id callback ts :
  quiet callback = true ->
  forallb (fun p => quiet (snd p)) ts = true ->
  forallb (fun p => quiet (snd p))
          (map (fun p => if Nat.eqb (fst p) id then (id, callback) else p) ts) = true.
Proof.
  intros C. induction ts as [|[i c] ts IH]; simpl; auto.
  intros Q. apply andb_true_iff in Q as [Qc Qs].
  destruct (Nat.eqb i id); simpl; rewrite ?C, ?Qc; auto.
Qed.

(** Once the budget is spent, nothing but the opening of the socket or
    a call of [connect()] makes the object set a reconnection timer or
    construct a socket. *)
Lemma closed_call message (f : t -> t) o :
  socket_open o = false ->
  (forall x, ws (f x) = ws x) ->
  final (send message (f o)) = f o.
Proof.
  intros N W. rewrite send_closed; [reflexivity|].
  unfold socket_open in *. rewrite W. exact N.
Qed.

Lemma spent_step parse a o :
  keeps_down a = true -> spent o = true ->
  let o' := final (step parse a o) in
  spent o' = true
  /\ count is_reconnect (trace o') = count is_reconnect (trace o)
  /\ count is_new_socket (trace o') = count is_new_socket (trace o).
Proof.
  intros P S. cbv zeta.
  unfold spent in S. apply andb_true_iff in S as [S Q]. apply andb_true_iff in S as [B N].
  apply negb_true_iff in N.
  assert (K : forall (f : t -> t),
            (forall x, ws (f x) = ws x) ->
            (forall x, reconnectAttempts (f x) = reconnectAttempts x) ->
            (forall x, maxReconnectAttempts (f x) = maxReconnectAttempts x) ->
            (forall x, timers (f x) = timers x) ->
            (forall x, trace (f x) = trace x) ->
            spent (f o) = true
            /\ count is_reconnect (trace (f o)) = count is_reconnect (trace o)
            /\ count is_new_socket (trace (f o)) = count is_new_socket (trace o)).
  { intros f W A M T L. unfold spent, socket_open. rewrite W, A, M, T, L.
    fold (socket_open o). rewrite B, N, Q. auto. }
  destruct a; try discriminate P; cbn [step].
  - (* on *)
    apply (K (fun x => set_listeners (listeners x ++ [event]) x)); reflexivity.
  - (* disconnect *)
    unfold disconnect. monad. destruct (ws o) eqn:W; fields;
      unfold spent, socket_open; fields; rewrite ?W, B, Q;
      rewrite ?count_app, ?count_cons; cbn; auto.
  - (* subscribeToMarketData *)
    rewrite subscribeToMarketData_eq. cbv zeta.
    rewrite (closed_call _ (fun x => set_subscriptions
               (Map_set (marketData_key epics)
                  (created "marketData.subscribe" (marketData_payload epics) o)
                  (subscriptions x))
               (set_correlationIdCounter (incr (correlationIdCounter x)) x)) o N)
      by reflexivity.
    apply (K (fun x => set_subscriptions _ (set_correlationIdCounter _ x))); reflexivity.
  - (* unsubscribeFromMarketData *)
    rewrite unsubscribeFromMarketData_eq. cbv zeta.
    rewrite (closed_call _ (fun x => set_subscriptions
               (Map_delete (marketData_key epics) (subscriptions x))
               (set_correlationIdCounter (incr (correlationIdCounter x)) x)) o N)
      by reflexivity.
    apply (K (fun x => set_subscriptions _ (set_correlationIdCounter _ x))); reflexivity.
  - (* subscribeToOHLCData *)
    rewrite subscribeToOHLCData_eq. cbv zeta.
    rewrite (closed_call _ (fun x => set_subscriptions
               (Map_set (subscribe_ohlc_key epics resolutions type)
                  (created "OHLCMarketData.subscribe" (ohlc_payload epics resolutions type) o)
                  (subscriptions x))
               (set_correlationIdCounter (incr (correlationIdCounter x)) x)) o N)
      by reflexivity.
    apply (K (fun x => set_subscriptions _ (set_correlationIdCounter _ x))); reflexivity.
  - (* unsubscribeFromOHLCData *)
    unfold unsubscribeFromOHLCData, createMessage, getNextCorrelationId. monad. fields.
    rewrite (closed_call _ (fun x => set_subscriptions
               (Map_delete (unsubscribe_ohlc_key epics resolutions types) (subscriptions x))
               (set_correlationIdCounter (incr (correlationIdCounter x)) x)) o N)
      by reflexivity.
    apply (K (fun x => set_subscriptions _ (set_correlationIdCounter _ x))); reflexivity.
  - (* ping *)
    unfold ping, createMessage, getNextCorrelationId. monad. fields.
    rewrite (closed_call _ (fun x => set_correlationIdCounter (incr (correlationIdCounter x)) x)
               o N) by reflexivity.
    apply (K (fun x => set_correlationIdCounter _ x)); reflexivity.
  - (* startAutoPing *)
    unfold startAutoPing, modify. fields.
    unfold spent, socket_open. fields. fold (socket_open o).
    rewrite B, N, forallb_app, Q, !count_app. cbn. rewrite !Nat.add_0_r. auto.
  - (* updateTokens *)
    apply (K (fun x => set_tokens cst' securityToken' x)); reflexivity.
  - (* message *)
    destruct (onMessage_final parse data o) as [event [arg ->]].
    unfold spent, socket_open. fields. fold (socket_open o).
    rewrite B, N, Q, !count_log by reflexivity. auto.
  - (* error *)
    unfold onError. rewrite final_emit.
    unfold spent, socket_open. fields. fold (socket_open o).
    rewrite B, N, Q, !count_log by reflexivity. auto.
  - (* close *)
    unfold onClose. monad. rewrite emit_event by reflexivity.
    unfold set_readyState. fields.
    apply Z.leb_le in B. apply Z.ltb_ge in B. rewrite B. rewrite final_emit.
    unfold spent, socket_open. fields. apply Z.ltb_ge, Z.leb_le in B. rewrite B, Q.
    rewrite !count_log by reflexivity.
    destruct (ws o); auto.
  - (* unexpected response *)
    unfold ret. fields. unfold spent. rewrite B, N, Q. auto.
  - (* timer *)
    unfold fire. monad.
    destruct (pending id (timers o)) as [callback|] eqn:E.
    + pose proof (pending_quiet _ _ _ Q E) as QC.
      destruct callback; try discriminate QC.
      * rewrite N. destruct (incr pollCount >=? 20); fields.
        -- unfold spent, socket_open. fields. fold (socket_open o).
           rewrite B, N, without_quiet, !count_clear by auto. auto.
        -- unfold spent, socket_open. fields. fold (socket_open o).
           rewrite B, N, reschedule_quiet by auto. auto.
      * rewrite N. fields.
        unfold spent, socket_open. fields. fold (socket_open o).
        rewrite B, N, (without_quiet _ _ (without_quiet _ _ Q)), !count_clear by auto. auto.
      * unfold isConnectedToServer. rewrite N, andb_false_r. fields.
        unfold spent. rewrite B, N, Q. auto.
    + fields. unfold spent. rewrite B, N, Q. auto.
Qed.

Lemma spent_run parse events : forall o,
  forallb keeps_down events = true -> spent o = true ->
  count is_reconnect (trace (run parse events o)) = count is_reconnect (trace o)
  /\ count is_new_socket (trace (run parse events o)) = count is_new_socket (trace o).
Proof.
  induction events as [|a events IH]; intros o P S; simpl; auto.
  simpl in P. apply andb_true_iff in P as [Pa Ps].
  destruct (spent_step parse a o Pa S) as [S' [R N]].
  destruct (IH _ Ps S') as [R' N']. rewrite R', N'. auto.
Qed.

(** ** Episodes: the connection drops and comes back *)

(** An episode on an object with its budget untouched: one
    reconnection, one new socket, no error, and the budget untouched
    again. *)
Lemma episode_ready parse o :
  ready o ->
  let o' := episode parse o in
  ready o'
  /\ maxReconnectAttempts o' = maxReconnectAttempts o
  /\ count is_reconnect (trace o') = S (count is_reconnect (trace o))
  /\ count is_new_socket (trace o') = S (count is_new_socket (trace o))
  /\ count (emitted "error") (trace o') = count (emitted "error") (trace o)
  /\ subscriptions o' = subscriptions o
  /\ socket_open o' = true.
Proof.
  intros [A [B F]]. cbv zeta. unfold episode. cbn [run].
  rewrite socket_closes_retry by lia. cbn [final].
  rewrite reconnect_fires by (exact F || reflexivity).
  rewrite connect_connecting. fields.
  rewrite socket_opens by (fields; discriminate). fields.
  unfold ready, timers_fresh, socket_open, set_readyState. fields.
  repeat split; try lia.
  - rewrite <- app_assoc. apply Forall_app. split.
    + eapply Forall_impl; [|exact F]. simpl. intros. lia.
    + repeat constructor; simpl; lia.
  - rewrite !count_app, !count_cons, count_sent by reflexivity. cbn. lia.
  - rewrite !count_app, !count_cons, count_sent by reflexivity. cbn. lia.
  - rewrite !count_app, !count_cons, count_sent by reflexivity. cbn. lia.
Qed.

Lemma episodes_ready parse n : forall o,
  ready o ->
  let o' := Nat.iter n (episode parse) o in
  ready o'
  /\ maxReconnectAttempts o' = maxReconnectAttempts o
  /\ count is_reconnect (trace o') = (n + count is_reconnect (trace o))%nat
  /\ count is_new_socket (trace o') = (n + count is_new_socket (trace o))%nat
  /\ count (emitted "error") (trace o') = count (emitted "error") (trace o).
Proof.
  induction n as [|n IH]; intros o R; cbv zeta.
  - simpl. auto.
  - simpl. destruct (IH o R) as [R' [M [C [N E]]]].
    destruct (episode_ready parse _ R') as [R'' [M' [C' [N' [E' _]]]]].
    rewrite M', C', N', E', M, C, N, E. auto.
Qed.

Lemma failure_retry parse o :
  timers_fresh o ->
  0 <= reconnectAttempts o < maxReconnectAttempts o ->
  maxReconnectAttempts o <= MAX_EXACT ->
  let o' := failure parse o in
  timers_fresh o'
  /\ reconnectAttempts o' = reconnectAttempts o + 1
  /\ maxReconnectAttempts o' = maxReconnectAttempts o
  /\ count is_reconnect (trace o') = S (count is_reconnect (trace o))
  /\ count is_new_socket (trace o') = S (count is_new_socket (trace o))
  /\ count (emitted "error") (trace o') = count (emitted "error") (trace o).
Proof.
  intros F A M. cbv zeta. unfold failure. cbn [run].
  rewrite socket_closes_retry by lia. cbn [final].
  rewrite reconnect_fires by (exact F || reflexivity).
  rewrite connect_connecting. fields.
  unfold timers_fresh, set_readyState. fields.
  split; [|split; [|split; [|split; [|split]]]].
  - rewrite <- app_assoc. apply Forall_app. split.
    + eapply Forall_impl; [|exact F]. simpl. intros. lia.
    + repeat constructor; simpl; lia.
  - apply incr_small. destruct A as [A1 A2]. split; [exact A1|].
    eapply Z.lt_le_trans; [exact A2|exact M].
  - reflexivity.
  - rewrite !count_app. cbn. lia.
  - rewrite !count_app. cbn. lia.
  - rewrite !count_app. cbn. lia.
Qed.

Lemma failures_retry parse k : forall o,
  timers_fresh o ->
  0 <= reconnectAttempts o ->
  reconnectAttempts o + Z.of_nat k <= maxReconnectAttempts o ->
  maxReconnectAttempts o <= MAX_EXACT ->
  let o' := Nat.iter k (failure parse) o in
  timers_fresh o'
  /\ reconnectAttempts o' = reconnectAttempts o + Z.of_nat k
  /\ maxReconnectAttempts o' = maxReconnectAttempts o
  /\ count is_reconnect (trace o') = (k + count is_reconnect (trace o))%nat
  /\ count is_new_socket (trace o') = (k + count is_new_socket (trace o))%nat
  /\ count (emitted "error") (trace o') = count (emitted "error") (trace o).
Proof.
  induction k as [|k IH]; intros o F A B M; cbv zeta.
  - simpl. rewrite Z.add_0_r. repeat split; auto.
  - simpl Nat.iter.
    destruct (IH o F A ltac:(lia) M) as [F' [A' [M' [R [N E]]]]].
    destruct (failure_retry parse (Nat.iter k (failure parse) o) F' ltac:(lia) ltac:(lia))
      as [F'' [A'' [M'' [R' [N' E']]]]].
    rewrite A'', M'', R', N', E', A', M', R, N, E.
    repeat split; try assumption; try lia.
Qed.


(** ** The frames of the client *)

Lemma plain_strings (xs : list string) : forallb plain (map JString xs) = true.
Proof. induction xs; simpl; auto. Qed.

Lemma plain_marketData_payload epics : plain (marketData_payload epics) = true.
Proof.
  unfold marketData_payload, epics_value. cbn [plain existsb negb andb].
  rewrite plain_strings. reflexivity.
Qed.

Lemma plain_resolutions resolutions : plain (resolutions_value resolutions) = true.
Proof.
  destruct resolutions as [rs|]; [|reflexivity].
  unfold resolutions_value. cbn [plain]. induction rs; simpl; auto.
Qed.

Lemma plain_ohlc_payload epics resolutions type :
  plain (ohlc_payload epics resolutions type) = true.
Proof.
  pose proof (plain_resolutions resolutions) as R.
  pose proof (plain_strings epics) as E.
  unfold ohlc_payload, epics_value.
  destruct type as [c|]; destruct resolutions as [rs|];
    cbn [plain resolutions_value existsb negb andb orb String.eqb Ascii.eqb Bool.eqb] in *;
    rewrite E, ?R; reflexivity.
Qed.

Lemma plain_ohlc_unsubscribe_payload epics resolutions types :
  plain (ohlc_unsubscribe_payload epics resolutions types) = true.
Proof.
  pose proof (plain_resolutions resolutions) as R.
  pose proof (plain_strings epics) as E.
  assert (T : forall ts, forallb plain (map (fun c => JString (CandleType_text c)) ts) = true).
  { induction ts; simpl; auto. }
  unfold ohlc_unsubscribe_payload, epics_value.
  destruct types as [ts|]; destruct resolutions as [rs|];
    cbn [plain resolutions_value existsb negb andb orb String.eqb Ascii.eqb Bool.eqb] in *;
    rewrite E, ?R, ?T; reflexivity.
Qed.

Lemma plain_message m : plain (Msg.payload m) = true -> plain (message_value m) = true.
Proof.
  intros P. unfold message_value.
  destruct (Msg.payload m);
    cbn [plain existsb negb andb orb String.eqb Ascii.eqb Bool.eqb] in *;
    try rewrite P; reflexivity.
Qed.

(** The frame of a message decodes to the message: the envelope with
    its destination, correlation id and tokens, and the payload when
    there is one. *)
Theorem frame_decodes m :
  plain (Msg.payload m) = true ->
  ReferenceJSON.JSON_parse (frame_of m) = inr (written (message_value m)).
Proof. intros P. apply parse_stringify, plain_message, P. Qed.

(** ** What holds of every object a client can become *)

Lemma Map_delete_keys_kept key m :
  NoDup (map fst m) -> NoDup (map fst (Map_delete key m)).
Proof.
  induction m as [|[k v] m IH]; simpl; intros H; [constructor|].
  inversion H as [|? ? Hk Hm]; subst.
  destruct (k =? key)%string; simpl; auto.
  constructor; auto. intros I. apply Hk. clear - I.
  induction m as [|[k' v'] m IH]; simpl in *; [contradiction|].
  destruct (k' =? key)%string; simpl in *; tauto.
Qed.

Lemma Map_set_all (P : Msg.t -> Prop) key value m :
  P value -> Forall (fun entry => P (snd entry)) m ->
  Forall (fun entry => P (snd entry)) (Map_set key value m).
Proof.
  intros Pv. induction 1 as [|[k v] m H Hm IH]; simpl.
  - repeat constructor. exact Pv.
  - destruct (k =? key)%string.
    + constructor; [exact Pv|exact Hm].
    + constructor; [exact H|exact IH].
Qed.

Lemma Map_delete_all (P : Msg.t -> Prop) key m :
  Forall (fun entry => P (snd entry)) m ->
  Forall (fun entry => P (snd entry)) (Map_delete key m).
Proof.
  induction 1 as [|[k v] m H _ IH]; simpl; [constructor|].
  destruct (k =? key)%string; auto.
Qed.

Lemma fresh_without id seq ts :
  Forall (fun p => (fst p < seq)%nat) ts ->
  Forall (fun p => (fst p < seq)%nat) (without id ts).
Proof.
  unfold without. induction 1 as [|p ts H _ IH]; simpl; [constructor|].
  destruct (negb (Nat.eqb (fst p) id)); auto.
Qed.

Lemma fresh_reschedule id callback seq ts :
  pending id ts <> None ->
  Forall (fun p => (fst p < seq)%nat) ts ->
  Forall (fun p : nat * Timer => (fst p < seq)%nat)
         (map (fun p => if Nat.eqb (fst p) id then (id, callback) else p) ts).
Proof.
  intros _. induction 1 as [|[i c] ts H _ IH]; simpl; [constructor|].
  destruct (Nat.eqb_spec i id) as [->|]; constructor; auto.
Qed.

Lemma fresh_next seq ts callback :
  Forall (fun p => (fst p < seq)%nat) ts ->
  Forall (fun p : nat * Timer => (fst p < S seq)%nat) (ts ++ [(seq, callback)]).
Proof.
  intros F. apply Forall_app. split.
  - eapply Forall_impl; [|exact F]. simpl. intros. lia.
  - constructor; [simpl; lia|constructor].
Qed.

(** The replay changes nothing but the log. *)
Lemma replay_logs (m : Map) : forall o,
  exists tr, final (forEach (fun entry => send (snd entry)) m o) = set_trace tr o.
Proof.
  induction m as [|[k v] m IH]; intros o; cbn [forEach].
  - exists (trace o). reflexivity.
  - unfold bind. cbn [snd]. destruct (socket_open o) eqn:O.
    + rewrite send_open by exact O.
      destruct (IH (log (SocketSend (frame_of v)) o)) as [tr E].
      exists tr. rewrite E. reflexivity.
    + rewrite send_closed by exact O. exists (trace o). reflexivity.
Qed.

Lemma onOpen_logs o :
  exists tr, final (onOpen o)
             = set_trace tr (set_reconnectAttempts 0 (set_isConnected true o)).
Proof.
  unfold onOpen. monad. rewrite emit_event by reflexivity. cbv beta iota.
  destruct (replay_logs
              (subscriptions (log (Emit "connect" NoArg)
                                (set_reconnectAttempts 0 (set_isConnected true o))))
              (log (Emit "connect" NoArg)
                 (set_reconnectAttempts 0 (set_isConnected true o)))) as [tr E].
  exists tr. rewrite E. reflexivity.
Qed.

Lemma send_logs message o : exists tr, final (send message o) = set_trace tr o.
Proof.
  unfold send. destruct (socket_open o); fields; eexists; reflexivity.
Qed.

Lemma sound_opened o : sound o -> sound (final (onOpen o)).
Proof.
  intros [F [A [M [N P]]]]. destruct (onOpen_logs o) as [tr ->].
  unfold sound, timers_fresh in *. fields. rewrite M in *.
  repeat split; auto; lia.
Qed.

Lemma sound_connect state o : sound o -> sound (final (connect state o)).
Proof.
  intros [F [A [M [N P]]]]. unfold connect. monad. fields.
  unfold sound, timers_fresh in *.
  destruct (state =? 1); fields; (split; [|auto]).
  - apply fresh_next. exact F.
  - rewrite <- app_assoc. apply Forall_app. split.
    + eapply Forall_impl; [|exact F]. simpl. intros. lia.
    + repeat constructor; simpl; lia.
Qed.

Lemma sound_ping o : sound o -> sound (final (ping o)).
Proof.
  intros H. unfold ping, createMessage, getNextCorrelationId. monad. fields.
  match goal with |- context [send ?m ?x] => destruct (send_logs m x) as [tr ->] end.
  exact H.
Qed.

Lemma sound_closed o : sound o -> sound (final (onClose o)).
Proof.
  intros [F [A [M [N P]]]]. unfold onClose. monad. rewrite emit_event by reflexivity.
  fields. destruct (Z.ltb_spec (reconnectAttempts o) (maxReconnectAttempts o)) as [L|L].
  - fields. unfold sound, timers_fresh in *. fields.
    rewrite incr_small by (unfold MAX_EXACT; rewrite M in L; simpl; lia).
    repeat split; auto; try lia. apply fresh_next. exact F.
  - rewrite final_emit. unfold sound, timers_fresh in *. fields. auto.
Qed.

Lemma sound_fire id state o : sound o -> sound (final (fire id state o)).
Proof.
  intros H. unfold fire. monad.
  destruct (pending id (timers o)) as [[| |pollCount|pollInterval|]|] eqn:E; fields.
  - apply sound_connect. destruct H as [F R]. split; [|exact R].
    unfold timers_fresh in *. fields. apply fresh_without. exact F.
  - apply sound_opened. destruct H as [F R]. split; [|exact R].
    unfold timers_fresh in *. fields. apply fresh_without. exact F.
  - assert (C : sound (clearTimer id o)).
    { destruct H as [F R]. split; [|exact R].
      unfold timers_fresh in *. fields. apply fresh_without. exact F. }
    destruct (socket_open o); fields.
    + apply sound_opened. exact C.
    + destruct (incr pollCount >=? 20); fields; [exact C|].
      destruct H as [F R]. split; [|exact R].
      unfold timers_fresh in *. fields. apply fresh_reschedule; [congruence|exact F].
  - assert (C : sound (clearTimer pollInterval (expire id o))).
    { destruct H as [F R]. split; [|exact R].
      unfold timers_fresh in *. fields. apply fresh_without, fresh_without. exact F. }
    destruct (socket_open o); fields; [apply sound_opened|]; exact C.
  - destruct (isConnectedToServer o); fields; [apply sound_ping|]; exact H.
  - exact H.
Qed.

Lemma sound_step parse a o : sound o -> sound (final (step parse a o)).
Proof.
  intros H. destruct a; cbn [step].
  - exact H.
  - apply sound_connect. exact H.
  - destruct H as [F [A [M _]]]. unfold disconnect. monad.
    destruct (ws o); fields; unfold sound, timers_fresh; fields;
      repeat split; auto; try lia; constructor.
  - rewrite subscribeToMarketData_eq. cbv zeta.
    match goal with |- context [send ?m ?x] => destruct (send_logs m x) as [tr ->] end.
    destruct H as [F [A [M [N P]]]]. unfold sound, timers_fresh in *. fields.
    repeat split; auto; try lia.
    + apply Map_set_keys. exact N.
    + apply (Map_set_all (fun m => plain (Msg.payload m) = true)); [apply plain_marketData_payload|exact P].
  - rewrite unsubscribeFromMarketData_eq. cbv zeta.
    match goal with |- context [send ?m ?x] => destruct (send_logs m x) as [tr ->] end.
    destruct H as [F [A [M [N P]]]]. unfold sound, timers_fresh in *. fields.
    repeat split; auto; try lia.
    + apply Map_delete_keys_kept. exact N.
    + apply (Map_delete_all (fun m => plain (Msg.payload m) = true)). exact P.
  - rewrite subscribeToOHLCData_eq. cbv zeta.
    match goal with |- context [send ?m ?x] => destruct (send_logs m x) as [tr ->] end.
    destruct H as [F [A [M [N P]]]]. unfold sound, timers_fresh in *. fields.
    repeat split; auto; try lia.
    + apply Map_set_keys. exact N.
    + apply (Map_set_all (fun m => plain (Msg.payload m) = true)); [apply plain_ohlc_payload|exact P].
  - unfold unsubscribeFromOHLCData, createMessage, getNextCorrelationId. monad. fields.
    match goal with |- context [send ?m ?x] => destruct (send_logs m x) as [tr ->] end.
    destruct H as [F [A [M [N P]]]]. unfold sound, timers_fresh in *. fields.
    repeat split; auto; try lia.
    + apply Map_delete_keys_kept. exact N.
    + apply (Map_delete_all (fun m => plain (Msg.payload m) = true)). exact P.
  - apply sound_ping. exact H.
  - destruct H as [F R]. split; [|exact R].
    unfold startAutoPing, modify, timers_fresh in *. fields. apply fresh_next. exact F.
  - exact H.
  - change (sound (final (onOpen (set_readyState OPEN o)))). apply sound_opened. exact H.
  - destruct (onMessage_final parse data o) as [event [arg ->]]. exact H.
  - unfold onError. rewrite final_emit. exact H.
  - change (sound (final (onClose (set_readyState CLOSED o)))). apply sound_closed. exact H.
  - exact H.
  - apply sound_fire. exact H.
Qed.

(** Every object a client can become is sound: in particular its
    counter of reconnections never exceeds the budget. *)
Theorem reachable_sound parse o : reachable parse o -> sound o.
Proof.
  induction 1 as [config|a o _ IH].
  - unfold sound, timers_fresh. cbn. repeat split; try lia; constructor.
  - apply sound_step. exact IH.
Qed.

(** ** The reconnection budget (C1, C10) *)




(** C10.  Every call of the open handler, from the 'open' event of the
    socket and from the timers of [connect] alike, leaves the
    reconnection counter at 0, even when the replay that follows
    throws.  The budget therefore counts the failures in a row, not the
    reconnections of a lifetime: a client that connects and then loses
    and regains its connection [n] times makes [n] reconnections,
    however large [n] is, emits no 'error' and ends with its counter at
    0; and whatever a client has been through, once its socket opens
    the budget is whole: the next five closes in a row each set a
    reconnection, and only the sixth emits the 'error' of the exhausted
    budget and sets none. *)
Theorem open_restores_the_budget parse :
  (forall o, reconnectAttempts (final (onOpen o)) = 0
             /\ reconnectAttempts (final (step parse Socket_open o)) = 0)
  /\ (forall config n,
        let o := Nat.iter n (episode parse) (run parse connects (new config)) in
        count is_reconnect (trace o) = n
        /\ count is_new_socket (trace o) = S n
        /\ count (emitted "error") (trace o) = 0%nat
        /\ reconnectAttempts o = 0
        /\ maxReconnectAttempts o = 5)
  /\ (forall o,
        reachable parse o ->
        let o0 := final (step parse Socket_open o) in
        let o5 := Nat.iter 5 (failure parse) o0 in
        let o6 := final (step parse Socket_close o5) in
        count is_reconnect (trace o5) = (5 + count is_reconnect (trace o0))%nat
        /\ count (emitted "error") (trace o5) = count (emitted "error") (trace o0)
        /\ trace o6 = (trace o5 ++ [ Emit "disconnect" NoArg;
                                     Emit "error" (Failure MAX_ATTEMPTS_REACHED) ])%list
        /\ timers o6 = timers o5).
Proof.
  assert (Z0 : forall o, reconnectAttempts (final (step parse Socket_open o)) = 0).
  { intros o. change (step parse Socket_open o) with (onOpen (set_readyState OPEN o)).
    apply onOpen_counter. }
  assert (E0 : forall config,
             ready (run parse connects (new config))
             /\ maxReconnectAttempts (run parse connects (new config)) = 5
             /\ count is_reconnect (trace (run parse connects (new config))) = 0%nat
             /\ count is_new_socket (trace (run parse connects (new config))) = 1%nat
             /\ count (emitted "error") (trace (run parse connects (new config))) = 0%nat).
  { intros config. unfold ready, timers_fresh.
    split; [|split; [|split; [|split]]]; try (vm_compute; reflexivity).
    split; [vm_compute; reflexivity|]. split; [vm_compute; reflexivity|].
    vm_compute. repeat constructor. }
  split; [|split].
  - intros o. split; [apply onOpen_counter|apply Z0].
  - intros config n. cbv zeta.
    destruct (E0 config) as [R [M [C [N X]]]].
    destruct (episodes_ready parse n _ R) as [[A _] [M' [C' [N' X']]]].
    rewrite M', C', N', X', M, C, N, X.
    split; [apply Nat.add_0_r|]. split; [apply Nat.add_1_r|].
    split; [reflexivity|]. split; [exact A|reflexivity].
  - intros o R. cbv zeta.
    pose proof (reachable_sound parse _ (reachable_step parse Socket_open o R))
      as [F [_ [M _]]].
    pose proof (Z0 o) as A.
    assert (L : 5 <= MAX_EXACT) by (apply Z.leb_le; reflexivity).
    destruct (failures_retry parse 5 _ F ltac:(rewrite A; apply Z.le_refl)
                ltac:(rewrite A, M; apply Z.le_refl) ltac:(rewrite M; exact L))
      as [F5 [A5 [M5 [C5 [N5 X5]]]]].
    split; [exact C5|]. split; [exact X5|].
    rewrite socket_closes_spent.
    + fields. split; [|reflexivity]. rewrite <- app_assoc. reflexivity.
    + rewrite M5, A5, M, A. apply Z.le_refl.
Qed.

Lemma open_restores_the_budget_witness :
  reachable ReferenceJSON.JSON_parse
    (final (step ReferenceJSON.JSON_parse (Call_connect CONNECTING)
              (new (Config.mk "a" "b" None))))
  /\ count is_reconnect
       (trace (Nat.iter 5 (failure ReferenceJSON.JSON_parse)
                 (final (step ReferenceJSON.JSON_parse Socket_open
                    (final (step ReferenceJSON.JSON_parse (Call_connect CONNECTING)
                              (new (Config.mk "a" "b" None)))))))) = 5%nat.
Proof.
  assert (R : reachable ReferenceJSON.JSON_parse
                (final (step ReferenceJSON.JSON_parse (Call_connect CONNECTING)
                          (new (Config.mk "a" "b" None))))).
  { apply reachable_step, reachable_new. }
  split; [exact R|].
  rewrite (proj1 (proj2 (proj2 (open_restores_the_budget ReferenceJSON.JSON_parse)) _ R)).
  vm_compute. reflexivity.
Defined.

(** ** Replay at open (C3) *)

(** C3.  Whenever the socket of the client opens, the first open and
    every reopening alike, the handler returns normally and the frames
    it sends are exactly the stored subscription messages, each once and
    in the order of the table; the table itself is left as it was.  The
    same holds on every other path into the open handler, which the
    timers of [connect] take only when the socket is open. *)
Theorem open_replays_the_table parse o :
  ws o <> None ->
  let r := step parse Socket_open o in
  returned r = true
  /\ frames (trace (final r)) = (frames (trace o) ++ replay (subscriptions o))%list
  /\ (forall frame, In frame (replay (subscriptions o)) <->
                    exists message, In message (Map_values (subscriptions o))
                                    /\ frame = frame_of message)
  /\ subscriptions (final r) = subscriptions o
  /\ (forall o', socket_open o' = true ->
                 returned (onOpen o') = true
                 /\ frames (trace (final (onOpen o')))
                    = (frames (trace o') ++ replay (subscriptions o'))%list
                 /\ subscriptions (final (onOpen o')) = subscriptions o').
Proof.
  intros H. cbv zeta. rewrite socket_opens by exact H. fields.
  split; [reflexivity|]. split; [|split; [|split; [reflexivity|]]].
  - rewrite frames_app. simpl. rewrite frames_sent. reflexivity.
  - intros frame. unfold replay. rewrite in_map_iff. split.
    + intros [m [E I]]. exists m. split; auto.
    + intros [m [I E]]. exists m. split; auto.
  - intros o' O. rewrite onOpen_open by exact O. fields.
    split; [reflexivity|]. split; [|reflexivity].
    rewrite frames_app. simpl. rewrite frames_sent. reflexivity.
Qed.

Lemma open_replays_the_table_witness :
  ws (final (subscribeToMarketData ["GOLD"]
               (final (connect CONNECTING (new (Config.mk "a" "b" None)))))) <> None
  /\ frames (trace (final (step ReferenceJSON.JSON_parse Socket_open
                            (final (subscribeToMarketData ["GOLD"]
                               (final (connect CONNECTING (new (Config.mk "a" "b" None))))))))) 
     = [ frame_of (created "marketData.subscribe" (marketData_payload ["GOLD"])
                     (new (Config.mk "a" "b" None))) ].
Proof.
  split.
  - vm_compute. discriminate.
  - rewrite (proj1 (proj2 (open_replays_the_table ReferenceJSON.JSON_parse
               (final (subscribeToMarketData ["GOLD"]
                  (final (connect CONNECTING (new (Config.mk "a" "b" None))))))
               ltac:(vm_compute; discriminate)))).
    vm_compute. reflexivity.
Defined.

(** The timers of [connect] are not cleared by the 'open' event: the
    next tick of the interval and the timeout of ten seconds find the
    socket open and call the open handler again, so a subscription
    registered before [connect()] is sent three times over. *)
Example one_open_three_replays :
  frames (trace (run ReferenceJSON.JSON_parse
                   [ Call_subscribeToMarketData ["GOLD"];
                     Call_connect CONNECTING; Socket_open;
                     Timer_fires 0 CONNECTING; Timer_fires 1 CONNECTING ]
                   (new (Config.mk "a" "b" None))))
  = [ frame_of (created "marketData.subscribe" (marketData_payload ["GOLD"])
                  (new (Config.mk "a" "b" None)));
      frame_of (created "marketData.subscribe" (marketData_payload ["GOLD"])
                  (new (Config.mk "a" "b" None)));
      frame_of (created "marketData.subscribe" (marketData_payload ["GOLD"])
                  (new (Config.mk "a" "b" None))) ].
Proof. vm_compute. reflexivity. Qed.

(** ** Calls on a socket that is not open (C4, C8) *)

(** C4.  While the socket is not open, each of the four subscription
    methods throws an error whose message contains "not connected". *)
Theorem calls_throw_while_not_open o epics resolutions type types :
  socket_open o = false ->
  throws_containing "not connected" (subscribeToMarketData epics o) = true
  /\ throws_containing "not connected" (subscribeToOHLCData epics resolutions type o) = true
  /\ throws_containing "not connected" (unsubscribeFromMarketData epics o) = true
  /\ throws_containing "not connected" (unsubscribeFromOHLCData epics resolutions types o) = true.
Proof.
  intros H. repeat split.
  - rewrite subscribeToMarketData_eq. cbv zeta. rewrite send_closed by exact H. reflexivity.
  - rewrite subscribeToOHLCData_eq. cbv zeta. rewrite send_closed by exact H. reflexivity.
  - rewrite unsubscribeFromMarketData_eq. cbv zeta. rewrite send_closed by exact H. reflexivity.
  - pose proof (unsubscribeFromOHLCData_closed epics resolutions types o H) as T.
    destruct (unsubscribeFromOHLCData epics resolutions types o); simpl in *; [discriminate|].
    injection T as ->. reflexivity.
Qed.

Lemma calls_throw_while_not_open_witness :
  let o := new (Config.mk "a" "b" None) in
  socket_open o = false
  /\ throws_containing "not connected" (subscribeToMarketData ["GOLD"] o) = true.
Proof.
  split.
  - reflexivity.
  - apply (calls_throw_while_not_open (new (Config.mk "a" "b" None)) ["GOLD"] None None None).
    reflexivity.
Defined.

(** C8.  A subscribe call on a socket that is not open throws, and the
    entry it registered stays in the table: the next time the client
    connects and the socket opens, the frame of that entry is sent. *)
Theorem registration_survives_failed_send parse o epics resolutions type :
  socket_open o = false ->
  (let message := created "marketData.subscribe" (marketData_payload epics) o in
   let r := subscribeToMarketData epics o in
   thrown r = Some NOT_CONNECTED
   /\ Map_get (marketData_key epics) (subscriptions (final r)) = Some message
   /\ frames (trace (run parse connects (final r)))
      = (frames (trace o) ++ replay (subscriptions (final r)))%list
   /\ In (frame_of message) (replay (subscriptions (final r))))
  /\
  (let message := created "OHLCMarketData.subscribe" (ohlc_payload epics resolutions type) o in
   let r := subscribeToOHLCData epics resolutions type o in
   thrown r = Some NOT_CONNECTED
   /\ Map_get (subscribe_ohlc_key epics resolutions type) (subscriptions (final r)) = Some message
   /\ frames (trace (run parse connects (final r)))
      = (frames (trace o) ++ replay (subscriptions (final r)))%list
   /\ In (frame_of message) (replay (subscriptions (final r)))).
Proof.
  intros H. split; cbv zeta.
  - rewrite subscribeToMarketData_eq. cbv zeta. rewrite send_closed by exact H. fields.
    repeat split.
    + apply Map_get_set.
    + destruct (connects_replay parse
                  (set_subscriptions
                     (Map_set (marketData_key epics)
                        (created "marketData.subscribe" (marketData_payload epics) o)
                        (subscriptions o))
                     (set_correlationIdCounter (incr (correlationIdCounter o)) o))) as [E _].
      exact E.
    + unfold replay. apply in_map. eapply Map_get_In. apply Map_get_set.
  - rewrite subscribeToOHLCData_eq. cbv zeta. rewrite send_closed by exact H. fields.
    repeat split.
    + apply Map_get_set.
    + destruct (connects_replay parse
                  (set_subscriptions
                     (Map_set (subscribe_ohlc_key epics resolutions type)
                        (created "OHLCMarketData.subscribe" (ohlc_payload epics resolutions type) o)
                        (subscriptions o))
                     (set_correlationIdCounter (incr (correlationIdCounter o)) o))) as [E _].
      exact E.
    + unfold replay. apply in_map. eapply Map_get_In. apply Map_get_set.
Qed.

Lemma registration_survives_failed_send_witness :
  let o := new (Config.mk "a" "b" None) in
  socket_open o = false
  /\ In (frame_of (created "marketData.subscribe" (marketData_payload ["GOLD"]) o))
        (frames (trace (run ReferenceJSON.JSON_parse connects
                          (final (subscribeToMarketData ["GOLD"] o))))).
Proof.
  split.
  - reflexivity.
  - destruct (registration_survives_failed_send ReferenceJSON.JSON_parse
                (new (Config.mk "a" "b" None)) ["GOLD"] None None eq_refl)
      as [[_ [_ [E I]]] _].
    rewrite E. apply in_or_app. right. exact I.
Defined.

(** ** Unsubscribing (C5) *)

(** C5.  After a subscription, the unsubscribe call of the same kind
    with the same epics (for candles: the same resolutions, and the type
    of the subscription as the one element of [types], or neither given)
    leaves no entry under the key of the subscription, whether or not
    the socket is open and whatever happened to the client in between;
    the other entries stay, and what the client replays when it next
    connects is the table without that entry. *)
Theorem unsubscribe_removes_the_entry parse o epics resolutions type :
  (let key := marketData_key epics in
   let o1 := final (subscribeToMarketData epics o) in
   let o2 := final (unsubscribeFromMarketData epics o1) in
   Map_get key (subscriptions o1)
     = Some (created "marketData.subscribe" (marketData_payload epics) o)
   /\ Map_get key (subscriptions o2) = None
   /\ ~ In key (map fst (subscriptions o2))
   /\ subscriptions o2 = Map_delete key (subscriptions o)
   /\ frames (trace (run parse connects o2))
      = (frames (trace o2) ++ replay (Map_delete key (subscriptions o)))%list
   /\ (forall x,
         let x' := final (unsubscribeFromMarketData epics x) in
         Map_get key (subscriptions x') = None
         /\ (forall other, other <> key ->
               Map_get other (subscriptions x') = Map_get other (subscriptions x))
         /\ frames (trace (run parse connects x'))
            = (frames (trace x') ++ replay (Map_delete key (subscriptions x)))%list))
  /\
  (let key := subscribe_ohlc_key epics resolutions type in
   let o1 := final (subscribeToOHLCData epics resolutions type o) in
   let o2 := final (unsubscribeFromOHLCData epics resolutions (matching_types type) o1) in
   Map_get key (subscriptions o1)
     = Some (created "OHLCMarketData.subscribe" (ohlc_payload epics resolutions type) o)
   /\ Map_get key (subscriptions o2) = None
   /\ ~ In key (map fst (subscriptions o2))
   /\ subscriptions o2 = Map_delete key (subscriptions o)
   /\ frames (trace (run parse connects o2))
      = (frames (trace o2) ++ replay (Map_delete key (subscriptions o)))%list
   /\ (forall x,
         let x' := final (unsubscribeFromOHLCData epics resolutions
                            (matching_types type) x) in
         Map_get key (subscriptions x') = None
         /\ (forall other, other <> key ->
               Map_get other (subscriptions x') = Map_get other (subscriptions x))
         /\ frames (trace (run parse connects x'))
            = (frames (trace x') ++ replay (Map_delete key (subscriptions x)))%list)).
Proof.
  split; cbv zeta.
  - assert (E : subscriptions (final (unsubscribeFromMarketData epics
                                        (final (subscribeToMarketData epics o))))
                = Map_delete (marketData_key epics) (subscriptions o)).
    { rewrite unsubscribeFromMarketData_subscriptions, subscribeToMarketData_subscriptions.
      apply Map_delete_after_set. }
    split; [|split; [|split; [|split; [|split]]]].
    + rewrite subscribeToMarketData_subscriptions. apply Map_get_set.
    + rewrite E. apply Map_get_delete.
    + rewrite E. apply Map_delete_keys.
    + exact E.
    + destruct (connects_replay parse
                  (final (unsubscribeFromMarketData epics
                            (final (subscribeToMarketData epics o))))) as [F _].
      rewrite F, E. reflexivity.
    + intros x. split; [|split].
      * rewrite unsubscribeFromMarketData_subscriptions. apply Map_get_delete.
      * intros other D. rewrite unsubscribeFromMarketData_subscriptions.
        apply Map_get_delete_other. exact D.
      * destruct (connects_replay parse (final (unsubscribeFromMarketData epics x)))
          as [F _].
        rewrite F, unsubscribeFromMarketData_subscriptions. reflexivity.
  - assert (E : subscriptions (final (unsubscribeFromOHLCData epics resolutions
                                        (matching_types type)
                                        (final (subscribeToOHLCData epics resolutions type o))))
                = Map_delete (subscribe_ohlc_key epics resolutions type) (subscriptions o)).
    { rewrite unsubscribeFromOHLCData_subscriptions, subscribeToOHLCData_subscriptions.
      rewrite ohlc_keys_agree. apply Map_delete_after_set. }
    split; [|split; [|split; [|split; [|split]]]].
    + rewrite subscribeToOHLCData_subscriptions. apply Map_get_set.
    + rewrite E. apply Map_get_delete.
    + rewrite E. apply Map_delete_keys.
    + exact E.
    + destruct (connects_replay parse
                  (final (unsubscribeFromOHLCData epics resolutions (matching_types type)
                            (final (subscribeToOHLCData epics resolutions type o))))) as [F _].
      rewrite F, E. reflexivity.
    + intros x. split; [|split].
      * rewrite unsubscribeFromOHLCData_subscriptions, ohlc_keys_agree.
        apply Map_get_delete.
      * intros other D. rewrite unsubscribeFromOHLCData_subscriptions, ohlc_keys_agree.
        apply Map_get_delete_other. exact D.
      * destruct (connects_replay parse
                    (final (unsubscribeFromOHLCData epics resolutions
                              (matching_types type) x))) as [F _].
        rewrite F, unsubscribeFromOHLCData_subscriptions, ohlc_keys_agree. reflexivity.
Qed.

Lemma unsubscribe_removes_the_entry_witness :
  Map_get "marketData_GOLD"
    (subscriptions
       (final (unsubscribeFromMarketData ["GOLD"]
          (run ReferenceJSON.JSON_parse
             (connects ++ [ Call_subscribeToMarketData ["GOLD"];
                            Call_subscribeToMarketData ["SILVER"] ])
             (new (Config.mk "a" "b" None))))))
  = None
  /\ Map_has "marketData_SILVER"
       (subscriptions
          (final (unsubscribeFromMarketData ["GOLD"]
             (run ReferenceJSON.JSON_parse
                (connects ++ [ Call_subscribeToMarketData ["GOLD"];
                               Call_subscribeToMarketData ["SILVER"] ])
                (new (Config.mk "a" "b" None))))))
     = true.
Proof.
  split.
  - apply (unsubscribe_removes_the_entry ReferenceJSON.JSON_parse
             (new (Config.mk "a" "b" None)) ["GOLD"] None None).
  - vm_compute. reflexivity.
Defined.

(** ** The frame of a subscription (C6) *)

(** C6.  On a client whose tokens are 'a' and 'b' and whose socket is
    open, [subscribeToMarketData(['GOLD'])] returns and sends one frame,
    the last of the socket: the JSON text of the object with destination
    'marketData.subscribe', payload [{epics: ['GOLD']}], cst 'a',
    securityToken 'b' and, as correlationId, the decimal text of the
    next value of the counter; the frame decodes to that object. *)
Theorem gold_subscription_frame o :
  cst o = "a" -> securityToken o = "b" -> socket_open o = true ->
  let s := Number_toString (incr (correlationIdCounter o)) in
  let envelope :=
    JObject [ ("destination", JString "marketData.subscribe");
              ("correlationId", JString s);
              ("cst", JString "a");
              ("securityToken", JString "b");
              ("payload", JObject [("epics", JArray [JString "GOLD"])]) ] in
  let r := subscribeToMarketData ["GOLD"] o in
  returned r = true
  /\ trace (final r) = (trace o ++ [SocketSend (JSON_stringify envelope)])%list
  /\ last (frames (trace (final r))) "" = JSON_stringify envelope
  /\ ReferenceJSON.JSON_parse (last (frames (trace (final r))) "") = inr envelope.
Proof.
  intros C S H. cbv zeta. rewrite subscribeToMarketData_eq. cbv zeta.
  rewrite send_open by exact H. fields.
  unfold frame_of, message_value, created, marketData_payload, epics_value.
  cbn [Msg.destination Msg.correlationId Msg.cst Msg.securityToken Msg.payload map].
  rewrite C, S.
  assert (L : forall frame, last (frames (trace o ++ [SocketSend frame])) "" = frame).
  { intros frame. rewrite frames_app. cbn [frames]. apply last_last. }
  split; [reflexivity|]. split; [reflexivity|]. split; [apply L|].
  rewrite L. apply parse_stringify. reflexivity.
Qed.

Lemma gold_subscription_frame_witness :
  let o := run ReferenceJSON.JSON_parse connects (new (Config.mk "a" "b" None)) in
  cst o = "a" /\ securityToken o = "b" /\ socket_open o = true
  /\ returned (subscribeToMarketData ["GOLD"] o) = true.
Proof.
  split; [reflexivity|]. split; [reflexivity|]. split; [reflexivity|].
  apply (gold_subscription_frame
           (run ReferenceJSON.JSON_parse connects (new (Config.mk "a" "b" None))));
    reflexivity.
Defined.

(** The frame a fresh client sends for GOLD decodes to the object of
    the claim, with the correlation id "1". *)
Example gold_frame_decodes :
  ReferenceJSON.JSON_parse
    (last (frames (trace (run ReferenceJSON.JSON_parse
                            (connects ++ [Call_subscribeToMarketData ["GOLD"]])
                            (new (Config.mk "a" "b" None))))) "")
  = inr (JObject [ ("destination", JString "marketData.subscribe");
                   ("correlationId", JString "1");
                   ("cst", JString "a");
                   ("securityToken", JString "b");
                   ("payload", JObject [("epics", JArray [JString "GOLD"])]) ]).
Proof. vm_compute. reflexivity. Qed.

(** ** Malformed frames (C7) *)

(** C7, as the code has it.  When a listener is registered for 'error',
    a frame whose text [JSON.parse] rejects makes the message handler
    emit one event, an 'error' whose message starts "Failed to parse
    WebSocket message", and return normally; nothing but the log of the
    object changes, so the socket, the connection flag and the table
    are as before. *)
Theorem malformed_frame_is_reported parse data e o :
  parse data = inl e ->
  listenerCount "error" o <> 0%nat ->
  let r := step parse (Socket_message data) o in
  r = Return tt (log (Emit "error" (Failure (PARSE_FAILED e))) o)
  /\ trace (final r) = (trace o ++ [Emit "error" (Failure (PARSE_FAILED e))])%list
  /\ count (emitted "error") (trace (final r)) = S (count (emitted "error") (trace o))
  /\ ws (final r) = ws o
  /\ isConnected (final r) = isConnected o
  /\ subscriptions (final r) = subscriptions o
  /\ reconnectAttempts (final r) = reconnectAttempts o
  /\ timers (final r) = timers o.
Proof.
  intros P L. cbv zeta. cbn [step]. unfold onMessage, try_catch. rewrite P.
  unfold throw. rewrite emit_heard by exact L. fields. repeat split.
  rewrite count_app. cbn. apply Nat.add_1_r.
Qed.

Lemma malformed_frame_is_reported_witness :
  let o := final (on "error" (new (Config.mk "a" "b" None))) in
  ReferenceJSON.JSON_parse "invalid-json-data" = inl ReferenceJSON.SyntaxError
  /\ listenerCount "error" o <> 0%nat
  /\ step ReferenceJSON.JSON_parse (Socket_message "invalid-json-data") o
     = Return tt (log (Emit "error" (Failure (PARSE_FAILED ReferenceJSON.SyntaxError))) o).
Proof.
  split; [reflexivity|]. split; [vm_compute; discriminate|].
  apply (malformed_frame_is_reported ReferenceJSON.JSON_parse "invalid-json-data"
           ReferenceJSON.SyntaxError
           (final (on "error" (new (Config.mk "a" "b" None))))).
  - reflexivity.
  - vm_compute. discriminate.
Defined.

(** C7 as stated fails on a client nobody listens to: the 'error' event
    of the handler is then thrown by [emit], out of the handler. *)
Lemma malformed_frame_without_listener :
  let o := new (Config.mk "a" "b" None) in
  let r := step ReferenceJSON.JSON_parse (Socket_message "invalid-json-data") o in
  ReferenceJSON.JSON_parse "invalid-json-data" = inl ReferenceJSON.SyntaxError
  /\ returned r = false
  /\ thrown r = Some (PARSE_FAILED ReferenceJSON.SyntaxError).
Proof. vm_compute. repeat split. Qed.

(** ** Tokens (C9) *)

(** The frame of a message whose payload the client made reads as an
    object that carries the two tokens of the message. *)
Lemma frame_carries_tokens m :
  plain (Msg.payload m) = true ->
  exists fields,
    ReferenceJSON.JSON_parse (frame_of m) = inr (JObject fields)
    /\ assoc "cst" fields = JString (Msg.cst m)
    /\ assoc "securityToken" fields = JString (Msg.securityToken m).
Proof.
  intros P. rewrite (frame_decodes m P). unfold message_value.
  destruct (Msg.payload m); eexists; (split; [reflexivity|]); split; reflexivity.
Qed.

(** What an episode adds to the log: the reconnection, the handshake
    with the tokens of the object, and the replay of the table. *)
Lemma episode_trace parse o :
  timers_fresh o -> reconnectAttempts o < maxReconnectAttempts o ->
  trace (episode parse o)
  = (trace o
     ++ [ Emit "disconnect" NoArg;
          SetTimer (timerSeq o) Reconnect (reconnectInterval o);
          NewSocket (streamingUrl o)
            [ ("CST", cst o); ("X-SECURITY-TOKEN", securityToken o);
              ("User-Agent", "Capital API Client") ];
          SetTimer (S (timerSeq o)) (Poll 0) 500;
          SetTimer (S (S (timerSeq o))) (Backup (S (timerSeq o))) 10000;
          Emit "connect" NoArg ]
     ++ map SocketSend (replay (subscriptions o)))%list.
Proof.
  intros F B. unfold episode. cbn [run].
  rewrite socket_closes_retry by exact B. cbn [final].
  rewrite reconnect_fires by (exact F || reflexivity).
  rewrite connect_connecting. fields.
  rewrite socket_opens by (fields; discriminate). fields.
  rewrite <- !app_assoc. reflexivity.
Qed.

(** C9.  [updateTokens] assigns the two token fields and nothing else;
    in particular no entry of the table changes.  A message stored by
    either subscribe method carries the tokens the client had at the
    subscribe call: after [updateTokens] the entry is still that
    message, it stays that message whatever the socket, the timers and
    the other calls do until a call writes the table, the replay at the
    next open sends its frame as it was, and that frame reads as an
    object whose [cst] and [securityToken] are the tokens of the
    subscribe call.  So when the connection drops and comes back, the
    handshake of the new socket presents the new tokens and the frames
    replayed on it carry the old ones.  The messages created from then
    on carry the new tokens, and so do their frames. *)
Theorem stored_messages_keep_their_tokens parse o cst' securityToken' :
  let kept (key : string) (message : Msg.t) (o1 : t) :=
    let o2 := final (updateTokens cst' securityToken' o1) in
    (Msg.cst message = cst o /\ Msg.securityToken message = securityToken o)
    /\ Map_get key (subscriptions o1) = Some message
    /\ Map_get key (subscriptions o2) = Some message
    /\ (forall actions,
          forallb (fun a => negb (writes_table a)) actions = true ->
          Map_get key (subscriptions (run parse actions o2)) = Some message)
    /\ frames (trace (run parse connects o2))
       = (frames (trace o2) ++ replay (subscriptions o1))%list
    /\ In (frame_of message) (replay (subscriptions o1))
    /\ (exists fields,
          ReferenceJSON.JSON_parse (frame_of message) = inr (JObject fields)
          /\ assoc "cst" fields = JString (cst o)
          /\ assoc "securityToken" fields = JString (securityToken o))
    /\ (timers_fresh o1 -> reconnectAttempts o1 < maxReconnectAttempts o1 ->
        frames (trace (episode parse o2))
        = (frames (trace o2) ++ replay (subscriptions o1))%list
        /\ In (NewSocket (streamingUrl o1)
                 [ ("CST", cst'); ("X-SECURITY-TOKEN", securityToken');
                   ("User-Agent", "Capital API Client") ])
              (trace (episode parse o2))) in
  (forall x, updateTokens cst' securityToken' x = Return tt (set_tokens cst' securityToken' x))
  /\ (forall x,
        let x' := final (updateTokens cst' securityToken' x) in
        cst x' = cst' /\ securityToken x' = securityToken'
        /\ subscriptions x' = subscriptions x /\ ws x' = ws x
        /\ streamingUrl x' = streamingUrl x
        /\ correlationIdCounter x' = correlationIdCounter x
        /\ reconnectInterval x' = reconnectInterval x
        /\ maxReconnectAttempts x' = maxReconnectAttempts x
        /\ reconnectAttempts x' = reconnectAttempts x
        /\ isConnected x' = isConnected x /\ listeners x' = listeners x
        /\ timers x' = timers x /\ timerSeq x' = timerSeq x /\ trace x' = trace x)
  /\ (forall epics,
        kept (marketData_key epics)
             (created "marketData.subscribe" (marketData_payload epics) o)
             (final (subscribeToMarketData epics o)))
  /\ (forall epics resolutions type,
        kept (subscribe_ohlc_key epics resolutions type)
             (created "OHLCMarketData.subscribe" (ohlc_payload epics resolutions type) o)
             (final (subscribeToOHLCData epics resolutions type o)))
  /\ (forall x destination payload,
        exists o3 m,
          createMessage destination payload (final (updateTokens cst' securityToken' x))
          = Return m o3
          /\ Msg.cst m = cst' /\ Msg.securityToken m = securityToken'
          /\ (plain payload = true ->
              exists fields,
                ReferenceJSON.JSON_parse (frame_of m) = inr (JObject fields)
                /\ assoc "cst" fields = JString cst'
                /\ assoc "securityToken" fields = JString securityToken')).
Proof.
  cbv zeta.
  assert (K : forall key message o1,
            Msg.cst message = cst o -> Msg.securityToken message = securityToken o ->
            plain (Msg.payload message) = true ->
            Map_get key (subscriptions o1) = Some message ->
            (Msg.cst message = cst o /\ Msg.securityToken message = securityToken o)
            /\ Map_get key (subscriptions o1) = Some message
            /\ Map_get key (subscriptions (final (updateTokens cst' securityToken' o1)))
               = Some message
            /\ (forall actions,
                  forallb (fun a => negb (writes_table a)) actions = true ->
                  Map_get key
                    (subscriptions
                       (run parse actions (final (updateTokens cst' securityToken' o1))))
                  = Some message)
            /\ frames (trace (run parse connects (final (updateTokens cst' securityToken' o1))))
               = (frames (trace (final (updateTokens cst' securityToken' o1)))
                  ++ replay (subscriptions o1))%list
            /\ In (frame_of message) (replay (subscriptions o1))
            /\ (exists fields,
                  ReferenceJSON.JSON_parse (frame_of message) = inr (JObject fields)
                  /\ assoc "cst" fields = JString (cst o)
                  /\ assoc "securityToken" fields = JString (securityToken o))
            /\ (timers_fresh o1 -> reconnectAttempts o1 < maxReconnectAttempts o1 ->
                frames (trace (episode parse (final (updateTokens cst' securityToken' o1))))
                = (frames (trace (final (updateTokens cst' securityToken' o1)))
                   ++ replay (subscriptions o1))%list
                /\ In (NewSocket (streamingUrl o1)
                         [ ("CST", cst'); ("X-SECURITY-TOKEN", securityToken');
                           ("User-Agent", "Capital API Client") ])
                      (trace (episode parse (final (updateTokens cst' securityToken' o1)))))).
  { intros key message o1 C T P G.
    split; [split; assumption|]. split; [exact G|]. split; [exact G|].
    split; [|split; [|split; [|split]]].
    - intros actions W. rewrite table_outlives_events by exact W. exact G.
    - destruct (connects_replay parse (final (updateTokens cst' securityToken' o1))) as [F _].
      exact F.
    - unfold replay. apply in_map. eapply Map_get_In. exact G.
    - rewrite <- C, <- T. apply frame_carries_tokens, P.
    - intros F B.
      rewrite (episode_trace parse (final (updateTokens cst' securityToken' o1)) F B).
      split.
      + rewrite !frames_app. cbn [frames]. rewrite frames_sent, app_nil_l. reflexivity.
      + apply in_or_app. right. apply in_or_app. left.
        right. right. left. reflexivity. }
  split; [reflexivity|]. split; [intros x; repeat split|].
  split; [|split].
  - intros epics. apply K; try reflexivity.
    + apply plain_marketData_payload.
    + rewrite subscribeToMarketData_subscriptions. apply Map_get_set.
  - intros epics resolutions type. apply K; try reflexivity.
    + apply plain_ohlc_payload.
    + rewrite subscribeToOHLCData_subscriptions. apply Map_get_set.
  - intros x destination payload. rewrite createMessage_eq. eexists. eexists.
    split; [reflexivity|]. split; [reflexivity|]. split; [reflexivity|].
    intros P.
    exact (frame_carries_tokens
             (created destination payload (final (updateTokens cst' securityToken' x))) P).
Qed.

Lemma stored_messages_keep_their_tokens_witness :
  let o := new (Config.mk "a" "b" None) in
  let o2 := final (updateTokens "c" "d"
              (final (subscribeToOHLCData ["GOLD"] (Some [MINUTE]) (Some heikin_ashi) o))) in
  cst o2 = "c"
  /\ forallb (fun a => negb (writes_table a))
             [ Call_connect CONNECTING; Socket_open; Call_ping; Socket_close ] = true
  /\ Map_get (subscribe_ohlc_key ["GOLD"] (Some [MINUTE]) (Some heikin_ashi))
       (subscriptions
          (run ReferenceJSON.JSON_parse
             [ Call_connect CONNECTING; Socket_open; Call_ping; Socket_close ] o2))
     = Some (created "OHLCMarketData.subscribe"
               (ohlc_payload ["GOLD"] (Some [MINUTE]) (Some heikin_ashi)) o)
  /\ exists fields,
       ReferenceJSON.JSON_parse
         (frame_of (created "OHLCMarketData.subscribe"
                      (ohlc_payload ["GOLD"] (Some [MINUTE]) (Some heikin_ashi)) o))
       = inr (JObject fields)
       /\ assoc "cst" fields = JString "a"
       /\ assoc "securityToken" fields = JString "b".
Proof.
  cbv zeta. split; [reflexivity|]. split; [reflexivity|].
  destruct (stored_messages_keep_their_tokens ReferenceJSON.JSON_parse
              (new (Config.mk "a" "b" None)) "c" "d") as [_ [_ [_ [H _]]]].
  destruct (H ["GOLD"] (Some [MINUTE]) (Some heikin_ashi)) as [_ [_ [_ [P [_ [_ [D _]]]]]]].
  split; [apply P; reflexivity|exact D].
Defined.

(* ================================================================== *)
(** * Properties of the REST client (C2)                               *)
(* ================================================================== *)

Lemma client_request_401 v url rp o :
  CapitalAPI.replied_401 rp = true ->
  exists rj o',
    CapitalAPI.client_request v url rp o = CapitalAPI.Rejected rj o'
    /\ CapitalAPI.status_of rj = Some 401
    /\ CapitalAPI.cst o' = None /\ CapitalAPI.securityToken o' = None
    /\ CapitalAPI.history o' <> CapitalAPI.history o.
Proof.
  destruct rp as [r|e]; simpl; [|discriminate].
  intros H. apply Z.eqb_eq in H.
  unfold CapitalAPI.client_request, CapitalAPI.accepted. rewrite H. simpl.
  eexists. eexists. split; [reflexivity|]. unfold CapitalAPI.status_of. simpl.
  rewrite H. repeat split.
  intros E. apply (f_equal (@List.length _)) in E. rewrite length_app in E.
  simpl in E. lia.
Qed.

Lemma get_401 url rp o :
  CapitalAPI.replied_401 rp = true ->
  CapitalAPI.cst (CapitalAPI.after (CapitalAPI.get url rp o)) = None
  /\ CapitalAPI.securityToken (CapitalAPI.after (CapitalAPI.get url rp o)) = None.
Proof.
  intros H. unfold CapitalAPI.get.
  destruct (client_request_401 CapitalAPI.GET url rp o H) as [rj [o' [E [S [C [T _]]]]]].
  rewrite E, S. simpl. auto.
Qed.

Lemma send_401 v url rp o :
  CapitalAPI.replied_401 rp = true ->
  exists rj o', CapitalAPI.send v url rp o = CapitalAPI.Rejected rj o'
                /\ CapitalAPI.cst o' = None /\ CapitalAPI.securityToken o' = None.
Proof.
  intros H. unfold CapitalAPI.send.
  destruct (client_request_401 v url rp o H) as [rj [o' [E [S [C [T _]]]]]].
  rewrite E. eauto.
Qed.

Lemma no_tokens o :
  CapitalAPI.cst o = None -> CapitalAPI.securityToken o = None ->
  CapitalAPI.isAuthenticated o = false
  /\ CapitalAPI.cst o = None /\ CapitalAPI.securityToken o = None.
Proof. intros C S. unfold CapitalAPI.isAuthenticated. rewrite C, S. auto. Qed.

(** The login with an encrypted password asks for the key through the
    client's own instance: a 401 on that request clears the session. *)
Lemma createSessionWithEncryption_401 key session o :
  CapitalAPI.present (CapitalAPI.apiKey o) = true ->
  CapitalAPI.replied_401 key = true ->
  let o' := CapitalAPI.after (CapitalAPI.createSessionWithEncryption key session o) in
  CapitalAPI.isAuthenticated o' = false
  /\ CapitalAPI.cst o' = None /\ CapitalAPI.securityToken o' = None.
Proof.
  intros K H. cbv zeta.
  unfold CapitalAPI.createSessionWithEncryption, CapitalAPI.getEncryptionKey.
  rewrite K. simpl negb. cbv iota.
  pose proof (get_401 "/api/v1/session/encryptionKey" key o H) as [C T].
  unfold CapitalAPI.get in *.
  destruct (client_request_401 CapitalAPI.GET "/api/v1/session/encryptionKey" key o H)
    as [rj [o' [E [S _]]]].
  rewrite E, S in *. simpl in *. apply no_tokens; assumption.
Qed.

(** C2, as the code has it.  Every method that sends its request
    through the client's own HTTP instance, that is every method but
    [createSession], leaves the client without session when the reply
    to that request is a 401: [isAuthenticated()] is false and both
    tokens are undefined. *)
Theorem unauthorized_reply_clears_the_session c rp o :
  CapitalAPI.is_createSession c = false ->
  CapitalAPI.requested c rp o = true ->
  CapitalAPI.replied_401 rp = true ->
  let o' := CapitalAPI.after (CapitalAPI.perform c rp o) in
  CapitalAPI.isAuthenticated o' = false
  /\ CapitalAPI.cst o' = None
  /\ CapitalAPI.securityToken o' = None.
Proof.
  intros NC RQ H. cbv zeta.
  assert (G : CapitalAPI.cst (CapitalAPI.after (CapitalAPI.perform c rp o)) = None
              /\ CapitalAPI.securityToken (CapitalAPI.after (CapitalAPI.perform c rp o)) = None).
  { destruct c; try discriminate NC; cbn [CapitalAPI.perform];
      try (apply get_401; exact H);
      try (match goal with
           | |- context [CapitalAPI.send ?v ?u rp o] =>
               destruct (send_401 v u rp o H) as [rj [o' [E [C T]]]];
               rewrite E; split; assumption
           end).
    - unfold CapitalAPI.requested in RQ. cbn [CapitalAPI.perform] in RQ.
      unfold CapitalAPI.getEncryptionKey in *.
      destruct (negb (CapitalAPI.present (CapitalAPI.apiKey o))).
      + simpl in RQ. rewrite Nat.ltb_irrefl in RQ. discriminate.
      + apply get_401. exact H.
    - unfold CapitalAPI.logout.
      destruct (send_401 CapitalAPI.DELETE "/api/v1/session" rp o H) as [rj [o' [E [C T]]]].
      rewrite E. split; assumption. }
  destruct G as [C T]. apply no_tokens; assumption.
Qed.

Lemma unauthorized_reply_clears_the_session_witness :
  let o := CapitalAPI.setSessionTokens "fake-cst" "fake-token"
             (CapitalAPI.new (CapitalAPI.Config.mk None true (Some "key"))) in
  let rp := CapitalAPI.Answered
              (CapitalAPI.mkResponse 401 []
                 (JS.JObject [("errorCode", JS.JString "error.invalid.session.token")])) in
  CapitalAPI.is_createSession CapitalAPI.getAllAccounts = false
  /\ CapitalAPI.requested CapitalAPI.getAllAccounts rp o = true
  /\ CapitalAPI.replied_401 rp = true
  /\ CapitalAPI.isAuthenticated o = true
  /\ CapitalAPI.isAuthenticated
       (CapitalAPI.after (CapitalAPI.perform CapitalAPI.getAllAccounts rp o)) = false.
Proof.
  split; [reflexivity|]. split; [reflexivity|]. split; [reflexivity|]. split; [reflexivity|].
  apply (unauthorized_reply_clears_the_session CapitalAPI.getAllAccounts
           (CapitalAPI.Answered
              (CapitalAPI.mkResponse 401 []
                 (JS.JObject [("errorCode", JS.JString "error.invalid.session.token")])))
           (CapitalAPI.setSessionTokens "fake-cst" "fake-token"
              (CapitalAPI.new (CapitalAPI.Config.mk None true (Some "key")))));
    reflexivity.
Defined.

(** C2 as stated fails for [createSession]: its request goes through
    an HTTP instance of its own, without the interceptor, so a 401 on
    it leaves the tokens of an earlier login in place. *)
Lemma createSession_401_keeps_the_session :
  let login := CapitalAPI.Answered
                 (CapitalAPI.mkResponse 200 [("cst", "a"); ("x-security-token", "b")]
                    (JS.JObject [("accountType", JS.JString "CFD")])) in
  let denied := CapitalAPI.Answered
                  (CapitalAPI.mkResponse 401 []
                     (JS.JObject [("errorCode", JS.JString "error.invalid.details")])) in
  let o := CapitalAPI.after
             (CapitalAPI.perform CapitalAPI.call_createSession login
                (CapitalAPI.new (CapitalAPI.Config.mk None true (Some "key")))) in
  let o' := CapitalAPI.after (CapitalAPI.perform CapitalAPI.call_createSession denied o) in
  CapitalAPI.requested CapitalAPI.call_createSession denied o = true
  /\ CapitalAPI.replied_401 denied = true
  /\ CapitalAPI.isAuthenticated o' = true
  /\ CapitalAPI.cst o' = Some "a"
  /\ CapitalAPI.securityToken o' = Some "b".
Proof. vm_compute. repeat split. Qed.


(* ================================================================== *)
(** * Further properties of the streaming client                       *)
(* ================================================================== *)

Import Lifecycle.

Lemma destination_is_string d s : destination_is (JString d) s = (d =? s)%string.
Proof. reflexivity. Qed.

(** ** Frames that are read *)

Lemma acknowledged_destination d :
  (d =? "marketData.subscribe")%string || (d =? "marketData.unsubscribe")%string
  || (d =? "OHLCMarketData.subscribe")%string || (d =? "OHLCMarketData.unsubscribe")%string
  = true <-> In d ACKNOWLEDGED.
Proof.
  unfold ACKNOWLEDGED. rewrite !orb_true_iff, !String.eqb_eq. cbn. intuition congruence.
Qed.

Ltac settle_route :=
  let H := fresh "H" in
  intros H;
  first [ split; reflexivity
        | discriminate H
        | exfalso; cbn in H; intuition discriminate
        | exfalso; apply H; cbn; tauto ].

(** X1.  A frame that [JSON.parse] reads as anything but null makes the
    message handler raise one event and return, whether or not anyone
    listens: the event is never ['error'], nothing of the object changes
    but its log, and the destination of the frame alone chooses the
    event (a frame without one, an array, a number or a string is a
    ['message']). *)
Theorem read_frame_raises_one_event parse data message o :
  parse data = inr message ->
  message <> JNull -> message <> JUndefined ->
  exists event arg,
    step parse (Socket_message data) o = Return tt (log (Emit event arg) o)
    /\ In event MESSAGE_EVENTS
    /\ count (emitted "error") (trace (log (Emit event arg) o))
       = count (emitted "error") (trace o)
    /\ (forall d,
          property message "destination" = inr (JString d) ->
          (d = "quote" -> event = "quote" /\ arg = Value (payload_of message))
          /\ (d = "ohlc.event" -> event = "ohlc" /\ arg = Value (payload_of message))
          /\ (d = "ping" -> event = "pong" /\ arg = Value message)
          /\ (In d ACKNOWLEDGED -> event = "subscription" /\ arg = Value message)
          /\ (~ In d ("quote" :: "ohlc.event" :: "ping" :: ACKNOWLEDGED) ->
              event = "message" /\ arg = Value message))
    /\ ((forall d, property message "destination" <> inr (JString d)) ->
        event = "message" /\ arg = Value message).
Proof.
  intros P N U. cbn [step]. unfold onMessage, try_catch. rewrite P.
  destruct (property message "destination") as [e|dest] eqn:D.
  { destruct message; cbn in D; congruence. }
  unfold dispatch. rewrite D.
  assert (other : forall event arg, In event MESSAGE_EVENTS ->
            count (emitted "error") (trace (log (Emit event arg) o))
            = count (emitted "error") (trace o)).
  { intros event arg I. fields. apply count_log. cbn.
    destruct I as [<-|[<-|[<-|[<-|[<-|[]]]]]]; reflexivity. }
  destruct dest as [ | |b|l|d|items|fields];
    try (cbn [destination_is orb];
         exists "message", (Value message); rewrite emit_event by reflexivity;
         split; [reflexivity|]; split; [cbn; tauto|];
         split; [apply other; cbn; tauto|];
         split; [intros d Dd; discriminate Dd|intros _; split; reflexivity]).
  rewrite !destination_is_string.
  destruct (d =? "quote")%string eqn:Q.
  { apply String.eqb_eq in Q. subst d.
    exists "quote", (Value (payload_of message)). rewrite emit_event by reflexivity.
    split; [reflexivity|]. split; [cbn; tauto|]. split; [apply other; cbn; tauto|].
    split; [intros d Dd; injection Dd as <-;
            split; [|split; [|split; [|split]]]; settle_route|].
    intros Hno. exfalso. exact (Hno _ eq_refl). }
  destruct (d =? "ohlc.event")%string eqn:O.
  { apply String.eqb_eq in O. subst d.
    exists "ohlc", (Value (payload_of message)). rewrite emit_event by reflexivity.
    split; [reflexivity|]. split; [cbn; tauto|]. split; [apply other; cbn; tauto|].
    split; [intros d Dd; injection Dd as <-;
            split; [|split; [|split; [|split]]]; settle_route|].
    intros Hno. exfalso. exact (Hno _ eq_refl). }
  destruct (d =? "ping")%string eqn:G.
  { apply String.eqb_eq in G. subst d.
    exists "pong", (Value message). rewrite emit_event by reflexivity.
    split; [reflexivity|]. split; [cbn; tauto|]. split; [apply other; cbn; tauto|].
    split; [intros d Dd; injection Dd as <-;
            split; [|split; [|split; [|split]]]; settle_route|].
    intros Hno. exfalso. exact (Hno _ eq_refl). }
  apply String.eqb_neq in Q, O, G.
  destruct ((d =? "marketData.subscribe")%string || (d =? "marketData.unsubscribe")%string
            || (d =? "OHLCMarketData.subscribe")%string
            || (d =? "OHLCMarketData.unsubscribe")%string) eqn:A.
  { apply acknowledged_destination in A.
    exists "subscription", (Value message). rewrite emit_event by reflexivity.
    split; [reflexivity|]. split; [cbn; tauto|]. split; [apply other; cbn; tauto|].
    split.
    - intros d' Dd; injection Dd as <-.
      split; [|split; [|split; [|split]]]; try congruence.
      + intros _. split; reflexivity.
      + intros H. exfalso. apply H. cbn. cbn in A. tauto.
    - intros Hno. exfalso. exact (Hno _ eq_refl). }
  exists "message", (Value message). rewrite emit_event by reflexivity.
  split; [reflexivity|]. split; [cbn; tauto|]. split; [apply other; cbn; tauto|].
  split.
  - intros d' Dd; injection Dd as <-.
    split; [|split; [|split; [|split]]]; try congruence.
    + intros H. apply acknowledged_destination in H. congruence.
    + intros _. split; reflexivity.
  - intros Hno. exfalso. exact (Hno _ eq_refl).
Qed.

Lemma read_frame_raises_one_event_witness :
  let data := JSON_stringify (JObject [ ("destination", JString "quote");
                                        ("payload", JObject [("epic", JString "GOLD")]) ]) in
  let o := new (Config.mk "a" "b" None) in
  exists message,
    ReferenceJSON.JSON_parse data = inr message
    /\ step ReferenceJSON.JSON_parse (Socket_message data) o
       = Return tt (log (Emit "quote" (Value (payload_of message))) o).
Proof.
  cbv zeta.
  exists (JObject [ ("destination", JString "quote");
                    ("payload", JObject [("epic", JString "GOLD")]) ]).
  split; [vm_compute; reflexivity|].
  destruct (read_frame_raises_one_event ReferenceJSON.JSON_parse
              (JSON_stringify (JObject [ ("destination", JString "quote");
                                         ("payload", JObject [("epic", JString "GOLD")]) ]))
              (JObject [ ("destination", JString "quote");
                         ("payload", JObject [("epic", JString "GOLD")]) ])
              (new (Config.mk "a" "b" None)))
    as [event [arg [E [_ [_ [R _]]]]]];
    [vm_compute; reflexivity|discriminate|discriminate|].
  destruct (R "quote" eq_refl) as [Q _]. destruct (Q eq_refl) as [-> ->]. exact E.
Defined.

(** X2.  The frame [null] is JSON, and the handler still reports it as
    a frame it could not parse: reading [destination] of null throws
    inside the [try], so the one event is an ['error'] carrying the
    TypeError, and without a listener for ['error'] the handler throws. *)
Theorem null_frame_is_reported_as_unreadable parse data o :
  parse data = inr JNull ->
  let report := PARSE_FAILED (TypeError_property "destination") in
  let r := step parse (Socket_message data) o in
  final r = log (Emit "error" (Failure report)) o
  /\ message report
     = "Failed to parse WebSocket message: TypeError: Cannot read properties of null (reading 'destination')"
  /\ (listenerCount "error" o <> 0%nat -> returned r = true)
  /\ (listenerCount "error" o = 0%nat -> thrown r = Some report).
Proof.
  intros P. cbv zeta. cbn [step]. unfold onMessage, try_catch. rewrite P.
  cbn [dispatch property]. unfold throw.
  split; [apply final_emit|]. split; [reflexivity|]. split; intros L.
  - rewrite emit_heard by exact L. reflexivity.
  - rewrite emit_unheard by exact L. reflexivity.
Qed.

Lemma null_frame_is_reported_as_unreadable_witness :
  let o := final (on "error" (new (Config.mk "a" "b" None))) in
  ReferenceJSON.JSON_parse "null" = inr JNull
  /\ count (emitted "error")
       (trace (final (step ReferenceJSON.JSON_parse (Socket_message "null") o))) = 1%nat.
Proof.
  cbv zeta. split; [vm_compute; reflexivity|].
  destruct (null_frame_is_reported_as_unreadable ReferenceJSON.JSON_parse "null"
              (final (on "error" (new (Config.mk "a" "b" None)))))
    as [E _]; [vm_compute; reflexivity|].
  rewrite E. vm_compute. reflexivity.
Defined.

(** ** [ping] and [startAutoPing] *)

Lemma ping_open o :
  socket_open o = true ->
  ping o = Return tt (log (SocketSend (frame_of (created "ping" JUndefined o)))
                        (set_correlationIdCounter (incr (correlationIdCounter o)) o)).
Proof.
  intros H. unfold ping. unfold bind at 1. rewrite createMessage_eq.
  rewrite send_open by exact H. reflexivity.
Qed.

Lemma ping_closed o :
  socket_open o = false ->
  ping o = Throw NOT_CONNECTED (set_correlationIdCounter (incr (correlationIdCounter o)) o).
Proof.
  intros H. unfold ping. unfold bind at 1. rewrite createMessage_eq.
  rewrite send_closed by exact H. reflexivity.
Qed.

(** X3.  On an open socket [ping()] sends one frame and returns; the
    frame reads as the envelope of a ping with the next correlation id
    and the tokens of the object, and it has no [payload] property at
    all.  The table is not touched. *)
Theorem ping_sends_an_envelope_without_payload o :
  socket_open o = true ->
  let r := ping o in
  let envelope :=
    JObject [ ("destination", JString "ping");
              ("correlationId", JString (Number_toString (incr (correlationIdCounter o))));
              ("cst", JString (cst o));
              ("securityToken", JString (securityToken o)) ] in
  returned r = true
  /\ (exists frame,
        trace (final r) = (trace o ++ [SocketSend frame])%list
        /\ ReferenceJSON.JSON_parse frame = inr envelope
        /\ property envelope "payload" = inr JUndefined)
  /\ subscriptions (final r) = subscriptions o
  /\ correlationIdCounter (final r) = incr (correlationIdCounter o).
Proof.
  intros H. cbv zeta. rewrite ping_open by exact H.
  split; [reflexivity|]. split; [|split; reflexivity].
  exists (frame_of (created "ping" JUndefined o)).
  split; [reflexivity|]. split; [|reflexivity].
  rewrite frame_decodes by reflexivity. reflexivity.
Qed.

Lemma ping_sends_an_envelope_without_payload_witness :
  let o := run ReferenceJSON.JSON_parse connects (new (Config.mk "a" "b" None)) in
  socket_open o = true
  /\ returned (ping o) = true
  /\ subscriptions (final (ping o)) = [].
Proof.
  cbv zeta. split; [vm_compute; reflexivity|].
  destruct (ping_sends_an_envelope_without_payload
              (run ReferenceJSON.JSON_parse connects (new (Config.mk "a" "b" None))))
    as [R [_ [S _]]]; [vm_compute; reflexivity|].
  split; [exact R|]. rewrite S. vm_compute. reflexivity.
Defined.

(** X4.  The callback of [startAutoPing] is guarded: when the interval
    fires on an object that is not connected to an open socket it does
    nothing, when it fires on a connected one it sends exactly the frame
    of one ping; it never throws, it leaves the table alone, and the
    interval stays armed.  [startAutoPing] itself arms one more interval
    at each call, 540000 ms apart unless told otherwise. *)
Theorem auto_ping_is_guarded parse o :
  timers_fresh o ->
  (forall interval,
     let o1 := final (startAutoPing interval o) in
     pending (timerSeq o) (timers o1) = Some AutoPing
     /\ timers o1 = (timers o ++ [(timerSeq o, AutoPing)])%list
     /\ trace o1 = (trace o ++ [SetTimer (timerSeq o) AutoPing
                                  (match interval with Some ms => ms | None => 540000 end)])%list)
  /\ (forall x id state,
        pending id (timers x) = Some AutoPing ->
        let r := step parse (Timer_fires id state) x in
        returned r = true
        /\ timers (final r) = timers x
        /\ subscriptions (final r) = subscriptions x
        /\ (isConnectedToServer x = false -> final r = x)
        /\ (isConnectedToServer x = true ->
            trace (final r)
            = (trace x ++ [SocketSend (frame_of (created "ping" JUndefined x))])%list)).
Proof.
  intros F. split.
  - intros interval. cbv zeta. unfold startAutoPing, modify. fields.
    split; [apply pending_fresh; exact F|]. split; reflexivity.
  - intros x id state P. cbv zeta. cbn [step]. unfold fire, bind, get. rewrite P.
    destruct (isConnectedToServer x) eqn:C.
    + assert (O : socket_open x = true).
      { unfold isConnectedToServer in C. apply andb_true_iff in C. tauto. }
      rewrite ping_open by exact O. fields.
      repeat split; try reflexivity. discriminate.
    + unfold ret. fields. repeat split; try reflexivity. discriminate.
Qed.

Lemma auto_ping_is_guarded_witness :
  let o := final (startAutoPing None (new (Config.mk "a" "b" None))) in
  timers_fresh (new (Config.mk "a" "b" None))
  /\ pending 0 (timers o) = Some AutoPing
  /\ final (step ReferenceJSON.JSON_parse (Timer_fires 0 CONNECTING) o) = o.
Proof.
  cbv zeta.
  assert (F : timers_fresh (new (Config.mk "a" "b" None))) by constructor.
  split; [exact F|].
  destruct (auto_ping_is_guarded ReferenceJSON.JSON_parse
              (new (Config.mk "a" "b" None)) F) as [A B].
  destruct (A None) as [P _]. split; [exact P|].
  destruct (B (final (startAutoPing None (new (Config.mk "a" "b" None)))) 0%nat CONNECTING P)
    as [_ [_ [_ [N _]]]].
  apply N. reflexivity.
Defined.

(** ** [disconnect] *)

Lemma disconnect_eq o :
  disconnect o =
  Return tt
    (set_subscriptions []
       (set_isConnected false
          (match ws o with
           | Some _ => set_ws None (log SocketClose o)
           | None => o
           end))).
Proof. unfold disconnect. monad. destruct (ws o); reflexivity. Qed.

(** X5.  [disconnect()] closes the socket if there is one, forgets it
    and empties the table, and never throws; a second call changes
    nothing more.  Afterwards the object is not connected, the subscribe
    methods throw, and a later connection has nothing to replay. *)
Theorem disconnect_forgets_the_socket_and_the_table parse o :
  let r := disconnect o in
  let o' := final r in
  returned r = true
  /\ (ws o' = None /\ isConnected o' = false /\ subscriptions o' = []
      /\ isConnectedToServer o' = false
      /\ getWebSocketState o' = None /\ (forall href, getWebSocketUrl href o' = None))
  /\ trace o' = (trace o ++ match ws o with Some _ => [SocketClose] | None => [] end)%list
  /\ final (disconnect o') = o'
  /\ (forall epics, throws_containing "not connected" (subscribeToMarketData epics o') = true)
  /\ frames (trace (run parse connects o')) = frames (trace o).
Proof.
  cbv zeta. rewrite disconnect_eq. fields.
  split; [reflexivity|]. split.
  { unfold isConnectedToServer, socket_open, getWebSocketState, getWebSocketUrl.
    destruct (ws o) eqn:W; fields; rewrite ?W; repeat split; intros; reflexivity. }
  split. { destruct (ws o) eqn:W; fields; [reflexivity|]. rewrite app_nil_r. reflexivity. }
  split. { rewrite disconnect_eq. destruct (ws o) eqn:W; fields; rewrite ?W; reflexivity. }
  split.
  { intros epics. rewrite subscribeToMarketData_eq. cbv zeta.
    rewrite send_closed; [reflexivity|].
    unfold socket_open. destruct (ws o) eqn:W; fields; rewrite ?W; reflexivity. }
  match goal with |- context [run parse connects ?x] =>
    destruct (connects_replay parse x) as [E _]; rewrite E end.
  fields. cbn [replay Map_values map]. rewrite app_nil_r.
  destruct (ws o) eqn:W; fields; [|reflexivity].
  rewrite frames_app. cbn. apply app_nil_r.
Qed.

(** ** [connect] and the reconnection timer *)

Lemma connect_eq state o :
  connect state o =
  let base := set_ws (Some (mkWebSocket (streamingUrl o) state))
                (log (NewSocket (streamingUrl o) (handshake (cst o) (securityToken o))) o) in
  Return tt (if state =? 1 then setTimer Opened 0 base
             else setTimer (Backup (timerSeq o)) 10000 (setTimer (Poll 0) 500 base)).
Proof. unfold connect. monad. destruct (state =? 1); reflexivity. Qed.

Lemma reconnect_fires_in parse o id interval state :
  timers_fresh o -> id = timerSeq o ->
  step parse (Timer_fires id state) (setTimer Reconnect interval o) =
  connect state (set_timers (timers o) (S id) (log (SetTimer id Reconnect interval) o)).
Proof.
  intros F ->. cbn [step]. unfold fire. monad. fields.
  rewrite pending_fresh by exact F. unfold expire. fields.
  rewrite without_fresh by exact F. reflexivity.
Qed.

Lemma sockets_app a b : sockets (a ++ b) = (sockets a ++ sockets b)%list.
Proof.
  induction a as [|e a IH]; simpl; auto.
  destruct e; simpl; rewrite ?IH; reflexivity.
Qed.

Lemma sockets_sent l : sockets (map SocketSend l) = [].
Proof. induction l; simpl; auto. Qed.

(** A close while the budget lasts, then the timer it set. *)
Lemma close_then_timer_reconnects parse o state :
  timers_fresh o ->
  reconnectAttempts o < maxReconnectAttempts o ->
  let o2 := final (step parse Socket_close o) in
  let o3 := final (step parse (Timer_fires (timerSeq o) state) o2) in
  pending (timerSeq o) (timers o2) = Some Reconnect
  /\ sockets (trace o3)
     = (sockets (trace o) ++ [(streamingUrl o, handshake (cst o) (securityToken o))])%list
  /\ ws o3 = Some (mkWebSocket (streamingUrl o) state)
  /\ subscriptions o3 = subscriptions o.
Proof.
  intros F L. cbv zeta. rewrite socket_closes_retry by exact L. fields.
  split; [apply pending_fresh; exact F|].
  match goal with |- context [step parse (Timer_fires ?i state) ?x] =>
    change x with
      (setTimer Reconnect (reconnectInterval o)
         (set_reconnectAttempts (incr (reconnectAttempts o))
            (log (Emit "disconnect" NoArg)
               (set_isConnected false (set_readyState CLOSED o)))))
  end.
  rewrite reconnect_fires_in; [|unfold set_readyState; fields; exact F|reflexivity].
  rewrite connect_eq. cbv zeta. unfold set_readyState.
  destruct (state =? 1); fields; (split; [|split; reflexivity]);
    rewrite !sockets_app; cbn; rewrite !app_nil_r; reflexivity.
Qed.

(** X6.  [disconnect()] clears no timer and does not stop the
    reconnection: a reconnection that was pending stays pending, and
    when the close of the socket is delivered after [disconnect()] while
    the budget lasts, the handler schedules a reconnection as after any
    close; the timer then constructs a new socket for the same URL,
    with an empty table. *)
Theorem disconnect_does_not_stop_reconnection parse o state :
  timers_fresh o ->
  reconnectAttempts o < maxReconnectAttempts o ->
  let o1 := final (disconnect o) in
  let o2 := final (step parse Socket_close o1) in
  let o3 := final (step parse (Timer_fires (timerSeq o) state) o2) in
  timers o1 = timers o
  /\ pending (timerSeq o) (timers o2) = Some Reconnect
  /\ sockets (trace o3)
     = (sockets (trace o) ++ [(streamingUrl o, handshake (cst o) (securityToken o))])%list
  /\ ws o3 = Some (mkWebSocket (streamingUrl o) state)
  /\ subscriptions o3 = [].
Proof.
  intros F L. cbv zeta. rewrite disconnect_eq.
  destruct (ws o) eqn:W; fields.
  - set (o1 := set_subscriptions [] (set_isConnected false (set_ws None (log SocketClose o)))).
    pose proof (close_then_timer_reconnects parse o1 state F L) as H. cbv zeta in H.
    change (timerSeq o1) with (timerSeq o) in H. destruct H as [P [S [X T]]].
    split; [reflexivity|]. split; [exact P|]. split; [|split; [exact X|exact T]].
    rewrite S. unfold o1. fields. rewrite sockets_app. cbn. rewrite app_nil_r. reflexivity.
  - set (o1 := set_subscriptions [] (set_isConnected false o)).
    pose proof (close_then_timer_reconnects parse o1 state F L) as H. cbv zeta in H.
    change (timerSeq o1) with (timerSeq o) in H. destruct H as [P [S [X T]]].
    split; [reflexivity|]. split; [exact P|]. split; [|split; [exact X|exact T]].
    rewrite S. reflexivity.
Qed.

Lemma disconnect_does_not_stop_reconnection_witness :
  let o := run ReferenceJSON.JSON_parse connects (new (Config.mk "a" "b" None)) in
  let o3 := final (step ReferenceJSON.JSON_parse (Timer_fires (timerSeq o) CONNECTING)
                     (final (step ReferenceJSON.JSON_parse Socket_close
                               (final (disconnect o))))) in
  timers_fresh o
  /\ reconnectAttempts o < maxReconnectAttempts o
  /\ sockets (trace o3)
     = (sockets (trace o) ++ [(streamingUrl o, handshake (cst o) (securityToken o))])%list.
Proof.
  cbv zeta.
  assert (F : timers_fresh (run ReferenceJSON.JSON_parse connects (new (Config.mk "a" "b" None)))).
  { vm_compute. repeat constructor. }
  assert (L : reconnectAttempts (run ReferenceJSON.JSON_parse connects (new (Config.mk "a" "b" None)))
              < maxReconnectAttempts
                  (run ReferenceJSON.JSON_parse connects (new (Config.mk "a" "b" None)))).
  { vm_compute. reflexivity. }
  split; [exact F|]. split; [exact L|].
  exact (proj1 (proj2 (proj2
    (disconnect_does_not_stop_reconnection ReferenceJSON.JSON_parse _ CONNECTING F L)))).
Defined.

(** X7.  [connect()] calls the constructor of the socket with the
    streaming URL of the object and with the tokens the object holds at
    that moment: after [updateTokens(c, s)] the headers of the next
    handshake carry [c] and [s], whether the caller connects or a
    reconnection that was already pending fires.  [connect()] returns,
    does not close the socket it replaces and leaves [isConnected] as
    it was. *)
Theorem handshake_presents_the_current_tokens parse o c s state :
  let o1 := final (updateTokens c s o) in
  (let r := connect state o1 in
   returned r = true
   /\ sockets (trace (final r))
      = (sockets (trace o) ++ [(streamingUrl o, handshake c s)])%list
   /\ count is_close_of_socket (trace (final r)) = count is_close_of_socket (trace o)
   /\ isConnected (final r) = isConnected o)
  /\ (forall id,
        pending id (timers o) = Some Reconnect ->
        sockets (trace (final (step parse (Timer_fires id state) o1)))
        = (sockets (trace o) ++ [(streamingUrl o, handshake c s)])%list).
Proof.
  cbv zeta. unfold updateTokens, modify. fields. split.
  - rewrite connect_eq. cbv zeta. fields.
    destruct (state =? 1); fields; rewrite !sockets_app, !count_app; cbn;
      rewrite ?app_nil_r, ?Nat.add_0_r; repeat split; reflexivity.
  - intros id P. cbn [step]. unfold fire, bind, get, modify. fields. rewrite P.
    rewrite connect_eq. cbv zeta. fields.
    destruct (state =? 1); fields; rewrite !sockets_app; cbn;
      rewrite ?app_nil_r; reflexivity.
Qed.

(** ** The timers of [connect] *)

(** [fields], and the state of the socket too. *)
Ltac socket :=
  cbn [ws cst securityToken streamingUrl correlationIdCounter reconnectInterval
       maxReconnectAttempts reconnectAttempts isConnected subscriptions listeners
       timers timerSeq trace
       set_ws set_tokens set_correlationIdCounter set_reconnectAttempts
       set_isConnected set_subscriptions set_listeners set_timers set_trace
       log setTimer expire clearTimer reschedule final returned thrown
       socket_open isConnectedToServer readyState address option_map set_readyState
       OPEN CONNECTING CLOSED CLOSING Z.eqb Pos.eqb andb] in *.

Lemma pending_app id ts rest :
  Forall (fun p => (fst p < id)%nat) ts -> pending id (ts ++ rest) = pending id rest.
Proof.
  induction 1 as [|[i c] ts Hi _ IH]; simpl; [reflexivity|].
  simpl in Hi. replace (Nat.eqb i id) with false; [exact IH|].
  symmetry. apply Nat.eqb_neq. lia.
Qed.

Lemma without_app id ts rest :
  Forall (fun p => (fst p < id)%nat) ts -> without id (ts ++ rest) = (ts ++ without id rest)%list.
Proof.
  unfold without. induction 1 as [|[i c] ts Hi _ IH]; simpl; [reflexivity|].
  simpl in Hi. replace (Nat.eqb i id) with false; [simpl; rewrite IH; reflexivity|].
  symmetry. apply Nat.eqb_neq. lia.
Qed.

Lemma without_absent id ts :
  Forall (fun p => (fst p < id)%nat) ts -> without id ts = ts.
Proof.
  intros F. rewrite <- (app_nil_r ts) at 1. rewrite without_app by exact F.
  apply app_nil_r.
Qed.

Lemma fresh_weaken seq ts :
  Forall (fun p : nat * Timer => (fst p < seq)%nat) ts ->
  Forall (fun p : nat * Timer => (fst p < S seq)%nat) ts.
Proof. intros F. eapply Forall_impl; [|exact F]. simpl. intros. lia. Qed.

Lemma poll_fires_open parse x id n state :
  pending id (timers x) = Some (Poll n) -> socket_open x = true ->
  step parse (Timer_fires id state) x = onOpen (clearTimer id x).
Proof.
  intros P O. cbn [step]. unfold fire, bind, get, modify. rewrite P, O. reflexivity.
Qed.

Lemma poll_fires_closed parse x id n state :
  pending id (timers x) = Some (Poll n) -> socket_open x = false ->
  step parse (Timer_fires id state) x
  = Return tt (if incr n >=? 20 then clearTimer id x else reschedule id (Poll (incr n)) x).
Proof.
  intros P O. cbn [step]. unfold fire, bind, get, modify. rewrite P, O.
  destruct (incr n >=? 20); reflexivity.
Qed.

Lemma backup_fires parse x id p state :
  pending id (timers x) = Some (Backup p) ->
  step parse (Timer_fires id state) x
  = if socket_open x then onOpen (clearTimer p (expire id x))
    else Return tt (clearTimer p (expire id x)).
Proof.
  intros P. cbn [step]. unfold fire, bind, get, modify, ret. rewrite P.
  destruct (socket_open x); reflexivity.
Qed.

Lemma poll_cleared n ts (poll callback : Timer) :
  Forall (fun p => (fst p < n)%nat) ts ->
  without n ((ts ++ [(n, poll)]) ++ [(S n, callback)]) = (ts ++ [(S n, callback)])%list.
Proof.
  intros F. rewrite <- app_assoc, without_app by exact F. cbn [app].
  unfold without. cbn [filter fst negb]. rewrite Nat.eqb_refl.
  replace (Nat.eqb (S n) n) with false by (symmetry; apply Nat.eqb_neq; lia).
  reflexivity.
Qed.

Lemma count_nil p : count p [] = 0%nat.
Proof. reflexivity. Qed.

Lemma count_one p e es :
  count p (es ++ [e]) = ((if p e then 1 else 0) + count p es)%nat.
Proof.
  rewrite count_app, count_cons. unfold count at 2. simpl.
  rewrite Nat.add_0_r. apply Nat.add_comm.
Qed.

(** X8.  One opening of the socket runs the open handler three times.
    The interval and the timeout [connect()] sets are not cleared when
    the socket opens, so the first tick of the interval and, after 10 s,
    the timeout each find the socket open and call the handler again:
    ['connect'] is emitted three times and the whole table is sent three
    times.  Both timers are gone afterwards. *)
Theorem one_opening_runs_the_open_handler_three_times parse o :
  timers_fresh o ->
  let o' := run parse [ Call_connect CONNECTING; Socket_open;
                        Timer_fires (timerSeq o) CONNECTING;
                        Timer_fires (S (timerSeq o)) CONNECTING ] o in
  frames (trace o')
  = (frames (trace o) ++ replay (subscriptions o) ++ replay (subscriptions o)
       ++ replay (subscriptions o))%list
  /\ count (emitted "connect") (trace o') = (3 + count (emitted "connect") (trace o))%nat
  /\ count is_new_socket (trace o') = S (count is_new_socket (trace o))
  /\ timers o' = timers o
  /\ subscriptions o' = subscriptions o.
Proof.
  intros F. cbv zeta. cbn [run].
  change (step parse (Call_connect CONNECTING) o) with (connect CONNECTING o).
  rewrite connect_connecting. fields.
  rewrite socket_opens by (fields; discriminate). cbv zeta. unfold set_readyState. fields.
  cbn [option_map address].
  rewrite (poll_fires_open parse _ (timerSeq o) 0 CONNECTING);
    [|fields; rewrite <- app_assoc, pending_app by exact F; cbn;
      rewrite Nat.eqb_refl; reflexivity
     |reflexivity].
  rewrite onOpen_open by reflexivity. fields.
  rewrite (backup_fires parse _ (S (timerSeq o)) (timerSeq o) CONNECTING);
    [|fields; rewrite poll_cleared by exact F;
      apply pending_fresh, fresh_weaken; exact F].
  socket.
  rewrite onOpen_open by reflexivity. fields.
  rewrite poll_cleared by exact F.
  rewrite (without_fresh (S (timerSeq o))) by (apply fresh_weaken; exact F).
  rewrite without_absent by exact F.
  split; [|split; [|split; [|split; reflexivity]]].
  - rewrite !frames_app. cbn. rewrite !frames_sent, !app_nil_r, <- !app_assoc. reflexivity.
  - rewrite !count_app, !count_cons, !count_sent, !count_nil by reflexivity.
    cbn -[count]. lia.
  - rewrite !count_app, !count_cons, !count_sent, !count_nil by reflexivity.
    cbn -[count]. lia.
Qed.

Lemma one_opening_runs_the_open_handler_three_times_witness :
  let o := final (subscribeToMarketData ["GOLD"] (new (Config.mk "a" "b" None))) in
  timers_fresh o
  /\ count (emitted "connect")
       (trace (run ReferenceJSON.JSON_parse
                 [ Call_connect CONNECTING; Socket_open;
                   Timer_fires (timerSeq o) CONNECTING;
                   Timer_fires (S (timerSeq o)) CONNECTING ] o))
     = (3 + count (emitted "connect") (trace o))%nat.
Proof.
  cbv zeta.
  assert (F : timers_fresh
                (final (subscribeToMarketData ["GOLD"] (new (Config.mk "a" "b" None)))))
    by constructor.
  split; [exact F|].
  exact (proj1 (proj2
    (one_opening_runs_the_open_handler_three_times ReferenceJSON.JSON_parse _ F))).
Defined.

Lemma reschedule_poll id ts (poll poll' callback : Timer) :
  Forall (fun p => (fst p < id)%nat) ts ->
  map (fun p : nat * Timer => if Nat.eqb (fst p) id then (id, poll') else p)
      ((ts ++ [(id, poll)]) ++ [(S id, callback)])
  = ((ts ++ [(id, poll')]) ++ [(S id, callback)])%list.
Proof.
  intros F. rewrite !map_app. cbn [map fst]. rewrite Nat.eqb_refl.
  replace (Nat.eqb (S id) id) with false by (symmetry; apply Nat.eqb_neq; lia).
  f_equal. f_equal. induction F as [|[i c] ts Hi _ IH]; simpl; [reflexivity|].
  simpl in Hi. replace (Nat.eqb i id) with false by (symmetry; apply Nat.eqb_neq; lia).
  rewrite IH. reflexivity.
Qed.

(** While the socket does not open, the [k]-th tick of the interval of
    [connect()] only counts. *)
Lemma polling_counts parse o k :
  timers_fresh o -> (k < 20)%nat ->
  Nat.iter k (tick parse (timerSeq o)) (final (connect CONNECTING o))
  = set_timers ((timers o ++ [(timerSeq o, Poll (Z.of_nat k))])
                  ++ [(S (timerSeq o), Backup (timerSeq o))])
      (S (S (timerSeq o))) (final (connect CONNECTING o)).
Proof.
  intros F. induction k as [|k IH]; intros K.
  - rewrite connect_connecting. reflexivity.
  - rewrite Nat.iter_succ, IH by lia. unfold tick.
    rewrite (poll_fires_closed parse _ _ (Z.of_nat k));
      [|rewrite connect_connecting; fields; rewrite <- app_assoc, pending_app by exact F;
        cbn; rewrite Nat.eqb_refl; reflexivity
       |rewrite connect_connecting; reflexivity].
    assert (I : incr (Z.of_nat k) = Z.of_nat (S k)).
    { rewrite incr_small; [lia|]. unfold MAX_EXACT. split; [lia|].
      apply Z.lt_le_trans with 20; [lia|]. apply Z.leb_le. reflexivity. }
    rewrite I. replace (Z.of_nat (S k) >=? 20) with false
      by (symmetry; rewrite Z.geb_leb; apply Z.leb_gt; lia).
    fields. rewrite connect_connecting. fields.
    unfold reschedule. fields. rewrite reschedule_poll by exact F. reflexivity.
Qed.

(** X9.  While the socket does not open, the interval [connect()] sets
    ticks twenty times and then clears itself without ever calling the
    open handler; the timeout of 10 s, whether it fires after the
    twentieth tick or before it, clears what is left, and the timers of
    this [connect()] are gone. *)
Theorem polling_stops_after_twenty_ticks parse o :
  timers_fresh o ->
  let id := timerSeq o in
  let o1 := final (connect CONNECTING o) in
  (forall k, (k < 20)%nat ->
     let x := Nat.iter k (tick parse id) o1 in
     pending id (timers x) = Some (Poll (Z.of_nat k))
     /\ trace x = trace o1 /\ isConnected x = isConnected o
     /\ timers (tick parse (S id) x) = timers o)
  /\ (let x := Nat.iter 20 (tick parse id) o1 in
      pending id (timers x) = None
      /\ trace x = (trace o1 ++ [ClearTimer id])%list
      /\ isConnected x = isConnected o
      /\ count (emitted "connect") (trace x) = count (emitted "connect") (trace o)
      /\ timers (tick parse (S id) x) = timers o).
Proof.
  intros F. cbv zeta. split.
  - intros k K. rewrite polling_counts by assumption. fields.
    split; [|split; [reflexivity|split; [rewrite connect_connecting; reflexivity|]]].
    + rewrite <- app_assoc, pending_app by exact F. cbn. rewrite Nat.eqb_refl. reflexivity.
    + unfold tick.
      rewrite (backup_fires parse _ (S (timerSeq o)) (timerSeq o));
        [|fields; apply pending_fresh, fresh_next; exact F].
      rewrite connect_connecting. socket.
      rewrite (without_fresh (S (timerSeq o))) by (apply fresh_next; exact F).
      apply without_fresh. exact F.
  - rewrite (Nat.iter_succ 19). rewrite (polling_counts parse o 19) by (exact F || lia).
    unfold tick.
    rewrite (poll_fires_closed parse _ _ (Z.of_nat 19));
      [|rewrite connect_connecting; fields; rewrite <- app_assoc, pending_app by exact F;
        cbn; rewrite Nat.eqb_refl; reflexivity
       |rewrite connect_connecting; reflexivity].
    change (incr (Z.of_nat 19) >=? 20) with true. cbv iota.
    rewrite connect_connecting. fields. rewrite poll_cleared by exact F.
    split; [|split; [reflexivity|split; [reflexivity|split]]].
    + rewrite pending_app by exact F. cbn [pending].
      replace (Nat.eqb (S (timerSeq o)) (timerSeq o)) with false
        by (symmetry; apply Nat.eqb_neq; lia).
      reflexivity.
    + rewrite !count_app, !count_cons, !count_nil. cbn -[count]. lia.
    + rewrite (backup_fires parse _ (S (timerSeq o)) (timerSeq o));
        [|fields; rewrite poll_cleared by exact F; apply pending_fresh, fresh_weaken; exact F].
      socket. rewrite poll_cleared by exact F.
      rewrite (without_fresh (S (timerSeq o))) by (apply fresh_weaken; exact F).
      apply without_absent. exact F.
Qed.

Lemma polling_stops_after_twenty_ticks_witness :
  let o := new (Config.mk "a" "b" None) in
  timers_fresh o
  /\ timers (tick ReferenceJSON.JSON_parse 1
               (Nat.iter 20 (tick ReferenceJSON.JSON_parse 0) (final (connect CONNECTING o))))
     = [].
Proof.
  cbv zeta.
  assert (F : timers_fresh (new (Config.mk "a" "b" None))) by constructor.
  split; [exact F|].
  exact (proj2 (proj2 (proj2 (proj2 (proj2
    (polling_stops_after_twenty_ticks ReferenceJSON.JSON_parse _ F)))))).
Defined.

Lemma onOpen_empty o :
  subscriptions o = [] ->
  onOpen o = Return tt (log (Emit "connect" NoArg)
                          (set_reconnectAttempts 0 (set_isConnected true o))).
Proof.
  intros E. unfold onOpen. monad. rewrite emit_event by reflexivity. fields.
  rewrite E. reflexivity.
Qed.

(** X10.  The callbacks of the timers do not throw: the reconnection,
    the interval and the timeout of [connect()] and the auto-ping each
    return whatever the state of the object, since each looks at the
    socket before it sends.  The one callback that does not look, the
    one [connect()] sets when the socket is open as soon as it is
    constructed, returns when the socket is still open or the table is
    empty. *)
Theorem timer_callbacks_return parse o id state :
  (pending id (timers o) = Some Opened -> socket_open o = true \/ subscriptions o = []) ->
  returned (step parse (Timer_fires id state) o) = true.
Proof.
  intros H. cbn [step]. unfold fire, bind, get, modify, ret.
  destruct (pending id (timers o)) as [[| |pollCount|pollInterval|]|] eqn:P.
  - rewrite connect_eq. reflexivity.
  - destruct (H eq_refl) as [O|E].
    + rewrite onOpen_open by exact O. reflexivity.
    + rewrite onOpen_empty by exact E. reflexivity.
  - destruct (socket_open o) eqn:O.
    + rewrite onOpen_open by exact O. reflexivity.
    + destruct (incr pollCount >=? 20); reflexivity.
  - destruct (socket_open o) eqn:O.
    + rewrite onOpen_open by exact O. reflexivity.
    + reflexivity.
  - destruct (isConnectedToServer o) eqn:C; [|reflexivity].
    rewrite ping_open; [reflexivity|].
    unfold isConnectedToServer in C. apply andb_true_iff in C. tauto.
  - reflexivity.
Qed.

Lemma timer_callbacks_return_witness :
  let o := run ReferenceJSON.JSON_parse
             [ Call_subscribeToMarketData ["GOLD"]; Call_connect CONNECTING; Socket_open;
               Socket_close ]
             (new (Config.mk "a" "b" None)) in
  pending 0 (timers o) = Some (Poll 0)
  /\ returned (step ReferenceJSON.JSON_parse (Timer_fires 0 CONNECTING) o) = true.
Proof.
  cbv zeta. split; [vm_compute; reflexivity|].
  apply timer_callbacks_return. vm_compute. discriminate.
Defined.

(** ** The keys of the table *)

Lemma append_cancel (a x y : string) : (a ++ x = a ++ y)%string -> x = y.
Proof. induction a as [|c a IH]; simpl; intros H; [exact H|]. injection H. exact IH. Qed.

Lemma ohlc_keys_differ epics resolutions type types :
  unsubscribe_ohlc_key epics resolutions types = subscribe_ohlc_key epics resolutions type
  <-> or_else (option_map (fun ts => join "," (map CandleType_text ts)) types) "classic"
      = or_else (option_map CandleType_text type) "classic".
Proof.
  unfold unsubscribe_ohlc_key, subscribe_ohlc_key. split.
  - intros H. do 5 apply append_cancel in H. exact H.
  - intros ->. reflexivity.
Qed.

Lemma Map_has_delete key key' m :
  Map_has key (Map_delete key' m) = if (key' =? key)%string then false else Map_has key m.
Proof.
  unfold Map_has. destruct (key' =? key)%string eqn:E.
  - apply String.eqb_eq in E. subst. rewrite Map_get_delete. reflexivity.
  - apply String.eqb_neq in E. rewrite Map_get_delete_other by congruence. reflexivity.
Qed.

Lemma Map_has_set key value m : Map_has key (Map_set key value m) = true.
Proof. unfold Map_has. rewrite Map_get_set. reflexivity. Qed.

(** X11.  [unsubscribeFromOHLCData] finds the entry of a subscription by
    the text of its [types]: the entry made with a [type] is removed
    exactly when the [types] of the call, joined by commas (['classic']
    when there are none), spell that type (['classic'] when there was
    none).  So a call without [types] removes a classic subscription and
    leaves a heikin-ashi one in the table, and a call that names both
    types removes neither. *)
Theorem ohlc_unsubscribe_matches_the_type_by_name o epics resolutions type types :
  let key := subscribe_ohlc_key epics resolutions type in
  let o1 := final (subscribeToOHLCData epics resolutions type o) in
  let o2 := final (unsubscribeFromOHLCData epics resolutions types o1) in
  Map_has key (subscriptions o1) = true
  /\ Map_has key (subscriptions o2)
     = negb (or_else (option_map (fun ts => join "," (map CandleType_text ts)) types) "classic"
             =? or_else (option_map CandleType_text type) "classic")%string
  /\ (types = None \/ types = Some [] ->
      Map_has key (subscriptions o2)
      = match type with Some heikin_ashi => true | _ => false end)
  /\ (types = Some [classic; heikin_ashi] -> Map_has key (subscriptions o2) = true)
  /\ (type = Some heikin_ashi -> types = None ->
      Map_get key (subscriptions o2)
      = Some (created "OHLCMarketData.subscribe" (ohlc_payload epics resolutions type) o)).
Proof.
  cbv zeta.
  rewrite unsubscribeFromOHLCData_subscriptions, subscribeToOHLCData_subscriptions.
  assert (G : Map_has (subscribe_ohlc_key epics resolutions type)
                (Map_delete (unsubscribe_ohlc_key epics resolutions types)
                   (Map_set (subscribe_ohlc_key epics resolutions type)
                      (created "OHLCMarketData.subscribe"
                         (ohlc_payload epics resolutions type) o) (subscriptions o)))
              = negb (or_else (option_map (fun ts => join "," (map CandleType_text ts)) types)
                              "classic"
                      =? or_else (option_map CandleType_text type) "classic")%string).
  { rewrite Map_has_delete, Map_has_set.
    destruct (String.eqb_spec (unsubscribe_ohlc_key epics resolutions types)
                              (subscribe_ohlc_key epics resolutions type)) as [E|E].
    - apply ohlc_keys_differ in E. rewrite E, String.eqb_refl. reflexivity.
    - destruct (String.eqb_spec
                  (or_else (option_map (fun ts => join "," (map CandleType_text ts)) types)
                           "classic")
                  (or_else (option_map CandleType_text type) "classic")) as [Y|Y];
        [|reflexivity].
      apply (proj2 (ohlc_keys_differ epics resolutions type types)) in Y. contradiction. }
  split; [apply Map_has_set|]. split; [exact G|]. split; [|split].
  - intros [->| ->]; rewrite G; destruct type as [[|]|]; reflexivity.
  - intros ->. rewrite G. destruct type as [[|]|]; reflexivity.
  - intros -> ->. rewrite Map_get_delete_other; [apply Map_get_set|].
    intros E. symmetry in E. apply ohlc_keys_differ in E. discriminate E.
Qed.

Lemma Map_set_present key value m :
  Map_get key m <> None -> map fst (Map_set key value m) = map fst m.
Proof.
  induction m as [|[k v] m IH]; simpl; [congruence|].
  destruct (k =? key)%string eqn:E; simpl; [reflexivity|].
  intros H. rewrite IH by exact H. reflexivity.
Qed.

Lemma Map_set_twice key v1 v2 m :
  map fst (Map_set key v2 (Map_set key v1 m)) = map fst (Map_set key v1 m).
Proof. apply Map_set_present. rewrite Map_get_set. discriminate. Qed.

Lemma replay_length m : List.length (replay m) = List.length (map fst m).
Proof. unfold replay, Map_values. rewrite !length_map. reflexivity. Qed.

(** X12.  Subscribing again under a key that is in the table replaces
    the message of the entry and keeps its place: the table has the
    same keys in the same order, the entry holds the message of the
    later call, the other entries are as they were, and a replay sends
    as many frames as before.  A candle subscription with an empty list
    of resolutions has the key of one without resolutions, and takes
    its place. *)
Theorem resubscribing_replaces_the_entry_in_place o epics resolutions type :
  (let key := marketData_key epics in
   let o1 := final (subscribeToMarketData epics o) in
   let o2 := final (subscribeToMarketData epics o1) in
   map fst (subscriptions o2) = map fst (subscriptions o1)
   /\ Map_get key (subscriptions o2)
      = Some (created "marketData.subscribe" (marketData_payload epics) o1)
   /\ (forall other, other <> key ->
         Map_get other (subscriptions o2) = Map_get other (subscriptions o1))
   /\ List.length (replay (subscriptions o2)) = List.length (replay (subscriptions o1)))
  /\
  (let key := subscribe_ohlc_key epics resolutions type in
   let o1 := final (subscribeToOHLCData epics resolutions type o) in
   let o2 := final (subscribeToOHLCData epics resolutions type o1) in
   map fst (subscriptions o2) = map fst (subscriptions o1)
   /\ Map_get key (subscriptions o2)
      = Some (created "OHLCMarketData.subscribe" (ohlc_payload epics resolutions type) o1)
   /\ (forall other, other <> key ->
         Map_get other (subscriptions o2) = Map_get other (subscriptions o1))
   /\ List.length (replay (subscriptions o2)) = List.length (replay (subscriptions o1)))
  /\
  (let o1 := final (subscribeToOHLCData epics None type o) in
   let o2 := final (subscribeToOHLCData epics (Some []) type o1) in
   subscribe_ohlc_key epics (Some []) type = subscribe_ohlc_key epics None type
   /\ map fst (subscriptions o2) = map fst (subscriptions o1)
   /\ Map_get (subscribe_ohlc_key epics None type) (subscriptions o2)
      = Some (created "OHLCMarketData.subscribe" (ohlc_payload epics (Some []) type) o1)).
Proof.
  cbv zeta. split; [|split].
  - rewrite !subscribeToMarketData_subscriptions.
    split; [apply Map_set_twice|]. split; [apply Map_get_set|]. split.
    + intros other N. apply Map_get_set_other. exact N.
    + rewrite !replay_length, Map_set_twice. reflexivity.
  - rewrite !subscribeToOHLCData_subscriptions.
    split; [apply Map_set_twice|]. split; [apply Map_get_set|]. split.
    + intros other N. apply Map_get_set_other. exact N.
    + rewrite !replay_length, Map_set_twice. reflexivity.
  - rewrite !subscribeToOHLCData_subscriptions.
    assert (K : subscribe_ohlc_key epics (Some []) type = subscribe_ohlc_key epics None type)
      by reflexivity.
    split; [exact K|]. rewrite K. split; [apply Map_set_twice|apply Map_get_set].
Qed.

(** ** What every call, event and timer keeps *)

Lemma send_final message o :
  final (send message o)
  = if socket_open o then log (SocketSend (frame_of message)) o else o.
Proof. unfold send. destruct (socket_open o); reflexivity. Qed.

Lemma replay_closed (m : Map) o :
  socket_open o = false -> final (forEach (fun entry => send (snd entry)) m o) = o.
Proof.
  intros H. destruct m as [|[k v] m]; [reflexivity|].
  cbn [forEach snd]. unfold bind. rewrite send_closed by exact H. reflexivity.
Qed.

Lemma onOpen_final o :
  final (onOpen o)
  = set_trace (trace o ++ Emit "connect" NoArg
                 :: (if socket_open o then map SocketSend (replay (subscriptions o)) else []))
      (set_reconnectAttempts 0 (set_isConnected true o)).
Proof.
  destruct (socket_open o) eqn:O.
  - rewrite onOpen_open by exact O. reflexivity.
  - unfold onOpen. monad. rewrite emit_event by reflexivity. fields.
    rewrite replay_closed by exact O. reflexivity.
Qed.

Lemma onClose_final o :
  final (onClose o)
  = if reconnectAttempts o <? maxReconnectAttempts o
    then setTimer Reconnect (reconnectInterval o)
           (set_reconnectAttempts (incr (reconnectAttempts o))
              (log (Emit "disconnect" NoArg) (set_isConnected false o)))
    else log (Emit "error" (Failure MAX_ATTEMPTS_REACHED))
           (log (Emit "disconnect" NoArg) (set_isConnected false o)).
Proof.
  unfold onClose. monad. rewrite emit_event by reflexivity. fields.
  destruct (reconnectAttempts o <? maxReconnectAttempts o); [reflexivity|].
  apply final_emit.
Qed.

Lemma allowed_replay o (m : Map) :
  Forall (fun entry => plain (Msg.payload (snd entry)) = true) m ->
  Forall (allowed o) (map SocketSend (replay m)).
Proof.
  unfold replay, Map_values. induction 1 as [|[k v] m H _ IH]; simpl; constructor; auto.
  exists v. split; [exact H|reflexivity].
Qed.

Ltac steady := split; [reflexivity|split; [reflexivity|left; reflexivity]].

Ltac quietly :=
  unfold grows; fields;
  split; [exists []; split; [symmetry; apply app_nil_r|constructor]|steady].

Lemma grows_refl o : grows o o.
Proof.
  split; [|steady]. exists []. split; [symmetry; apply app_nil_r|constructor].
Qed.

Lemma grows_opened o x :
  sound o ->
  trace x = trace o -> streamingUrl x = streamingUrl o ->
  reconnectInterval x = reconnectInterval o ->
  correlationIdCounter x = correlationIdCounter o ->
  subscriptions x = subscriptions o ->
  grows o (final (onOpen x)).
Proof.
  intros [_ [_ [_ [_ P]]]] T U R C S. rewrite onOpen_final. unfold grows. fields.
  split; [|split; [exact U|split; [exact R|left; exact C]]].
  eexists. split; [rewrite T; reflexivity|].
  constructor; [exact I|]. destruct (socket_open x); [|constructor].
  rewrite S. apply allowed_replay. exact P.
Qed.

Lemma grows_connected state o x :
  trace x = trace o -> streamingUrl x = streamingUrl o ->
  reconnectInterval x = reconnectInterval o ->
  correlationIdCounter x = correlationIdCounter o ->
  cst x = cst o -> securityToken x = securityToken o ->
  grows o (final (connect state x)).
Proof.
  intros T U R C A B. rewrite connect_eq. cbv zeta.
  unfold grows.
  destruct (state =? 1); fields;
    (split; [|split; [exact U|split; [exact R|left; exact C]]]);
    rewrite T, U, A, B, <- ?app_assoc; eexists; (split; [reflexivity|]);
    repeat constructor.
Qed.

Lemma grows_pinged o :
  grows o (final (ping o)).
Proof.
  destruct (socket_open o) eqn:O.
  - rewrite ping_open by exact O. unfold grows. fields.
    split; [|split; [reflexivity|split; [reflexivity|right; reflexivity]]].
    eexists. split; [reflexivity|]. constructor; [|constructor].
    eexists. split; [|reflexivity]. reflexivity.
  - rewrite ping_closed by exact O. unfold grows. fields.
    split; [|split; [reflexivity|split; [reflexivity|right; reflexivity]]].
    exists []. split; [symmetry; apply app_nil_r|constructor].
Qed.

Lemma grows_sent o message x :
  plain (Msg.payload message) = true ->
  trace x = trace o -> streamingUrl x = streamingUrl o ->
  reconnectInterval x = reconnectInterval o ->
  correlationIdCounter x = incr (correlationIdCounter o) ->
  grows o (final (send message x)).
Proof.
  intros P T U R C. rewrite send_final. unfold grows.
  destruct (socket_open x); fields;
    (split; [|split; [exact U|split; [exact R|right; exact C]]]); rewrite T.
  - eexists. split; [reflexivity|]. constructor; [|constructor].
    exists message. split; [exact P|reflexivity].
  - exists []. split; [symmetry; apply app_nil_r|constructor].
Qed.

Lemma grows_fire id state o : sound o -> grows o (final (fire id state o)).
Proof.
  intros H. unfold fire, bind, get, modify, ret.
  destruct (pending id (timers o)) as [[| |pollCount|pollInterval|]|] eqn:E;
    try apply grows_refl; fields.
  - apply grows_connected; reflexivity.
  - apply grows_opened; try reflexivity. exact H.
  - destruct (socket_open o) eqn:O.
    + rewrite onOpen_final.
      change (socket_open (clearTimer id o)) with (socket_open o). rewrite O.
      unfold grows. fields.
      split; [|steady]. eexists. split; [rewrite <- app_assoc; reflexivity|].
      constructor; [exact I|]. constructor; [exact I|].
      apply allowed_replay. apply H.
    + destruct (incr pollCount >=? 20); [|quietly].
      unfold grows. fields.
      split; [|steady]. eexists. split; [reflexivity|]. repeat constructor.
  - destruct (socket_open o) eqn:O.
    + rewrite onOpen_final.
      change (socket_open (clearTimer pollInterval (expire id o))) with (socket_open o).
      rewrite O. unfold grows. fields.
      split; [|steady]. eexists. split; [rewrite <- app_assoc; reflexivity|].
      constructor; [exact I|]. constructor; [exact I|].
      apply allowed_replay. apply H.
    + unfold grows. fields.
      split; [|steady]. eexists. split; [reflexivity|]. repeat constructor.
  - destruct (isConnectedToServer o); [apply grows_pinged|apply grows_refl].
Qed.

(** Whatever happens to a sound object extends its log by effects that
    are allowed, and leaves its URL and its delay alone. *)
Lemma grows_step parse a o : sound o -> grows o (final (step parse a o)).
Proof.
  intros H. destruct a; cbn [step].
  - unfold on, modify. quietly.
  - apply grows_connected; reflexivity.
  - rewrite disconnect_eq. destruct (ws o) eqn:W; [|quietly].
    unfold grows. fields.
    split; [|steady]. eexists. split; [reflexivity|]. repeat constructor.
  - rewrite subscribeToMarketData_eq. cbv zeta.
    apply grows_sent; try reflexivity. apply plain_marketData_payload.
  - rewrite unsubscribeFromMarketData_eq. cbv zeta.
    apply grows_sent; try reflexivity. apply plain_marketData_payload.
  - rewrite subscribeToOHLCData_eq. cbv zeta.
    apply grows_sent; try reflexivity. apply plain_ohlc_payload.
  - unfold unsubscribeFromOHLCData. unfold bind at 1. rewrite createMessage_eq.
    unfold bind, modify.
    apply grows_sent; try reflexivity. apply plain_ohlc_unsubscribe_payload.
  - apply grows_pinged.
  - unfold startAutoPing, modify. unfold grows. fields. split; [|steady].
    eexists. split; [reflexivity|]. repeat constructor.
  - unfold updateTokens, modify. quietly.
  - unfold bind, modify. apply grows_opened; try reflexivity. exact H.
  - destruct (onMessage_final parse data o) as [event [arg ->]]. unfold grows. fields.
    split; [|steady]. eexists. split; [reflexivity|]. repeat constructor.
  - unfold onError. rewrite final_emit. unfold grows. fields.
    split; [|steady]. eexists. split; [reflexivity|]. repeat constructor.
  - unfold bind, modify. rewrite onClose_final. unfold set_readyState, grows. fields.
    destruct (reconnectAttempts o <? maxReconnectAttempts o); fields;
      (split; [|steady]); rewrite <- app_assoc; eexists; (split; [reflexivity|]);
      repeat constructor.
  - apply grows_refl.
  - apply grows_fire. exact H.
Qed.

(** ** Every object a client can become *)

Lemma reconnections_app a b :
  reconnections (a ++ b) = (reconnections a ++ reconnections b)%list.
Proof.
  induction a as [|e a IH]; simpl; auto.
  destruct e as [| | | |i callback d|]; simpl; rewrite ?IH; try reflexivity.
  destruct callback; simpl; rewrite ?IH; reflexivity.
Qed.

Lemma allowed_reconnections o done :
  Forall (allowed o) done -> Forall (fun d => d = reconnectInterval o) (reconnections done).
Proof.
  induction 1 as [|e done H _ IH]; simpl; [constructor|].
  destruct e as [| | | |i callback d|]; simpl; auto.
  destruct callback; simpl; auto.
Qed.

Lemma allowed_sockets o done :
  Forall (allowed o) done ->
  Forall (fun s => fst s = streamingUrl o
                   /\ exists c s', snd s = handshake c s') (sockets done).
Proof.
  induction 1 as [|e done H _ IH]; simpl; [constructor|].
  destruct e; simpl; auto. destruct H as [-> ->]. constructor; [|exact IH].
  split; [reflexivity|]. eexists. eexists. reflexivity.
Qed.

Lemma allowed_frames o done :
  Forall (allowed o) done ->
  Forall (fun frame => exists message,
            plain (Msg.payload message) = true /\ frame = frame_of message) (frames done).
Proof.
  induction 1 as [|e done H _ IH]; simpl; [constructor|].
  destruct e; simpl; auto.
Qed.

Lemma well_formed_frame message :
  plain (Msg.payload message) = true -> well_formed (frame_of message) = true.
Proof.
  intros P. unfold well_formed. rewrite frame_decodes by exact P.
  destruct message as [d i c s payload]. destruct payload; reflexivity.
Qed.

(** X13.  Nothing an object does changes its streaming URL, its delay
    of reconnection or its budget: every socket it ever constructs is
    for the URL its constructor chose (the one of the configuration, or
    the default), presenting a CST, a security token and the user agent
    of the client; every reconnection it ever schedules waits 5000 ms,
    with no back-off; and the counter of attempts stays between 0 and
    the budget of 5. *)
Theorem every_reconnection_waits_five_seconds_for_the_same_url parse o :
  reachable parse o ->
  (exists config, streamingUrl o = or_else (Config.streamingUrl config) DEFAULT_STREAMING_URL)
  /\ Forall (fun s => fst s = streamingUrl o /\ exists c s', snd s = handshake c s')
            (sockets (trace o))
  /\ reconnectInterval o = 5000
  /\ Forall (fun delay => delay = 5000) (reconnections (trace o))
  /\ maxReconnectAttempts o = 5
  /\ 0 <= reconnectAttempts o <= 5.
Proof.
  intros R.
  assert (S : maxReconnectAttempts o = 5 /\ 0 <= reconnectAttempts o <= 5).
  { destruct (reachable_sound parse o R) as [_ [A [M _]]]. rewrite M in A. tauto. }
  enough (G : (exists config,
                 streamingUrl o = or_else (Config.streamingUrl config) DEFAULT_STREAMING_URL)
              /\ Forall (fun s => fst s = streamingUrl o /\ exists c s', snd s = handshake c s')
                        (sockets (trace o))
              /\ reconnectInterval o = 5000
              /\ Forall (fun delay => delay = 5000) (reconnections (trace o))) by tauto.
  clear S. induction R as [config|a o R IH].
  - split; [exists config; reflexivity|]. repeat split; constructor.
  - destruct IH as [[config U] [K [D L]]].
    destruct (grows_step parse a o (reachable_sound parse o R))
      as [[done [T A]] [U' [D' _]]].
    rewrite T, U', D', sockets_app, reconnections_app.
    split; [exists config; exact U|]. split; [|split; [exact D|]].
    + apply Forall_app. split; [exact K|]. apply allowed_sockets. exact A.
    + apply Forall_app. split; [exact L|].
      rewrite <- D. apply allowed_reconnections. exact A.
Qed.

Lemma every_reconnection_waits_five_seconds_for_the_same_url_witness :
  let o := run ReferenceJSON.JSON_parse
             [Call_connect CONNECTING; Socket_close; Timer_fires 2 CONNECTING; Socket_close]
             (new (Config.mk "a" "b" (Some "wss://example.test/connect"))) in
  reachable ReferenceJSON.JSON_parse o
  /\ reconnections (trace o) = [5000; 5000]
  /\ Forall (fun delay => delay = 5000) (reconnections (trace o)).
Proof.
  cbv zeta.
  assert (R : reachable ReferenceJSON.JSON_parse
                (run ReferenceJSON.JSON_parse
                   [Call_connect CONNECTING; Socket_close; Timer_fires 2 CONNECTING;
                    Socket_close]
                   (new (Config.mk "a" "b" (Some "wss://example.test/connect"))))).
  { cbn [run]. do 4 apply reachable_step. apply reachable_new. }
  split; [exact R|]. split; [vm_compute; reflexivity|].
  exact (proj1 (proj2 (proj2 (proj2
    (every_reconnection_waits_five_seconds_for_the_same_url ReferenceJSON.JSON_parse _ R))))).
Defined.

(** X14.  Every frame an object ever sends is well formed: it is JSON
    text that reads as an object whose [destination], [correlationId],
    [cst] and [securityToken] are strings.  So is every frame a replay
    of the table would send. *)
Theorem every_frame_sent_is_an_envelope parse o :
  reachable parse o ->
  Forall (fun frame => well_formed frame = true) (frames (trace o))
  /\ Forall (fun frame => well_formed frame = true) (replay (subscriptions o)).
Proof.
  intros R. split.
  - induction R as [config|a o R IH]; [constructor|].
    destruct (grows_step parse a o (reachable_sound parse o R)) as [[done [T A]] _].
    rewrite T, frames_app. apply Forall_app. split; [exact IH|].
    apply allowed_frames in A. eapply Forall_impl; [|exact A].
    intros frame [message [P ->]]. apply well_formed_frame. exact P.
  - destruct (reachable_sound parse o R) as [_ [_ [_ [_ P]]]].
    unfold replay, Map_values. rewrite map_map. apply Forall_map.
    eapply Forall_impl; [|exact P]. intros entry E. apply well_formed_frame. exact E.
Qed.

Lemma every_frame_sent_is_an_envelope_witness :
  let o := run ReferenceJSON.JSON_parse
             (connects ++ [ Call_subscribeToOHLCData ["GOLD"] (Some [MINUTE; HOUR]) None;
                            Call_ping ])
             (new (Config.mk "a" "b" None)) in
  reachable ReferenceJSON.JSON_parse o
  /\ List.length (frames (trace o)) = 2%nat
  /\ Forall (fun frame => well_formed frame = true) (frames (trace o)).
Proof.
  cbv zeta.
  assert (R : reachable ReferenceJSON.JSON_parse
                (run ReferenceJSON.JSON_parse
                   (connects ++ [ Call_subscribeToOHLCData ["GOLD"] (Some [MINUTE; HOUR]) None;
                                  Call_ping ])
                   (new (Config.mk "a" "b" None)))).
  { cbn [run connects app]. do 4 apply reachable_step. apply reachable_new. }
  split; [exact R|]. split; [vm_compute; reflexivity|].
  exact (proj1 (every_frame_sent_is_an_envelope ReferenceJSON.JSON_parse _ R)).
Defined.

(** ** Correlation ids *)

Lemma Number_toString_inj a b :
  0 < a -> 0 < b -> Number_toString a = Number_toString b -> a = b.
Proof.
  intros A B H. unfold Number_toString in H. apply DecimalZ.to_int_inj.
  assert (I : forall n, 0 < n ->
            NilZero.int_of_string (NilZero.string_of_int (Z.to_int n)) = Some (Z.to_int n)).
  { intros n N. destruct n as [|p|p]; try lia. apply NilZero.isi; simpl.
    - intros E. injection E. apply DecimalPos.Unsigned.to_uint_nonnil.
    - discriminate. }
  pose proof (I a A) as Ia. pose proof (I b B) as Ib. rewrite H in Ia. congruence.
Qed.

Lemma incr_cases c :
  0 <= c <= MAX_EXACT ->
  c <= incr c <= MAX_EXACT /\ (incr c < MAX_EXACT -> incr c = c + 1).
Proof.
  intros [L U]. unfold incr. destruct (Z.ltb_spec c MAX_EXACT) as [H|H]; lia.
Qed.

Lemma ids_set_in key value (m : Map) i :
  In i (ids (Map_set key value m)) -> i = Msg.correlationId value \/ In i (ids m).
Proof.
  induction m as [|[k v] m IH]; simpl.
  - intros [<-|[]]. left. reflexivity.
  - destruct (k =? key)%string; simpl.
    + intros [<-|H]; auto.
    + intros [<-|H]; auto. destruct (IH H); auto.
Qed.

Lemma ids_set key value (m : Map) :
  NoDup (ids m) -> ~ In (Msg.correlationId value) (ids m) ->
  NoDup (ids (Map_set key value m)).
Proof.
  induction m as [|[k v] m IH]; simpl; intros N F.
  - constructor; [intros []|constructor].
  - inversion N as [|? ? Hv Hm]; subst.
    destruct (k =? key)%string; simpl.
    + constructor; [|exact Hm]. intros H. apply F. right. exact H.
    + constructor; [|apply IH; [exact Hm|intros H; apply F; right; exact H]].
      intros H. apply ids_set_in in H. destruct H as [H|H]; [|contradiction].
      apply F. left. exact H.
Qed.

Lemma ids_delete_in key (m : Map) i : In i (ids (Map_delete key m)) -> In i (ids m).
Proof.
  induction m as [|[k v] m IH]; simpl; [tauto|].
  destruct (k =? key)%string; simpl; [auto|]. intros [<-|H]; auto.
Qed.

Lemma ids_delete key (m : Map) : NoDup (ids m) -> NoDup (ids (Map_delete key m)).
Proof.
  induction m as [|[k v] m IH]; simpl; intros N; [constructor|].
  inversion N as [|? ? Hv Hm]; subst.
  destruct (k =? key)%string; simpl; [auto|].
  constructor; [|auto]. intros H. apply Hv. eapply ids_delete_in. exact H.
Qed.

Lemma ids_below c (m : Map) n :
  Forall (fun entry => exists k, 0 < k <= c /\ Msg.correlationId (snd entry) = Number_toString k) m ->
  c < n -> ~ In (Number_toString n) (ids m).
Proof.
  intros F L H. unfold ids in H. apply in_map_iff in H. destruct H as [entry [E I]].
  rewrite Forall_forall in F. destruct (F entry I) as [k [K Ek]].
  rewrite Ek in E. apply Number_toString_inj in E; lia.
Qed.

Lemma numbered_later (m : Map) c c' :
  c <= c' ->
  Forall (fun entry => exists k, 0 < k <= c /\ Msg.correlationId (snd entry) = Number_toString k) m ->
  Forall (fun entry => exists k, 0 < k <= c' /\ Msg.correlationId (snd entry) = Number_toString k) m.
Proof.
  intros L F. eapply Forall_impl; [|exact F]. intros entry [k [K E]].
  exists k. split; [lia|exact E].
Qed.

(** The table after a subscription, and after an unsubscription. *)
Lemma numbered_set c key destination payload cst' token (m : Map) :
  0 <= c <= MAX_EXACT ->
  Forall (fun entry => exists k, 0 < k <= c /\ Msg.correlationId (snd entry) = Number_toString k) m ->
  (c < MAX_EXACT -> NoDup (ids m)) ->
  let m' := Map_set key (Msg.mk destination (Number_toString (incr c)) cst' token payload) m in
  0 <= incr c <= MAX_EXACT
  /\ Forall (fun entry => exists k, 0 < k <= incr c
                                    /\ Msg.correlationId (snd entry) = Number_toString k) m'
  /\ (incr c < MAX_EXACT -> NoDup (ids m')).
Proof.
  intros B F N. cbv zeta. destruct (incr_cases c B) as [I J].
  split; [lia|]. split.
  - apply (Map_set_all
             (fun message => exists k, 0 < k <= incr c
                                       /\ Msg.correlationId message = Number_toString k)).
    + exists (incr c). split; [|reflexivity]. unfold incr in *.
      destruct (c <? MAX_EXACT) eqn:E; [lia|]. apply Z.ltb_ge in E.
      assert (0 < MAX_EXACT) by reflexivity. lia.
    + apply numbered_later with c; [lia|exact F].
  - intros L. specialize (J L). apply ids_set.
    + apply N. lia.
    + cbn [Msg.correlationId]. rewrite J. apply ids_below with c; [exact F|lia].
Qed.

Lemma numbered_deleted c key (m : Map) :
  0 <= c <= MAX_EXACT ->
  Forall (fun entry => exists k, 0 < k <= c /\ Msg.correlationId (snd entry) = Number_toString k) m ->
  (c < MAX_EXACT -> NoDup (ids m)) ->
  let m' := Map_delete key m in
  0 <= incr c <= MAX_EXACT
  /\ Forall (fun entry => exists k, 0 < k <= incr c
                                    /\ Msg.correlationId (snd entry) = Number_toString k) m'
  /\ (incr c < MAX_EXACT -> NoDup (ids m')).
Proof.
  intros B F N. cbv zeta. destruct (incr_cases c B) as [I J].
  split; [lia|]. split.
  - apply (Map_delete_all
             (fun message => exists k, 0 < k <= incr c
                                       /\ Msg.correlationId message = Number_toString k)).
    apply numbered_later with c; [lia|exact F].
  - intros L. apply ids_delete. apply N. lia.
Qed.

Lemma numbered_step parse a o :
  sound o -> numbered o -> numbered (final (step parse a o)).
Proof.
  intros S [B [F N]].
  destruct (writes_table a) eqn:W.
  - destruct a; try discriminate W; cbn [step].
    + rewrite disconnect_eq. unfold numbered. fields.
      destruct (ws o); fields; (split; [exact B|split; [constructor|intros _; constructor]]).
    + rewrite subscribeToMarketData_eq. cbv zeta.
      match goal with |- context [send ?m ?x] => destruct (send_logs m x) as [tr ->] end.
      unfold numbered, created. fields. apply numbered_set; assumption.
    + rewrite unsubscribeFromMarketData_eq. cbv zeta.
      match goal with |- context [send ?m ?x] => destruct (send_logs m x) as [tr ->] end.
      unfold numbered. fields. apply numbered_deleted; assumption.
    + rewrite subscribeToOHLCData_eq. cbv zeta.
      match goal with |- context [send ?m ?x] => destruct (send_logs m x) as [tr ->] end.
      unfold numbered, created. fields. apply numbered_set; assumption.
    + unfold unsubscribeFromOHLCData. unfold bind at 1. rewrite createMessage_eq.
      unfold bind, modify.
      match goal with |- context [send ?m ?x] => destruct (send_logs m x) as [tr ->] end.
      unfold numbered. fields. apply numbered_deleted; assumption.
  - pose proof (table_is_written_by_calls_only parse a o W) as T.
    destruct (grows_step parse a o S) as [_ [_ [_ C]]].
    unfold numbered. rewrite T.
    destruct (incr_cases _ B) as [I J].
    destruct C as [C|C]; rewrite C.
    + split; [exact B|]. split; [exact F|exact N].
    + split; [lia|]. split.
      * apply numbered_later with (correlationIdCounter o); [lia|exact F].
      * intros L. apply N. lia.
Qed.

Lemma reachable_numbered parse o : reachable parse o -> numbered o.
Proof.
  induction 1 as [config|a o R IH].
  - split; [split; [reflexivity|discriminate]|]. split; [constructor|intros _; constructor].
  - apply numbered_step; [apply (reachable_sound parse); exact R|exact IH].
Qed.

(** X15.  The correlation ids are the numbers the counter gives out: in
    every object a client can become the counter lies between 0 and
    2^53, each message of the table carries the decimal text of a
    number between 1 and the counter, and while the counter is below
    2^53 no two messages of the table carry the same id and the id of
    the next message is not in the table.  At 2^53 the counter stops:
    from there every message gets the id 9007199254740992. *)
Theorem stored_messages_have_distinct_ids parse o :
  reachable parse o ->
  0 <= correlationIdCounter o <= MAX_EXACT
  /\ Forall (fun entry =>
               exists n, 0 < n <= correlationIdCounter o
                         /\ Msg.correlationId (snd entry) = Number_toString n)
            (subscriptions o)
  /\ (correlationIdCounter o < MAX_EXACT ->
      NoDup (ids (subscriptions o))
      /\ forall destination payload,
           Msg.correlationId (created destination payload o)
           = Number_toString (correlationIdCounter o + 1)
           /\ ~ In (Msg.correlationId (created destination payload o)) (ids (subscriptions o)))
  /\ (correlationIdCounter o = MAX_EXACT ->
      forall destination payload,
        Msg.correlationId (created destination payload o) = "9007199254740992"
        /\ correlationIdCounter (final (createMessage destination payload o)) = MAX_EXACT).
Proof.
  intros R. destruct (reachable_numbered parse o R) as [B [F N]].
  split; [exact B|]. split; [exact F|]. split.
  - intros L. split; [exact (N L)|]. intros destination payload.
    unfold created. cbn [Msg.correlationId].
    assert (E : incr (correlationIdCounter o) = correlationIdCounter o + 1).
    { unfold incr. apply Z.ltb_lt in L. rewrite L. reflexivity. }
    rewrite E. split; [reflexivity|].
    apply ids_below with (correlationIdCounter o); [exact F|lia].
  - intros E destination payload. rewrite createMessage_eq. unfold created. fields.
    cbn [Msg.correlationId]. rewrite E. split; reflexivity.
Qed.

Lemma stored_messages_have_distinct_ids_witness :
  let o := run ReferenceJSON.JSON_parse
             [ Call_subscribeToMarketData ["GOLD"]; Call_ping;
               Call_subscribeToMarketData ["SILVER"]; Call_subscribeToMarketData ["GOLD"] ]
             (new (Config.mk "a" "b" None)) in
  reachable ReferenceJSON.JSON_parse o
  /\ ids (subscriptions o) = ["4"; "3"]
  /\ NoDup (ids (subscriptions o)).
Proof.
  cbv zeta.
  assert (R : reachable ReferenceJSON.JSON_parse
                (run ReferenceJSON.JSON_parse
                   [ Call_subscribeToMarketData ["GOLD"]; Call_ping;
                     Call_subscribeToMarketData ["SILVER"]; Call_subscribeToMarketData ["GOLD"] ]
                   (new (Config.mk "a" "b" None)))).
  { cbn [run]. do 4 apply reachable_step. apply reachable_new. }
  split; [exact R|]. split; [vm_compute; reflexivity|].
  apply (stored_messages_have_distinct_ids ReferenceJSON.JSON_parse _ R).
  vm_compute. reflexivity.
Defined.

(** ** A connection that drops and comes back *)

(** X16.  A connection that drops comes back with its table.  While the
    budget lasts the close marks the object disconnected, so that the
    subscribe methods throw, and sets the reconnection; the timer
    constructs a new socket; when that opens the object is connected
    again, its counter of attempts is back at 0, and it has sent every
    message of the table, in the order of the table, on the new socket.
    The table is as it was. *)
Theorem a_dropped_connection_comes_back_with_its_table parse o :
  timers_fresh o ->
  reconnectAttempts o < maxReconnectAttempts o ->
  let down := final (step parse Socket_close o) in
  let o' := episode parse o in
  (isConnectedToServer down = false
   /\ forall epics, throws_containing "not connected" (subscribeToMarketData epics down) = true)
  /\ trace o'
     = (trace o
        ++ [ Emit "disconnect" NoArg;
             SetTimer (timerSeq o) Reconnect (reconnectInterval o);
             NewSocket (streamingUrl o) (handshake (cst o) (securityToken o));
             SetTimer (S (timerSeq o)) (Poll 0) 500;
             SetTimer (S (S (timerSeq o))) (Backup (S (timerSeq o))) 10000;
             Emit "connect" NoArg ]
        ++ map SocketSend (replay (subscriptions o)))%list
  /\ frames (trace o') = (frames (trace o) ++ replay (subscriptions o))%list
  /\ subscriptions o' = subscriptions o
  /\ isConnectedToServer o' = true
  /\ reconnectAttempts o' = 0.
Proof.
  intros F L. cbv zeta. split.
  - rewrite socket_closes_retry by exact L. fields.
    split; [reflexivity|]. intros epics.
    rewrite subscribeToMarketData_eq. cbv zeta. rewrite send_closed; [reflexivity|].
    unfold socket_open, set_readyState. fields. destruct (ws o); reflexivity.
  - unfold episode. cbn [run]. rewrite socket_closes_retry by exact L. fields.
    match goal with |- context [step parse (Timer_fires ?i CONNECTING) ?x] =>
      change x with
        (setTimer Reconnect (reconnectInterval o)
           (set_reconnectAttempts (incr (reconnectAttempts o))
              (log (Emit "disconnect" NoArg)
                 (set_isConnected false (set_readyState CLOSED o)))))
    end.
    rewrite reconnect_fires; [|unfold set_readyState; fields; exact F|reflexivity].
    rewrite connect_connecting. unfold set_readyState. fields.
    rewrite socket_opens by (fields; discriminate). cbv zeta. unfold set_readyState.
    socket. split; [|split; [|repeat split]].
    + rewrite <- !app_assoc. reflexivity.
    + rewrite !frames_app. cbn. rewrite frames_sent, !app_nil_r. reflexivity.
Qed.

Lemma a_dropped_connection_comes_back_with_its_table_witness :
  let o := run ReferenceJSON.JSON_parse
             (connects ++ [Call_subscribeToMarketData ["GOLD"]])
             (new (Config.mk "a" "b" None)) in
  timers_fresh o
  /\ reconnectAttempts o < maxReconnectAttempts o
  /\ frames (trace (episode ReferenceJSON.JSON_parse o))
     = (frames (trace o) ++ replay (subscriptions o))%list.
Proof.
  cbv zeta.
  assert (F : timers_fresh
                (run ReferenceJSON.JSON_parse
                   (connects ++ [Call_subscribeToMarketData ["GOLD"]])
                   (new (Config.mk "a" "b" None)))).
  { vm_compute. repeat constructor. }
  assert (L : reconnectAttempts
                (run ReferenceJSON.JSON_parse
                   (connects ++ [Call_subscribeToMarketData ["GOLD"]])
                   (new (Config.mk "a" "b" None)))
              < maxReconnectAttempts
                  (run ReferenceJSON.JSON_parse
                     (connects ++ [Call_subscribeToMarketData ["GOLD"]])
                     (new (Config.mk "a" "b" None)))).
  { vm_compute. reflexivity. }
  split; [exact F|]. split; [exact L|].
  exact (proj1 (proj2 (proj2
    (a_dropped_connection_comes_back_with_its_table ReferenceJSON.JSON_parse _ F L)))).
Defined.

(** ** What the events of the socket leave alone *)

Lemma event_keeps_the_caller's parse a o :
  is_event a = true ->
  let o' := final (step parse a o) in
  cst o' = cst o /\ securityToken o' = securityToken o /\ listeners o' = listeners o.
Proof.
  intros E. cbv zeta. destruct a; try discriminate E; cbn [step].
  - unfold bind, modify. rewrite onOpen_final. fields. unfold set_readyState. fields.
    repeat split.
  - destruct (onMessage_final parse data o) as [event [arg ->]]. fields. repeat split.
  - unfold onError. rewrite final_emit. fields. repeat split.
  - unfold bind, modify. rewrite onClose_final. unfold set_readyState. fields.
    destruct (reconnectAttempts o <? maxReconnectAttempts o); fields; repeat split.
  - repeat split.
  - unfold fire, bind, get, modify, ret.
    destruct (pending id (timers o)) as [[| |pollCount|pollInterval|]|]; fields;
      try (repeat split; fail).
    + rewrite connect_eq. cbv zeta. destruct (state =? 1); fields; repeat split.
    + rewrite onOpen_final. fields. repeat split.
    + destruct (socket_open o).
      * rewrite onOpen_final. fields. repeat split.
      * destruct (incr pollCount >=? 20); fields; repeat split.
    + destruct (socket_open o); [rewrite onOpen_final|]; fields; repeat split.
    + destruct (isConnectedToServer o); [|repeat split].
      destruct (socket_open o) eqn:O;
        [rewrite ping_open by exact O|rewrite ping_closed by exact O]; fields; repeat split.
Qed.

Lemma is_event_writes_nothing a : is_event a = true -> writes_table a = false.
Proof. destruct a; try discriminate; reflexivity. Qed.

(** X17.  The events of the socket and the timers change nothing of
    what the caller gave the object: whatever sequence of openings,
    frames, errors, closes and timers an object lives through, its
    table and its two tokens are what the calls made them. *)
Theorem events_leave_the_table_and_the_tokens parse events : forall o,
  forallb is_event events = true ->
  let o' := run parse events o in
  subscriptions o' = subscriptions o
  /\ cst o' = cst o /\ securityToken o' = securityToken o.
Proof.
  induction events as [|a events IH]; intros o E; cbv zeta.
  - repeat split.
  - cbn [forallb] in E. apply andb_true_iff in E. destruct E as [A E].
    cbn [run]. destruct (IH (final (step parse a o)) E) as [S [C T]].
    destruct (event_keeps_the_caller's parse a o A) as [C' [T' _]].
    rewrite S, C, T, C', T'.
    rewrite (table_is_written_by_calls_only parse a o (is_event_writes_nothing a A)).
    repeat split.
Qed.

Lemma events_leave_the_table_and_the_tokens_witness :
  let events := [ Socket_open; Socket_message "null"; Socket_close; Timer_fires 2 OPEN;
                  Timer_fires 3 CONNECTING; Socket_error (new_Error "ECONNRESET") ] in
  let o := run ReferenceJSON.JSON_parse
             [ Call_on "error"; Call_subscribeToMarketData ["GOLD"]; Call_connect CONNECTING ]
             (new (Config.mk "a" "b" None)) in
  forallb is_event events = true
  /\ map fst (subscriptions (run ReferenceJSON.JSON_parse events o)) = ["marketData_GOLD"].
Proof.
  cbv zeta. split; [reflexivity|].
  rewrite (proj1 (events_leave_the_table_and_the_tokens
                    ReferenceJSON.JSON_parse
                    [ Socket_open; Socket_message "null"; Socket_close; Timer_fires 2 OPEN;
                      Timer_fires 3 CONNECTING; Socket_error (new_Error "ECONNRESET") ]
                    (run ReferenceJSON.JSON_parse
                       [ Call_on "error"; Call_subscribeToMarketData ["GOLD"];
                         Call_connect CONNECTING ]
                       (new (Config.mk "a" "b" None)))
                    eq_refl)).
  vm_compute. reflexivity.
Defined.

(** ** The frames of the candle subscriptions *)

Lemma written_strings {A} (f : A -> string) (l : list A) :
  map written (map (fun x => JString (f x)) l) = map (fun x => JString (f x)) l.
Proof. induction l as [|x l IH]; simpl; congruence. Qed.

Lemma written_ohlc_payload epics resolutions type :
  written (ohlc_payload epics resolutions type)
  = JObject (("epics", JArray (map JString epics))
             :: match resolutions with
                | Some rs => [("resolutions",
                               JArray (map (fun r => JString (Resolution_text r)) rs))]
                | None => []
                end
             ++ match type with
                | Some c => [("type", JString (CandleType_text c))]
                | None => []
                end).
Proof.
  unfold ohlc_payload, epics_value, resolutions_value.
  destruct resolutions as [rs|], type as [c|]; cbn [written app];
    rewrite ?(written_strings (fun s : string => s)), ?(written_strings Resolution_text);
    reflexivity.
Qed.

Lemma written_ohlc_unsubscribe_payload epics resolutions types :
  written (ohlc_unsubscribe_payload epics resolutions types)
  = JObject (("epics", JArray (map JString epics))
             :: match resolutions with
                | Some rs => [("resolutions",
                               JArray (map (fun r => JString (Resolution_text r)) rs))]
                | None => []
                end
             ++ match types with
                | Some ts => [("types",
                               JArray (map (fun c => JString (CandleType_text c)) ts))]
                | None => []
                end).
Proof.
  unfold ohlc_unsubscribe_payload, epics_value, resolutions_value.
  destruct resolutions as [rs|], types as [ts|]; cbn [written app];
    rewrite ?(written_strings (fun s : string => s)), ?(written_strings Resolution_text),
            ?(written_strings CandleType_text);
    reflexivity.
Qed.

Lemma unsubscribeFromOHLCData_eq epics resolutions types o :
  unsubscribeFromOHLCData epics resolutions types o =
  let message := created "OHLCMarketData.unsubscribe"
                   (ohlc_unsubscribe_payload epics resolutions types) o in
  send message
    (set_subscriptions
       (Map_delete (unsubscribe_ohlc_key epics resolutions types) (subscriptions o))
       (set_correlationIdCounter (incr (correlationIdCounter o)) o)).
Proof. reflexivity. Qed.

Lemma written_message m :
  is_undefined (Msg.payload m) = false ->
  written (message_value m)
  = JObject [ ("destination", JString (Msg.destination m));
              ("correlationId", JString (Msg.correlationId m));
              ("cst", JString (Msg.cst m));
              ("securityToken", JString (Msg.securityToken m));
              ("payload", written (Msg.payload m)) ].
Proof.
  destruct m as [d i c s payload]. destruct payload; try discriminate; reflexivity.
Qed.

(** X18.  On an open socket the two candle methods send one frame each
    and return.  The frame reads as the envelope of the call, and its
    payload holds the epics and, of the optional arguments, only those
    that were given: resolutions and a type (or types) that were
    omitted are not properties of the payload at all. *)
Theorem candle_frames_leave_out_what_was_omitted o epics resolutions type types :
  socket_open o = true ->
  let envelope destination payload :=
    JObject [ ("destination", JString destination);
              ("correlationId", JString (Number_toString (incr (correlationIdCounter o))));
              ("cst", JString (cst o));
              ("securityToken", JString (securityToken o));
              ("payload", payload) ] in
  let listed :=
    match resolutions with
    | Some rs => [("resolutions", JArray (map (fun r => JString (Resolution_text r)) rs))]
    | None => []
    end in
  (let r := subscribeToOHLCData epics resolutions type o in
   returned r = true
   /\ exists frame,
        trace (final r) = (trace o ++ [SocketSend frame])%list
        /\ ReferenceJSON.JSON_parse frame
           = inr (envelope "OHLCMarketData.subscribe"
                    (JObject (("epics", JArray (map JString epics))
                              :: listed
                              ++ match type with
                                 | Some c => [("type", JString (CandleType_text c))]
                                 | None => []
                                 end))))
  /\
  (let r := unsubscribeFromOHLCData epics resolutions types o in
   returned r = true
   /\ exists frame,
        trace (final r) = (trace o ++ [SocketSend frame])%list
        /\ ReferenceJSON.JSON_parse frame
           = inr (envelope "OHLCMarketData.unsubscribe"
                    (JObject (("epics", JArray (map JString epics))
                              :: listed
                              ++ match types with
                                 | Some ts =>
                                     [("types",
                                       JArray (map (fun c => JString (CandleType_text c)) ts))]
                                 | None => []
                                 end)))).
Proof.
  intros O. cbv zeta. split.
  - rewrite subscribeToOHLCData_eq. cbv zeta. rewrite send_open by exact O.
    split; [reflexivity|]. eexists. split; [reflexivity|].
    rewrite frame_decodes by apply plain_ohlc_payload.
    rewrite written_message by reflexivity. unfold created.
    cbn [Msg.destination Msg.correlationId Msg.cst Msg.securityToken Msg.payload].
    rewrite written_ohlc_payload. reflexivity.
  - rewrite unsubscribeFromOHLCData_eq. cbv zeta. rewrite send_open by exact O.
    split; [reflexivity|]. eexists. split; [reflexivity|].
    rewrite frame_decodes by apply plain_ohlc_unsubscribe_payload.
    rewrite written_message by reflexivity. unfold created.
    cbn [Msg.destination Msg.correlationId Msg.cst Msg.securityToken Msg.payload].
    rewrite written_ohlc_unsubscribe_payload. reflexivity.
Qed.

Lemma candle_frames_leave_out_what_was_omitted_witness :
  let o := run ReferenceJSON.JSON_parse connects (new (Config.mk "a" "b" None)) in
  socket_open o = true
  /\ ReferenceJSON.JSON_parse
       (last (frames (trace (final (subscribeToOHLCData ["GOLD"] None None o)))) "")
     = inr (JObject [ ("destination", JString "OHLCMarketData.subscribe");
                      ("correlationId", JString "1");
                      ("cst", JString "a");
                      ("securityToken", JString "b");
                      ("payload", JObject [("epics", JArray [JString "GOLD"])]) ]).
Proof.
  cbv zeta.
  assert (O : socket_open (run ReferenceJSON.JSON_parse connects (new (Config.mk "a" "b" None)))
              = true) by (vm_compute; reflexivity).
  split; [exact O|].
  destruct (candle_frames_leave_out_what_was_omitted
              (run ReferenceJSON.JSON_parse connects (new (Config.mk "a" "b" None)))
              ["GOLD"] None None None O) as [[_ [frame [T P]]] _].
  rewrite T, frames_app. cbn [frames]. rewrite last_last. rewrite P.
  vm_compute. reflexivity.
Defined.

(** ** Unsubscribing what is not there *)

(** X19.  Unsubscribing a key that is not in the table leaves the table
    as it is and still tells the server: on an open socket the call
    sends the one frame of the unsubscription and returns; on any other
    socket it throws like every call on a closed connection, having
    used up a correlation id and sent nothing. *)
Theorem unsubscribing_an_absent_key_still_tells_the_server o epics :
  Map_get (marketData_key epics) (subscriptions o) = None ->
  let r := unsubscribeFromMarketData epics o in
  subscriptions (final r) = subscriptions o
  /\ correlationIdCounter (final r) = incr (correlationIdCounter o)
  /\ (socket_open o = true ->
      returned r = true
      /\ trace (final r)
         = (trace o ++ [SocketSend (frame_of (created "marketData.unsubscribe"
                                                (marketData_payload epics) o))])%list)
  /\ (socket_open o = false ->
      thrown r = Some NOT_CONNECTED /\ trace (final r) = trace o).
Proof.
  intros A. cbv zeta. rewrite unsubscribeFromMarketData_eq. cbv zeta.
  rewrite (Map_delete_absent _ _ A). split; [|split; [|split]].
  - rewrite send_final. fields.
    match goal with |- context [if ?b then _ else _] => destruct b end; reflexivity.
  - rewrite send_final. fields.
    match goal with |- context [if ?b then _ else _] => destruct b end; reflexivity.
  - intros O. rewrite send_open by exact O. split; reflexivity.
  - intros O. rewrite send_closed by exact O. split; reflexivity.
Qed.

Lemma unsubscribing_an_absent_key_still_tells_the_server_witness :
  let o := run ReferenceJSON.JSON_parse connects (new (Config.mk "a" "b" None)) in
  Map_get (marketData_key ["GOLD"]) (subscriptions o) = None
  /\ List.length (frames (trace (final (unsubscribeFromMarketData ["GOLD"] o)))) = 1%nat.
Proof.
  cbv zeta. split; [reflexivity|].
  destruct (unsubscribing_an_absent_key_still_tells_the_server
              (run ReferenceJSON.JSON_parse connects (new (Config.mk "a" "b" None)))
              ["GOLD"] eq_refl) as [_ [_ [H _]]].
  destruct (H ltac:(vm_compute; reflexivity)) as [_ T].
  rewrite T. vm_compute. reflexivity.
Defined.

(** ** Errors of the socket *)

(** X20.  An error of the socket is passed on as one ['error'] event
    and changes nothing else: the object stays marked as it was, no
    reconnection is scheduled and the counter of attempts does not
    move; only the close of the socket does that.  With no listener for
    ['error'] the handler throws the error it was given; once the
    caller has registered one it returns. *)
Theorem a_socket_error_is_only_passed_on parse e o :
  let r := step parse (Socket_error e) o in
  final r = log (Emit "error" (Failure e)) o
  /\ (isConnected (final r) = isConnected o /\ timers (final r) = timers o
      /\ reconnectAttempts (final r) = reconnectAttempts o /\ ws (final r) = ws o
      /\ count is_reconnect (trace (final r)) = count is_reconnect (trace o))
  /\ (listenerCount "error" o = 0%nat -> thrown r = Some e)
  /\ (listenerCount "error" o <> 0%nat -> returned r = true)
  /\ returned (step parse (Socket_error e) (final (on "error" o))) = true.
Proof.
  cbv zeta. cbn [step]. unfold onError.
  split; [apply final_emit|]. split; [|split; [|split]].
  - rewrite final_emit. fields. repeat split. apply count_log. reflexivity.
  - intros L. rewrite emit_unheard by exact L. reflexivity.
  - intros L. rewrite emit_heard by exact L. reflexivity.
  - rewrite emit_heard; [reflexivity|].
    unfold on, modify, listenerCount. fields.
    rewrite count_occ_app. cbn. lia.
Qed.


(* ================================================================== *)
(** * Properties of the REST client                                    *)
(* ================================================================== *)

(** ** [encryptPassword] *)

Lemma lor_low a b n :
  0 <= n -> 0 <= b < 2 ^ n -> Z.lor (Z.shiftl a n) b = a * 2 ^ n + b.
Proof.
  intros N B. rewrite <- Z.shiftl_mul_pow2 by exact N.
  rewrite <- Z.add_lor_land.
  replace (Z.land (Z.shiftl a n) b) with 0; [lia|].
  symmetry. apply Z.bits_inj'. intros m M. rewrite Z.land_spec, Z.bits_0.
  destruct (Z.ltb_spec m n) as [L|L].
  - rewrite Z.shiftl_spec_low by exact L. reflexivity.
  - rewrite <- (Z.mod_small b (2 ^ n)) by exact B.
    rewrite Z.mod_pow2_bits_high by lia. apply andb_false_r.
Qed.

Lemma triplet_value a b c :
  0 <= a < 256 -> 0 <= b < 256 -> 0 <= c < 256 ->
  Crypto.triplet_of a b c = a * 65536 + b * 256 + c.
Proof.
  intros A B C. unfold Crypto.triplet_of.
  rewrite (lor_low a (Z.shiftl b 8) 16); [|lia|].
  - replace (a * 2 ^ 16 + Z.shiftl b 8) with (Z.shiftl (a * 256 + b) 8)
      by (rewrite !Z.shiftl_mul_pow2 by lia; simpl; lia).
    rewrite (lor_low _ c 8) by (simpl; lia). simpl. lia.
  - rewrite Z.shiftl_mul_pow2 by lia. simpl. lia.
Qed.

Lemma sextet_value t j :
  0 <= t -> 0 <= j <= 3 -> Crypto.sextet t j = (t / 2 ^ (6 * (3 - j))) mod 64.
Proof.
  intros T J. unfold Crypto.sextet. rewrite Z.shiftr_div_pow2 by lia.
  change 63 with (Z.ones 6). rewrite Z.land_ones by lia. reflexivity.
Qed.

(** The character of a sextet, and its value. *)
Lemma digit_value_nat k :
  (k < 64)%nat ->
  exists c, Crypto.charAt (Z.of_nat k) Crypto.BASE64_MAP = String c ""
            /\ ReferenceBase64.value c = Some (Z.of_nat k)
            /\ Ascii.eqb c "=" = false.
Proof.
  intros K.
  do 64 (destruct k as [|k]; [eexists; split; [reflexivity|split; reflexivity]|]).
  lia.
Qed.

Lemma digit_value n :
  0 <= n < 64 ->
  exists c, Crypto.charAt n Crypto.BASE64_MAP = String c ""
            /\ ReferenceBase64.value c = Some n
            /\ Ascii.eqb c "=" = false.
Proof.
  intros N. rewrite <- (Z2Nat.id n) by lia. apply digit_value_nat. lia.
Qed.

Lemma concat_cons x xs : String.concat "" (x :: xs) = (x ++ String.concat "" xs)%string.
Proof.
  destruct xs as [|y ys]; simpl; [|reflexivity].
  induction x as [|c x IH]; simpl; congruence.
Qed.

Lemma sextets a b c :
  0 <= a < 256 -> 0 <= b < 256 -> 0 <= c < 256 ->
  let t := Crypto.triplet_of a b c in
  Crypto.sextet t 0 = a / 4
  /\ Crypto.sextet t 1 = (a mod 4) * 16 + b / 16
  /\ Crypto.sextet t 2 = (b mod 16) * 4 + c / 64
  /\ Crypto.sextet t 3 = c mod 64.
Proof.
  intros A B C. cbv zeta. rewrite triplet_value by assumption.
  rewrite !sextet_value by lia.
  change (2 ^ (6 * (3 - 0))) with 262144. change (2 ^ (6 * (3 - 1))) with 4096.
  change (2 ^ (6 * (3 - 2))) with 64. change (2 ^ (6 * (3 - 3))) with 1.
  repeat split; Z.div_mod_to_equations; lia.
Qed.

Lemma regrouped a b c :
  0 <= a < 256 -> 0 <= b < 256 -> 0 <= c < 256 ->
  let s0 := a / 4 in
  let s1 := (a mod 4) * 16 + b / 16 in
  let s2 := (b mod 16) * 4 + c / 64 in
  let s3 := c mod 64 in
  (0 <= s0 < 64 /\ 0 <= s1 < 64 /\ 0 <= s2 < 64 /\ 0 <= s3 < 64)
  /\ s0 * 4 + s1 / 16 = a
  /\ (s1 mod 16) * 16 + s2 / 4 = b
  /\ (s2 mod 4) * 64 + s3 = c.
Proof.
  intros A B C. cbv zeta. repeat split; Z.div_mod_to_equations; lia.
Qed.

Lemma padding_char : Crypto.charAt 64 Crypto.BASE64_MAP = "=".
Proof. reflexivity. Qed.

Lemma padded_group x1 x2 x3 x4 l :
  Crypto.padded (x1 :: x2 :: x3 :: x4 :: l) = x1 :: x2 :: x3 :: x4 :: Crypto.padded l.
Proof.
  unfold Crypto.padded. cbn [List.length app].
  replace (S (S (S (S (List.length l)))) mod 4)%nat with (List.length l mod 4)%nat;
    [reflexivity|].
  replace (S (S (S (S (List.length l))))) with (List.length l + 1 * 4)%nat by lia.
  symmetry. apply Nat.Div0.mod_add.
Qed.

(** The decoder reads back the bytes [Base64.stringify] wrote. *)
Lemma decode_stringify n : forall bytes,
  (List.length bytes <= n)%nat ->
  Forall (fun b => 0 <= b < 256) bytes ->
  ReferenceBase64.decode (Crypto.Base64_stringify bytes) = Some bytes.
Proof.
  assert (Z0 : 0 <= 0 < 256) by lia.
  induction n as [|n IH]; intros bytes L F.
  { destruct bytes; [reflexivity|simpl in L; lia]. }
  destruct bytes as [|a [|b [|c rest]]]; [reflexivity| | |].
  - inversion F as [|? ? A _]; subst.
    unfold Crypto.Base64_stringify. cbn [Crypto.base64Chars].
    destruct (sextets a 0 0 A Z0 Z0) as [S0 [S1 _]].
    destruct (regrouped a 0 0 A Z0 Z0) as [[R0 [R1 _]] [V _]].
    cbv zeta in *. rewrite S0, S1.
    destruct (digit_value _ R0) as [c0 [E0 [V0 N0]]].
    destruct (digit_value _ R1) as [c1 [E1 [V1 N1]]].
    rewrite E0, E1. unfold Crypto.padded. rewrite padding_char. cbn. rewrite V0, V1. cbn.
    repeat f_equal. Z.div_mod_to_equations. lia.
  - inversion F as [|? ? A F']; subst. inversion F' as [|? ? B _]; subst.
    unfold Crypto.Base64_stringify. cbn [Crypto.base64Chars].
    destruct (sextets a b 0 A B Z0) as [S0 [S1 [S2 _]]].
    destruct (regrouped a b 0 A B Z0) as [[R0 [R1 [R2 _]]] [V [W _]]].
    cbv zeta in *. rewrite S0, S1, S2.
    destruct (digit_value _ R0) as [c0 [E0 [V0 N0]]].
    destruct (digit_value _ R1) as [c1 [E1 [V1 N1]]].
    destruct (digit_value _ R2) as [c2 [E2 [V2 N2]]].
    rewrite E0, E1, E2. unfold Crypto.padded. rewrite padding_char. cbn.
    rewrite V0, V1, N2, V2. cbn.
    repeat f_equal; Z.div_mod_to_equations; lia.
  - inversion F as [|? ? A F']; subst. inversion F' as [|? ? B F'']; subst.
    inversion F'' as [|? ? C G]; subst.
    unfold Crypto.Base64_stringify. cbn [Crypto.base64Chars]. rewrite padded_group.
    destruct (sextets a b c A B C) as [S0 [S1 [S2 S3]]].
    destruct (regrouped a b c A B C) as [[R0 [R1 [R2 R3]]] [V [W X]]].
    cbv zeta in *. rewrite S0, S1, S2, S3.
    destruct (digit_value _ R0) as [c0 [E0 [V0 N0]]].
    destruct (digit_value _ R1) as [c1 [E1 [V1 N1]]].
    destruct (digit_value _ R2) as [c2 [E2 [V2 N2]]].
    destruct (digit_value _ R3) as [c3 [E3 [V3 N3]]].
    rewrite E0, E1, E2, E3, !concat_cons. cbn [append ReferenceBase64.decode].
    rewrite V0, V1, N2, V2, N3, V3.
    change (String.concat "" (Crypto.padded (Crypto.base64Chars rest)))
      with (Crypto.Base64_stringify rest).
    rewrite IH; [|simpl in L; lia|exact G].
    rewrite V, W, X. reflexivity.
Qed.

Lemma Utf8_parse_bytes text : Forall (fun b => 0 <= b < 256) (Crypto.Utf8_parse text).
Proof.
  unfold Crypto.Utf8_parse. apply Forall_map. apply Forall_forall. intros c _.
  pose proof (nat_ascii_bounded c). lia.
Qed.

Lemma text_of_Utf8_parse text : ReferenceBase64.text_of (Crypto.Utf8_parse text) = text.
Proof.
  unfold ReferenceBase64.text_of, Crypto.Utf8_parse. rewrite map_map.
  rewrite <- (string_of_list_ascii_of_string text) at 2. f_equal.
  rewrite <- (map_id (list_ascii_of_string text)) at 2. apply map_ext.
  intros c. rewrite Nat2Z.id. apply ascii_nat_embedding.
Qed.

(** The text of a number has no bar in it, so the last bar of the text
    that is encoded parts the password from the timestamp. *)
Lemma uint_no_bar d : ~ In "|"%char (list_ascii_of_string (NilEmpty.string_of_uint d)).
Proof.
  induction d; simpl; intros H; try (destruct H as [H|H]; [discriminate H|auto]); auto.
Qed.

Lemma Number_toString_no_bar n : ~ In "|"%char (list_ascii_of_string (Number_toString n)).
Proof.
  unfold Number_toString, NilZero.string_of_int, NilZero.string_of_uint.
  destruct (Z.to_int n) as [d|d].
  - destruct d; try apply uint_no_bar. simpl. intros [H|[]]. discriminate H.
  - simpl. intros [H|H]; [discriminate H|]. revert H.
    destruct d; try apply uint_no_bar. simpl. intros [H|[]]. discriminate H.
Qed.

Lemma bar_in_the_middle (q d : string) : In "|"%char (list_ascii_of_string (q ++ "|" ++ d)).
Proof. induction q as [|c q IH]; simpl; auto. Qed.

Lemma last_bar : forall p p' d d' : string,
  ~ In "|"%char (list_ascii_of_string d) ->
  ~ In "|"%char (list_ascii_of_string d') ->
  (p ++ "|" ++ d)%string = (p' ++ "|" ++ d')%string -> p = p' /\ d = d'.
Proof.
  induction p as [|c p IH]; intros [|c' p'] d d' N N' E; simpl in E.
  - injection E as E. auto.
  - injection E as C E. exfalso. apply N. rewrite E. apply bar_in_the_middle.
  - injection E as C E. exfalso. apply N'. rewrite <- E. apply bar_in_the_middle.
  - injection E as C E. destruct (IH p' d d' N N' E) as [-> ->]. subst c'. auto.
Qed.

Lemma Number_toString_one_to_one a b :
  0 <= a -> 0 <= b -> Number_toString a = Number_toString b -> a = b.
Proof.
  intros A B H. unfold Number_toString in H. apply DecimalZ.to_int_inj.
  assert (I : forall n, 0 <= n ->
            NilZero.int_of_string (NilZero.string_of_int (Z.to_int n)) = Some (Z.to_int n)).
  { intros n N. destruct n as [|p|p]; try lia.
    - reflexivity.
    - apply NilZero.isi; simpl.
      + intros E. injection E. apply DecimalPos.Unsigned.to_uint_nonnil.
      + discriminate. }
  pose proof (I a A) as Ia. pose proof (I b B) as Ib. rewrite H in Ia. congruence.
Qed.



(** ** The requests of the REST client *)

Lemma skipn_history {A} (h sent : list A) : skipn (List.length h) (h ++ sent) = sent.
Proof. induction h as [|x h IH]; simpl; auto. Qed.

Lemma accepted_not_401 r : CapitalAPI.accepted r = true -> (CapitalAPI.status r =? 401) = false.
Proof.
  unfold CapitalAPI.accepted. intros H. apply andb_true_iff in H. destruct H as [_ H].
  apply Z.ltb_lt in H. apply Z.eqb_neq. lia.
Qed.

(** The object after a request through the client's own instance. *)
Lemma client_request_after v url rp o :
  CapitalAPI.after (CapitalAPI.client_request v url rp o)
  = let o1 := CapitalAPI.record
                (CapitalAPI.mkExchange CapitalAPI.Shared
                   (CapitalAPI.mkRequest v url (CapitalAPI.intercept_request o)) rp) o in
    if CapitalAPI.replied_401 rp then CapitalAPI.clearSession o1 else o1.
Proof.
  unfold CapitalAPI.client_request. destruct rp as [r|e]; cbn; [|reflexivity].
  destruct (CapitalAPI.accepted r) eqn:A; [|reflexivity].
  rewrite accepted_not_401 by exact A. reflexivity.
Qed.

Lemma get_after url rp o :
  CapitalAPI.after (CapitalAPI.get url rp o)
  = CapitalAPI.after (CapitalAPI.client_request CapitalAPI.GET url rp o).
Proof.
  unfold CapitalAPI.get. destruct (CapitalAPI.client_request CapitalAPI.GET url rp o) as [r o'|rj o'].
  - destruct (CapitalAPI.data r); reflexivity.
  - destruct (CapitalAPI.status_of rj) as [[|p|p]|]; try reflexivity.
    do 9 (destruct p as [p|p|]; try reflexivity).
Qed.

Lemma send_after v url rp o :
  CapitalAPI.after (CapitalAPI.send v url rp o)
  = CapitalAPI.after (CapitalAPI.client_request v url rp o).
Proof.
  unfold CapitalAPI.send. destruct (CapitalAPI.client_request v url rp o); reflexivity.
Qed.

Lemma client_request_resolves v url rp o :
  (exists r o', CapitalAPI.client_request v url rp o = CapitalAPI.Resolved r o')
  <-> Wire.succeeded rp = true.
Proof.
  unfold CapitalAPI.client_request. destruct rp as [r|e]; cbn.
  - destruct (CapitalAPI.accepted r); split; intros H; try reflexivity;
      try discriminate H; [eexists; eexists; reflexivity|].
    destruct H as [? [? H]]. discriminate H.
  - split; [intros [? [? H]]|intros H]; discriminate H.
Qed.

Lemma logout_after rp o :
  CapitalAPI.after (CapitalAPI.logout rp o)
  = let o1 := CapitalAPI.after
                (CapitalAPI.client_request CapitalAPI.DELETE "/api/v1/session" rp o) in
    if Wire.succeeded rp then CapitalAPI.clearSession o1 else o1.
Proof.
  unfold CapitalAPI.logout, CapitalAPI.send, CapitalAPI.client_request.
  destruct rp as [r|e]; cbn; [|reflexivity].
  destruct (CapitalAPI.accepted r); reflexivity.
Qed.

Lemma history_cleared o : CapitalAPI.history (CapitalAPI.clearSession o) = CapitalAPI.history o.
Proof. reflexivity. Qed.

Lemma history_requested v url rp o :
  CapitalAPI.history (CapitalAPI.after (CapitalAPI.client_request v url rp o))
  = (CapitalAPI.history o
     ++ [CapitalAPI.mkExchange CapitalAPI.Shared
           (CapitalAPI.mkRequest v url (CapitalAPI.intercept_request o)) rp])%list.
Proof.
  rewrite client_request_after. cbv zeta.
  destruct (CapitalAPI.replied_401 rp); reflexivity.
Qed.

Lemma createSession_history rp o :
  CapitalAPI.present (CapitalAPI.apiKey o) = true ->
  CapitalAPI.history (CapitalAPI.after (CapitalAPI.createSession rp o))
  = (CapitalAPI.history o
     ++ [CapitalAPI.mkExchange CapitalAPI.Temporary
           (CapitalAPI.mkRequest CapitalAPI.POST "/api/v1/session"
              (CapitalAPI.DEFAULT_HEADERS
                 ++ CapitalAPI.header "X-CAP-API-KEY" (CapitalAPI.apiKey o))) rp])%list.
Proof.
  intros K. unfold CapitalAPI.createSession. rewrite K. cbn [negb].
  destruct rp as [r|e]; [|reflexivity].
  destruct (CapitalAPI.accepted r); [|reflexivity].
  destruct (CapitalAPI.either "cst" "CST" (CapitalAPI.headers r)) as [c|],
           (CapitalAPI.either "x-security-token" "X-SECURITY-TOKEN" (CapitalAPI.headers r))
             as [s|];
    try destruct (truthy c && truthy s);
    destruct (CapitalAPI.truthy_value (CapitalAPI.data r)); reflexivity.
Qed.

(** What a call puts on the wire: one exchange, or none when the API
    key it needs is missing. *)
Lemma perform_sent c rp o :
  (exists x,
     Wire.exchanges c rp o = [x]
     /\ CapitalAPI.reply x = rp
     /\ CapitalAPI.via x
        = (if CapitalAPI.is_createSession c then CapitalAPI.Temporary else CapitalAPI.Shared)
     /\ CapitalAPI.request_headers (CapitalAPI.request x)
        = (if CapitalAPI.is_createSession c
           then CapitalAPI.DEFAULT_HEADERS
                  ++ CapitalAPI.header "X-CAP-API-KEY" (CapitalAPI.apiKey o)
           else CapitalAPI.intercept_request o)%list
     /\ ((c = CapitalAPI.call_getEncryptionKey \/ c = CapitalAPI.call_createSession) ->
         CapitalAPI.present (CapitalAPI.apiKey o) = true))
  \/ (Wire.exchanges c rp o = []
      /\ (c = CapitalAPI.call_getEncryptionKey \/ c = CapitalAPI.call_createSession)
      /\ CapitalAPI.present (CapitalAPI.apiKey o) = false
      /\ CapitalAPI.after (CapitalAPI.perform c rp o) = o
      /\ exists what, Wire.rejection (CapitalAPI.perform c rp o)
                      = Some (CapitalAPI.plain (CapitalAPI.API_KEY_NEEDED what))).
Proof.
  unfold Wire.exchanges.
  destruct c; cbn [CapitalAPI.perform CapitalAPI.is_createSession];
    try (left; eexists;
         rewrite ?get_after, ?send_after, history_requested, skipn_history;
         split; [reflexivity|]; repeat split; intros [E|E]; discriminate E).
  - unfold CapitalAPI.getEncryptionKey.
    destruct (CapitalAPI.present (CapitalAPI.apiKey o)) eqn:K; cbn [negb].
    + left. eexists. rewrite get_after, history_requested, skipn_history.
      split; [reflexivity|]. repeat split.
    + right. cbn. rewrite skipn_all. repeat split; auto. eexists. reflexivity.
  - destruct (CapitalAPI.present (CapitalAPI.apiKey o)) eqn:K.
    + left. eexists. rewrite createSession_history by exact K. rewrite skipn_history.
      split; [reflexivity|]. repeat split.
    + right. unfold CapitalAPI.createSession. rewrite K. cbn. rewrite skipn_all.
      repeat split; auto. eexists. reflexivity.
  - left. eexists. rewrite logout_after. cbv zeta.
    replace (CapitalAPI.history
               (if Wire.succeeded rp
                then CapitalAPI.clearSession
                       (CapitalAPI.after
                          (CapitalAPI.client_request CapitalAPI.DELETE "/api/v1/session" rp o))
                else CapitalAPI.after
                       (CapitalAPI.client_request CapitalAPI.DELETE "/api/v1/session" rp o)))
      with (CapitalAPI.history
              (CapitalAPI.after
                 (CapitalAPI.client_request CapitalAPI.DELETE "/api/v1/session" rp o)))
      by (destruct (Wire.succeeded rp); reflexivity).
    rewrite history_requested, skipn_history.
    split; [reflexivity|]. repeat split; intros [E|E]; discriminate E.
Qed.

Lemma history_grows c rp o :
  CapitalAPI.history (CapitalAPI.after (CapitalAPI.perform c rp o))
  = (CapitalAPI.history o ++ Wire.exchanges c rp o)%list.
Proof.
  destruct (perform_sent c rp o) as [[x [E _]]|[E [_ [_ [A _]]]]].
  - rewrite E. unfold Wire.exchanges in E.
    rewrite <- (firstn_skipn (List.length (CapitalAPI.history o))
                  (CapitalAPI.history (CapitalAPI.after (CapitalAPI.perform c rp o)))).
    rewrite E. f_equal. clear E.
    destruct c; cbn [CapitalAPI.perform];
      rewrite ?get_after, ?send_after, ?history_requested;
      try (rewrite firstn_app, firstn_all, Nat.sub_diag; cbn; apply app_nil_r).
    + unfold CapitalAPI.getEncryptionKey.
      destruct (CapitalAPI.present (CapitalAPI.apiKey o)); cbn [negb];
        [rewrite get_after, history_requested,firstn_app, firstn_all, Nat.sub_diag;
         cbn; apply app_nil_r|apply firstn_all].
    + destruct (CapitalAPI.present (CapitalAPI.apiKey o)) eqn:K.
      * rewrite createSession_history by exact K.
        rewrite firstn_app, firstn_all, Nat.sub_diag. cbn. apply app_nil_r.
      * unfold CapitalAPI.createSession. rewrite K. apply firstn_all.
    + rewrite logout_after. cbv zeta.
      destruct (Wire.succeeded rp); rewrite ?history_cleared, history_requested;
        rewrite firstn_app, firstn_all, Nat.sub_diag; cbn; apply app_nil_r.
  - rewrite E, A. symmetry. apply app_nil_r.
Qed.

(** X22.  No method repeats a request.  A call adds one exchange to the
    history, carrying the reply it was given, or none at all: the two
    methods that need the API key ([getEncryptionKey], [createSession])
    reject without a request when the key is missing or empty, naming
    the key in their error, and change nothing.  Every request goes
    through the client's own instance with the headers of the request
    interceptor, except the one of [createSession], which goes through
    its temporary instance and carries the API key but not the tokens
    of the session. *)
Theorem each_call_makes_at_most_one_request c rp o :
  let sent := Wire.exchanges c rp o in
  CapitalAPI.history (CapitalAPI.after (CapitalAPI.perform c rp o))
  = (CapitalAPI.history o ++ sent)%list
  /\ (List.length sent <= 1)%nat
  /\ Forall (fun x =>
       CapitalAPI.reply x = rp
       /\ CapitalAPI.via x
          = (if CapitalAPI.is_createSession c then CapitalAPI.Temporary
             else CapitalAPI.Shared)
       /\ CapitalAPI.request_headers (CapitalAPI.request x)
          = (if CapitalAPI.is_createSession c
             then CapitalAPI.DEFAULT_HEADERS
                    ++ CapitalAPI.header "X-CAP-API-KEY" (CapitalAPI.apiKey o)
             else CapitalAPI.intercept_request o)%list) sent
  /\ (sent = [] <->
      (c = CapitalAPI.call_getEncryptionKey \/ c = CapitalAPI.call_createSession)
      /\ CapitalAPI.present (CapitalAPI.apiKey o) = false)
  /\ (sent = [] ->
      CapitalAPI.after (CapitalAPI.perform c rp o) = o
      /\ exists what, Wire.rejection (CapitalAPI.perform c rp o)
                      = Some (CapitalAPI.plain (CapitalAPI.API_KEY_NEEDED what))).
Proof.
  cbv zeta. split; [apply history_grows|].
  destruct (perform_sent c rp o) as [[x [E [R [V [H K]]]]]|[E [C [K [A W]]]]]; rewrite E.
  - split; [cbn; lia|]. split; [repeat constructor; assumption|]. split.
    + split; [discriminate|]. intros [C P]. rewrite (K C) in P. discriminate P.
    + discriminate.
  - split; [cbn; lia|]. split; [constructor|]. split; [tauto|]. intros _. split; assumption.
Qed.

Lemma each_call_makes_at_most_one_request_witness :
  let o := CapitalAPI.new (CapitalAPI.Config.mk None true None) in
  let rp := CapitalAPI.Unanswered (new_Error "connect ECONNREFUSED") in
  Wire.exchanges CapitalAPI.call_createSession rp o = []
  /\ List.length (Wire.exchanges CapitalAPI.getAllPositions rp o) = 1%nat.
Proof.
  cbv zeta. split; [|vm_compute; reflexivity].
  apply (each_call_makes_at_most_one_request CapitalAPI.call_createSession
           (CapitalAPI.Unanswered (new_Error "connect ECONNREFUSED"))
           (CapitalAPI.new (CapitalAPI.Config.mk None true None))).
  split; [right; reflexivity|reflexivity].
Defined.

(** ** The session *)

Lemma includes_refl s : includes s s = true.
Proof.
  assert (P : prefix s s = true).
  { rewrite <- (append_empty s) at 2. apply prefix_append. }
  destruct s; cbn [includes]; rewrite P; reflexivity.
Qed.

Lemma includes_suffix a s : includes s (a ++ s) = true.
Proof.
  induction a as [|c a IH]; simpl; [apply includes_refl|].
  rewrite IH. apply orb_true_r.
Qed.

Lemma on_401 {T} (s : option Z) (A B : T) :
  match s with Some 401 => A | _ => B end
  = if match s with Some z => z =? 401 | None => false end then A else B.
Proof.
  destruct s as [[|p|p]|]; try reflexivity.
  do 9 (destruct p as [p|p|]; try reflexivity).
Qed.

Lemma header_some name v :
  truthy v = true -> CapitalAPI.header name (Some v) = [(name, v)].
Proof. intros T. unfold CapitalAPI.header. rewrite T. reflexivity. Qed.

Lemma present_key o :
  CapitalAPI.present (CapitalAPI.apiKey o) = true ->
  exists k, CapitalAPI.apiKey o = Some k /\ truthy k = true
            /\ CapitalAPI.header "X-CAP-API-KEY" (CapitalAPI.apiKey o) = [("X-CAP-API-KEY", k)].
Proof.
  unfold CapitalAPI.present, CapitalAPI.header.
  destruct (CapitalAPI.apiKey o) as [k|]; [|discriminate].
  intros T. exists k. rewrite T. repeat split.
Qed.

(** X23.  A login that the server accepts with both tokens in the
    headers of its reply makes the client authenticated with exactly
    these tokens, also when the body of the reply is empty and the call
    rejects.  From then on every request of the other methods carries
    the API key and the two tokens, and the streaming client the REST
    client creates is constructed with them. *)
Theorem a_login_sets_the_tokens_of_the_reply r o c s :
  CapitalAPI.present (CapitalAPI.apiKey o) = true ->
  CapitalAPI.accepted r = true ->
  Wire.token_headers r = (Some c, Some s) -> truthy c = true -> truthy s = true ->
  let result := CapitalAPI.createSession (CapitalAPI.Answered r) o in
  let o1 := CapitalAPI.after result in
  CapitalAPI.getSessionTokens o1 = (Some c, Some s)
  /\ CapitalAPI.isAuthenticated o1 = true
  /\ (CapitalAPI.truthy_value (CapitalAPI.data r) = true ->
      result = CapitalAPI.Resolved (CapitalAPI.data r) o1)
  /\ (CapitalAPI.truthy_value (CapitalAPI.data r) = false ->
      Wire.rejection result
      = Some (CapitalAPI.plain (new_Error "Invalid response received")))
  /\ (forall call reply,
        CapitalAPI.is_createSession call = false ->
        exists x,
          Wire.exchanges call reply o1 = [x]
          /\ In ("CST", c) (CapitalAPI.request_headers (CapitalAPI.request x))
          /\ In ("X-SECURITY-TOKEN", s) (CapitalAPI.request_headers (CapitalAPI.request x))
          /\ (forall k, CapitalAPI.apiKey o = Some k ->
                In ("X-CAP-API-KEY", k) (CapitalAPI.request_headers (CapitalAPI.request x))))
  /\ (forall url,
        CapitalAPI.createWebSocketConnection url o1
        = inr (CapitalWebSocket.new (CapitalWebSocket.Config.mk c s url))).
Proof.
  intros K A H C S. cbv zeta. unfold Wire.token_headers in H. injection H as Hc Hs.
  assert (E : CapitalAPI.after (CapitalAPI.createSession (CapitalAPI.Answered r) o)
              = CapitalAPI.setSessionTokens c s
                  (CapitalAPI.record
                     (CapitalAPI.mkExchange CapitalAPI.Temporary
                        (CapitalAPI.mkRequest CapitalAPI.POST "/api/v1/session"
                           (CapitalAPI.DEFAULT_HEADERS
                              ++ CapitalAPI.header "X-CAP-API-KEY" (CapitalAPI.apiKey o)))
                        (CapitalAPI.Answered r)) o)).
  { unfold CapitalAPI.createSession. rewrite K, A, Hc, Hs, C, S. cbn [negb andb].
    destruct (CapitalAPI.truthy_value (CapitalAPI.data r)); reflexivity. }
  split; [rewrite E; reflexivity|].
  split; [rewrite E; unfold CapitalAPI.isAuthenticated; cbn; rewrite C, S; reflexivity|].
  split; [|split; [|split]].
  - intros D. rewrite E. unfold CapitalAPI.createSession.
    rewrite K, A, Hc, Hs, C, S, D. reflexivity.
  - intros D. unfold CapitalAPI.createSession.
    rewrite K, A, Hc, Hs, C, S, D. reflexivity.
  - intros call reply N. rewrite E.
    set (o1 := CapitalAPI.setSessionTokens c s _).
    assert (K1 : CapitalAPI.present (CapitalAPI.apiKey o1) = true) by exact K.
    destruct (perform_sent call reply o1) as [[x [X [_ [_ [Hx _]]]]]|[_ [G [P _]]]].
    + exists x. split; [exact X|]. rewrite Hx, N.
      unfold CapitalAPI.intercept_request.
      change (CapitalAPI.cst o1) with (Some c).
      change (CapitalAPI.securityToken o1) with (Some s).
      change (CapitalAPI.apiKey o1) with (CapitalAPI.apiKey o).
      rewrite !header_some by assumption. split; [|split].
      * rewrite !in_app_iff. right. right. left. apply in_eq.
      * rewrite !in_app_iff. right. right. right. apply in_eq.
      * intros k Ek. destruct (present_key o K) as [k' [Ek' [_ Hk]]].
        rewrite Hk. rewrite Ek in Ek'. injection Ek' as <-.
        rewrite !in_app_iff. right. left. apply in_eq.
    + rewrite K1 in P. discriminate P.
  - intros url. rewrite E. unfold CapitalAPI.createWebSocketConnection. cbn.
    rewrite C, S. reflexivity.
Qed.

Lemma a_login_sets_the_tokens_of_the_reply_witness :
  let o := CapitalAPI.new (CapitalAPI.Config.mk None true (Some "key")) in
  let r := CapitalAPI.mkResponse 200 [("cst", "a"); ("x-security-token", "b")]
             (JObject [("accountType", JString "CFD")]) in
  CapitalAPI.present (CapitalAPI.apiKey o) = true
  /\ CapitalAPI.accepted r = true
  /\ Wire.token_headers r = (Some "a", Some "b")
  /\ CapitalAPI.getSessionTokens
       (CapitalAPI.after (CapitalAPI.createSession (CapitalAPI.Answered r) o))
     = (Some "a", Some "b").
Proof.
  cbv zeta. split; [reflexivity|]. split; [reflexivity|]. split; [reflexivity|].
  exact (proj1 (a_login_sets_the_tokens_of_the_reply
                  (CapitalAPI.mkResponse 200 [("cst", "a"); ("x-security-token", "b")]
                     (JObject [("accountType", JString "CFD")]))
                  (CapitalAPI.new (CapitalAPI.Config.mk None true (Some "key")))
                  "a" "b" eq_refl eq_refl eq_refl eq_refl eq_refl)).
Defined.

Lemma a_login_that_fails rp o :
  CapitalAPI.present (CapitalAPI.apiKey o) = false \/ Wire.succeeded rp = false ->
  CapitalAPI.getSessionTokens (CapitalAPI.after (CapitalAPI.createSession rp o))
  = CapitalAPI.getSessionTokens o.
Proof.
  intros H. unfold CapitalAPI.createSession.
  destruct (CapitalAPI.present (CapitalAPI.apiKey o)) eqn:K; cbn [negb]; [|reflexivity].
  destruct H as [H|H]; [discriminate H|].
  destruct rp as [r|e]; [|reflexivity]. cbn in H. rewrite H. reflexivity.
Qed.

(** X24.  A login that fails leaves the session as it was: without an
    API key, without an answer, with an answer the client does not
    accept (a 401 included, since [createSession] bypasses the response
    interceptor) or with an accepted answer that lacks one of the two
    tokens, the stored tokens are those from before.  An answer that is
    not accepted and whose body is an error body of the API, or no
    object at all, is rethrown as a plain error that does not carry
    the response; its message names the status and the [errorCode] of
    the body, the [message] of the body when there is no code, and
    "Unknown error" when there is neither. *)
Theorem a_failed_login_keeps_the_session rp o :
  let result := CapitalAPI.createSession rp o in
  (CapitalAPI.present (CapitalAPI.apiKey o) = false
   \/ Wire.succeeded rp = false
   \/ (exists r, rp = CapitalAPI.Answered r /\ Wire.carries_tokens r = false) ->
   CapitalAPI.getSessionTokens (CapitalAPI.after result) = CapitalAPI.getSessionTokens o
   /\ CapitalAPI.isAuthenticated (CapitalAPI.after result) = CapitalAPI.isAuthenticated o)
  /\ (CapitalAPI.present (CapitalAPI.apiKey o) = false ->
      result = CapitalAPI.Rejected
                 (CapitalAPI.plain (CapitalAPI.API_KEY_NEEDED "create session")) o)
  /\ (CapitalAPI.present (CapitalAPI.apiKey o) = true ->
      (forall e, rp = CapitalAPI.Unanswered e ->
                 Wire.rejection result = Some (CapitalAPI.plain e))
      /\ (forall r, rp = CapitalAPI.Answered r -> CapitalAPI.accepted r = false ->
            CapitalAPI.described (CapitalAPI.data r) = true ->
            let status := if CapitalAPI.status r =? 0 then "unknown"
                          else Number_toString (CapitalAPI.status r) in
            let told (text : string) :=
              Wire.rejection result
              = Some (CapitalAPI.plain
                        (new_Error ("API Error (" ++ status ++ "): " ++ text))) in
            (forall fields code,
               CapitalAPI.data r = JObject fields ->
               assoc "errorCode" fields = JString code -> truthy code = true ->
               told code)
            /\ (forall fields text,
                  CapitalAPI.data r = JObject fields ->
                  CapitalAPI.truthy_value (assoc "errorCode" fields) = false ->
                  assoc "message" fields = JString text -> truthy text = true ->
                  told text)
            /\ (forall fields,
                  CapitalAPI.data r = JObject fields ->
                  CapitalAPI.truthy_value (assoc "errorCode" fields) = false ->
                  CapitalAPI.truthy_value (assoc "message" fields) = false ->
                  told "Unknown error")
            /\ ((forall fields, CapitalAPI.data r <> JObject fields) -> told "Unknown error"))).
Proof.
  cbv zeta. split; [|split].
  - assert (G : CapitalAPI.cst (CapitalAPI.after (CapitalAPI.createSession rp o))
                = CapitalAPI.cst o
                /\ CapitalAPI.securityToken (CapitalAPI.after (CapitalAPI.createSession rp o))
                   = CapitalAPI.securityToken o
                -> CapitalAPI.getSessionTokens (CapitalAPI.after (CapitalAPI.createSession rp o))
                   = CapitalAPI.getSessionTokens o
                   /\ CapitalAPI.isAuthenticated (CapitalAPI.after (CapitalAPI.createSession rp o))
                      = CapitalAPI.isAuthenticated o).
    { intros [C S]. unfold CapitalAPI.getSessionTokens, CapitalAPI.isAuthenticated.
      rewrite C, S. split; reflexivity. }
    intros H. apply G. clear G. unfold CapitalAPI.createSession.
    destruct (CapitalAPI.present (CapitalAPI.apiKey o)) eqn:K; cbn [negb];
      [|split; reflexivity].
    destruct H as [H|[H|[r [-> H]]]]; [discriminate H| |].
    + destruct rp as [r|e]; [|split; reflexivity].
      cbn in H. rewrite H. split; reflexivity.
    + destruct (CapitalAPI.accepted r); [|split; reflexivity].
      unfold Wire.carries_tokens, Wire.token_headers in H.
      destruct (CapitalAPI.either "cst" "CST" (CapitalAPI.headers r)) as [c|],
               (CapitalAPI.either "x-security-token" "X-SECURITY-TOKEN" (CapitalAPI.headers r))
                 as [s|];
        try rewrite H;
        destruct (CapitalAPI.truthy_value (CapitalAPI.data r)); split; reflexivity.
  - intros K. unfold CapitalAPI.createSession. rewrite K. reflexivity.
  - intros K. split.
    + intros e ->. unfold CapitalAPI.createSession. rewrite K. reflexivity.
    + intros r -> A D.
      assert (R : forall text,
                CapitalAPI.error_text (CapitalAPI.data r) = text ->
                Wire.rejection (CapitalAPI.createSession (CapitalAPI.Answered r) o)
                = Some (CapitalAPI.plain
                          (new_Error ("API Error ("
                                      ++ (if CapitalAPI.status r =? 0 then "unknown"
                                          else Number_toString (CapitalAPI.status r))
                                      ++ "): " ++ text)))).
      { intros text <-. unfold CapitalAPI.createSession. rewrite K, A. reflexivity. }
      unfold CapitalAPI.described in D.
      split; [|split; [|split]].
      * intros fields code E C T. apply R. rewrite E.
        unfold CapitalAPI.error_text, CapitalAPI.text_field. rewrite C.
        unfold or_else at 1. rewrite T. reflexivity.
      * intros fields text E C M T. apply R. rewrite E in *.
        apply andb_true_iff in D. destruct D as [D1 D2].
        unfold CapitalAPI.error_text, CapitalAPI.text_field. rewrite M.
        destruct (assoc "errorCode" fields) as [| |[|]| |code| |];
          try discriminate D1; try discriminate C;
          cbn [or_else]; rewrite ?T; try reflexivity.
        destruct code; [reflexivity|discriminate C].
      * intros fields E C M. apply R. rewrite E in *.
        apply andb_true_iff in D. destruct D as [D1 D2].
        unfold CapitalAPI.error_text, CapitalAPI.text_field.
        destruct (assoc "errorCode" fields) as [| |[|]| |code| |];
          try discriminate D1; try discriminate C;
          destruct (assoc "message" fields) as [| |[|]| |text| |];
          try discriminate D2; try discriminate M;
          try reflexivity;
          repeat match goal with
                 | s : string |- _ => destruct s; [|discriminate]
                 end; reflexivity.
      * intros N. apply R. unfold CapitalAPI.error_text, CapitalAPI.text_field.
        destruct (CapitalAPI.data r); try reflexivity. exfalso. eapply N. reflexivity.
Qed.

Lemma a_failed_login_keeps_the_session_witness :
  let o := CapitalAPI.setSessionTokens "a" "b"
             (CapitalAPI.new (CapitalAPI.Config.mk None true (Some "key"))) in
  let denied := CapitalAPI.mkResponse 401 []
                  (JObject [("errorCode", JString "error.invalid.details")]) in
  let result := CapitalAPI.createSession (CapitalAPI.Answered denied) o in
  CapitalAPI.getSessionTokens (CapitalAPI.after result) = (Some "a", Some "b")
  /\ option_map (fun rj => message (CapitalAPI.error rj)) (Wire.rejection result)
     = Some "API Error (401): error.invalid.details".
Proof.
  cbv zeta. split; [|vm_compute; reflexivity].
  apply (a_failed_login_keeps_the_session
           (CapitalAPI.Answered
              (CapitalAPI.mkResponse 401 []
                 (JObject [("errorCode", JString "error.invalid.details")])))
           (CapitalAPI.setSessionTokens "a" "b"
              (CapitalAPI.new (CapitalAPI.Config.mk None true (Some "key"))))).
  right. left. reflexivity.
Defined.

(** ** How a call ends *)

Lemma get_result url rp o :
  CapitalAPI.get url rp o
  = let o1 := CapitalAPI.record
                (CapitalAPI.mkExchange CapitalAPI.Shared
                   (CapitalAPI.mkRequest CapitalAPI.GET url (CapitalAPI.intercept_request o))
                   rp) o in
    match rp with
    | CapitalAPI.Answered r =>
        if CapitalAPI.accepted r then
          if Codec.is_undefined (CapitalAPI.data r)
          then CapitalAPI.Rejected
                 (CapitalAPI.plain (new_Error "No response data received")) o1
          else CapitalAPI.Resolved (CapitalAPI.data r) o1
        else if CapitalAPI.status r =? 401
        then CapitalAPI.Rejected (CapitalAPI.plain Wire.AUTHENTICATION_FAILED)
               (CapitalAPI.clearSession o1)
        else CapitalAPI.Rejected (CapitalAPI.mkRejection (CapitalAPI.AxiosError r) (Some r)) o1
    | CapitalAPI.Unanswered e => CapitalAPI.Rejected (CapitalAPI.mkRejection e None) o1
    end.
Proof.
  unfold CapitalAPI.get, CapitalAPI.client_request. cbv zeta.
  destruct rp as [r|e]; [|reflexivity].
  destruct (CapitalAPI.accepted r).
  - destruct (CapitalAPI.data r); reflexivity.
  - rewrite on_401. unfold CapitalAPI.status_of. cbn [CapitalAPI.response option_map].
    destruct (CapitalAPI.status r =? 401); reflexivity.
Qed.

Lemma send_result v url rp o :
  CapitalAPI.send v url rp o
  = let o1 := CapitalAPI.record
                (CapitalAPI.mkExchange CapitalAPI.Shared
                   (CapitalAPI.mkRequest v url (CapitalAPI.intercept_request o)) rp) o in
    match rp with
    | CapitalAPI.Answered r =>
        if CapitalAPI.accepted r then CapitalAPI.Resolved (CapitalAPI.data r) o1
        else CapitalAPI.Rejected (CapitalAPI.mkRejection (CapitalAPI.AxiosError r) (Some r))
               (if CapitalAPI.status r =? 401 then CapitalAPI.clearSession o1 else o1)
    | CapitalAPI.Unanswered e => CapitalAPI.Rejected (CapitalAPI.mkRejection e None) o1
    end.
Proof.
  unfold CapitalAPI.send, CapitalAPI.client_request. cbv zeta.
  destruct rp as [r|e]; [|reflexivity].
  destruct (CapitalAPI.accepted r); reflexivity.
Qed.

(** The private method behind a public one. *)
Lemma perform_route c rp o :
  CapitalAPI.is_createSession c = false ->
  (c = CapitalAPI.call_getEncryptionKey -> CapitalAPI.present (CapitalAPI.apiKey o) = true) ->
  (exists url,
     CapitalAPI.perform c rp o = CapitalAPI.get url rp o
     /\ Wire.exchanges c rp o
        = [CapitalAPI.mkExchange CapitalAPI.Shared
             (CapitalAPI.mkRequest CapitalAPI.GET url (CapitalAPI.intercept_request o)) rp])
  \/ (exists v url,
        v <> CapitalAPI.GET
        /\ Wire.rejection (CapitalAPI.perform c rp o)
           = Wire.rejection (CapitalAPI.send v url rp o)
        /\ (Wire.succeeded rp = true ->
            exists o', CapitalAPI.perform c rp o
                       = CapitalAPI.Resolved (match rp with
                                              | CapitalAPI.Answered r => CapitalAPI.data r
                                              | CapitalAPI.Unanswered _ => JUndefined
                                              end) o')
        /\ Wire.exchanges c rp o
           = [CapitalAPI.mkExchange CapitalAPI.Shared
                (CapitalAPI.mkRequest v url (CapitalAPI.intercept_request o)) rp]).
Proof.
  intros N K. unfold Wire.exchanges.
  assert (S : forall v url,
            v <> CapitalAPI.GET ->
            Wire.succeeded rp = true ->
            exists o', CapitalAPI.send v url rp o
                       = CapitalAPI.Resolved (match rp with
                                              | CapitalAPI.Answered r => CapitalAPI.data r
                                              | CapitalAPI.Unanswered _ => JUndefined
                                              end) o').
  { intros v url _ H. rewrite send_result. cbv zeta.
    destruct rp as [r|e]; [|discriminate H]. cbn in H. rewrite H. eexists. reflexivity. }
  destruct c; try discriminate N; cbn [CapitalAPI.perform];
    try (left; eexists; split; [reflexivity|];
         rewrite get_after, history_requested, skipn_history; reflexivity);
    try (right; eexists; eexists;
         (split; [|split; [reflexivity|split; [apply S; discriminate|
            rewrite send_after, history_requested, skipn_history; reflexivity]]]);
         discriminate).
  - left. unfold CapitalAPI.getEncryptionKey. rewrite (K eq_refl). cbn [negb].
    eexists. split; [reflexivity|].
    rewrite get_after, history_requested, skipn_history. reflexivity.
  - right. exists CapitalAPI.DELETE, "/api/v1/session". split; [discriminate|].
    split; [|split].
    + unfold CapitalAPI.logout.
      destruct (CapitalAPI.send CapitalAPI.DELETE "/api/v1/session" rp o); reflexivity.
    + intros H. unfold CapitalAPI.logout.
      destruct (S CapitalAPI.DELETE "/api/v1/session" ltac:(discriminate) H) as [o' ->].
      eexists. reflexivity.
    + rewrite logout_after. cbv zeta.
      destruct (Wire.succeeded rp); rewrite ?history_cleared, history_requested, skipn_history;
        reflexivity.
Qed.

(** X25.  How a call other than [createSession] ends.  A reply the
    client accepts resolves the call with the body of the reply, except
    that a GET whose reply has no body rejects with "No response data
    received".  No reply rejects with the error of the transport.  A
    reply that is not accepted rejects with the error of the HTTP
    library, response attached, except that a GET answered 401 rejects
    with a plain "Authentication failed" error instead, which carries
    no response: the same status reaches the caller in two shapes,
    depending on the verb of the method. *)
Theorem how_a_call_ends c rp o :
  CapitalAPI.is_createSession c = false ->
  (c = CapitalAPI.call_getEncryptionKey -> CapitalAPI.present (CapitalAPI.apiKey o) = true) ->
  exists x,
    Wire.exchanges c rp o = [x]
    /\ let result := CapitalAPI.perform c rp o in
       let get := match CapitalAPI.verb (CapitalAPI.request x) with
                  | CapitalAPI.GET => true
                  | _ => false
                  end in
       (forall e, rp = CapitalAPI.Unanswered e ->
                  Wire.rejection result = Some (CapitalAPI.mkRejection e None))
       /\ (forall r, rp = CapitalAPI.Answered r -> CapitalAPI.accepted r = true ->
             if get && Codec.is_undefined (CapitalAPI.data r)
             then Wire.rejection result
                  = Some (CapitalAPI.plain (new_Error "No response data received"))
             else exists o', result = CapitalAPI.Resolved (CapitalAPI.data r) o')
       /\ (forall r, rp = CapitalAPI.Answered r -> CapitalAPI.accepted r = false ->
             Wire.rejection result
             = Some (if get && (CapitalAPI.status r =? 401)
                     then CapitalAPI.plain Wire.AUTHENTICATION_FAILED
                     else CapitalAPI.mkRejection (CapitalAPI.AxiosError r) (Some r))).
Proof.
  intros N K.
  destruct (perform_route c rp o N K) as [[url [E X]]|[v [url [V [E [R X]]]]]];
    eexists; (split; [exact X|]); cbv zeta; cbn [CapitalAPI.request CapitalAPI.verb].
  - rewrite E, get_result. cbv zeta. split; [|split].
    + intros e ->. reflexivity.
    + intros r -> A. rewrite A. cbn [andb].
      destruct (Codec.is_undefined (CapitalAPI.data r)); [reflexivity|eexists; reflexivity].
    + intros r -> A. rewrite A. cbn [andb].
      destruct (CapitalAPI.status r =? 401); reflexivity.
  - assert (G : match v with CapitalAPI.GET => true | _ => false end = false)
      by (destruct v; congruence).
    rewrite G. cbn [andb]. rewrite E, send_result. cbv zeta. split; [|split].
    + intros e ->. reflexivity.
    + intros r -> A. destruct (R A) as [o' ->]. eexists. reflexivity.
    + intros r -> A. rewrite A. reflexivity.
Qed.

Lemma how_a_call_ends_witness :
  let o := CapitalAPI.setSessionTokens "a" "b"
             (CapitalAPI.new (CapitalAPI.Config.mk None true (Some "key"))) in
  let denied := CapitalAPI.Answered (CapitalAPI.mkResponse 401 [] JNull) in
  Wire.rejection (CapitalAPI.perform CapitalAPI.getAllPositions denied o)
  = Some (CapitalAPI.plain Wire.AUTHENTICATION_FAILED)
  /\ option_map CapitalAPI.status_of
       (Wire.rejection (CapitalAPI.perform CapitalAPI.createPosition denied o))
     = Some (Some 401).
Proof.
  cbv zeta. split; [|vm_compute; reflexivity].
  destruct (how_a_call_ends CapitalAPI.getAllPositions
              (CapitalAPI.Answered (CapitalAPI.mkResponse 401 [] JNull))
              (CapitalAPI.setSessionTokens "a" "b"
                 (CapitalAPI.new (CapitalAPI.Config.mk None true (Some "key"))))
              eq_refl ltac:(discriminate)) as [x [X [_ [_ H]]]].
  vm_compute in X. injection X as <-.
  exact (H _ eq_refl eq_refl).
Defined.

(** The tokens after a call that reached the wire through the client's
    own instance. *)
Lemma the_session_after c rp o :
  CapitalAPI.is_createSession c = false ->
  (c = CapitalAPI.call_getEncryptionKey -> CapitalAPI.present (CapitalAPI.apiKey o) = true) ->
  (CapitalAPI.getSessionTokens (CapitalAPI.after (CapitalAPI.perform c rp o))
   = if CapitalAPI.replied_401 rp then (None, None)
     else if match c with CapitalAPI.call_logout => Wire.succeeded rp | _ => false end
          then (None, None)
          else CapitalAPI.getSessionTokens o)
  /\ True.
Proof.
  intros N K. split; [|exact I].
  assert (Q : forall v url,
            CapitalAPI.getSessionTokens
              (CapitalAPI.after (CapitalAPI.client_request v url rp o))
            = if CapitalAPI.replied_401 rp then (None, None)
              else CapitalAPI.getSessionTokens o).
  { intros v url. rewrite client_request_after. cbv zeta.
    destruct (CapitalAPI.replied_401 rp); reflexivity. }
  destruct c; try discriminate N; cbn [CapitalAPI.perform];
    rewrite ?get_after, ?send_after, ?Q; try reflexivity.
  - unfold CapitalAPI.getEncryptionKey. rewrite (K eq_refl). cbn [negb].
    rewrite get_after, Q. reflexivity.
  - rewrite logout_after. cbv zeta.
    destruct (Wire.succeeded rp); [|apply Q].
    destruct (CapitalAPI.replied_401 rp); reflexivity.
Qed.

(** X26.  The stored tokens change for three reasons only: a login
    that succeeds, a logout that succeeds and a 401 on a request of the
    client's own instance.  Any other call with any other reply leaves
    the two tokens as they were, and no call changes the API key or the
    base URL.  In particular a logout the server does not accept (and
    does not answer with 401), or does not answer at all, leaves the
    client authenticated. *)
Theorem the_session_changes_for_three_reasons_only c rp o :
  let o' := CapitalAPI.after (CapitalAPI.perform c rp o) in
  (CapitalAPI.apiKey o' = CapitalAPI.apiKey o /\ CapitalAPI.baseUrl o' = CapitalAPI.baseUrl o)
  /\ (CapitalAPI.getSessionTokens o' <> CapitalAPI.getSessionTokens o ->
      (c = CapitalAPI.call_createSession /\ Wire.succeeded rp = true)
      \/ (c = CapitalAPI.call_logout /\ Wire.succeeded rp = true)
      \/ (CapitalAPI.is_createSession c = false /\ CapitalAPI.replied_401 rp = true))
  /\ (c = CapitalAPI.call_logout ->
      CapitalAPI.getSessionTokens o'
      = if Wire.succeeded rp || CapitalAPI.replied_401 rp then (None, None)
        else CapitalAPI.getSessionTokens o).
Proof.
  cbv zeta.
  assert (Q : forall v url,
            let o' := CapitalAPI.after (CapitalAPI.client_request v url rp o) in
            CapitalAPI.apiKey o' = CapitalAPI.apiKey o
            /\ CapitalAPI.baseUrl o' = CapitalAPI.baseUrl o
            /\ CapitalAPI.getSessionTokens o'
               = if CapitalAPI.replied_401 rp then (None, None)
                 else CapitalAPI.getSessionTokens o).
  { intros v url. cbv zeta. rewrite client_request_after. cbv zeta.
    destruct (CapitalAPI.replied_401 rp); repeat split. }
  assert (O : forall v url,
            let o' := CapitalAPI.after (CapitalAPI.client_request v url rp o) in
            (CapitalAPI.apiKey o' = CapitalAPI.apiKey o
             /\ CapitalAPI.baseUrl o' = CapitalAPI.baseUrl o)
            /\ (CapitalAPI.getSessionTokens o' <> CapitalAPI.getSessionTokens o ->
                CapitalAPI.replied_401 rp = true)).
  { intros v url. destruct (Q v url) as [A [B T]]. cbv zeta. split; [split; assumption|].
    rewrite T. destruct (CapitalAPI.replied_401 rp); [reflexivity|congruence]. }
  destruct c; cbn [CapitalAPI.perform];
    rewrite ?get_after, ?send_after;
    try (match goal with
         | |- context [CapitalAPI.client_request ?v ?u rp o] =>
             destruct (O v u) as [AB T]; split; [exact AB|];
             split; [intros H; right; right; split; [reflexivity|exact (T H)]
                    |intros E; discriminate E]
         end).
  - unfold CapitalAPI.getEncryptionKey.
    destruct (CapitalAPI.present (CapitalAPI.apiKey o)); cbn [negb].
    + rewrite get_after.
      destruct (O CapitalAPI.GET "/api/v1/session/encryptionKey") as [AB T].
      split; [exact AB|].
      split; [intros H; right; right; split; [reflexivity|exact (T H)]
             |intros E; discriminate E].
    + cbn. split; [split; reflexivity|]. split; [congruence|intros E; discriminate E].
  - split; [|split; [|intros E; discriminate E]].
    + unfold CapitalAPI.createSession.
      destruct (CapitalAPI.present (CapitalAPI.apiKey o)); cbn [negb];
        [|split; reflexivity].
      destruct rp as [r|e]; [|split; reflexivity].
      destruct (CapitalAPI.accepted r); [|split; reflexivity].
      destruct (CapitalAPI.either "cst" "CST" (CapitalAPI.headers r)) as [x|],
               (CapitalAPI.either "x-security-token" "X-SECURITY-TOKEN" (CapitalAPI.headers r))
                 as [y|];
        try destruct (truthy x && truthy y);
        destruct (CapitalAPI.truthy_value (CapitalAPI.data r)); split; reflexivity.
    + intros H. left. split; [reflexivity|].
      destruct (Wire.succeeded rp) eqn:S; [reflexivity|]. exfalso. apply H.
      apply (a_login_that_fails rp o). right. exact S.
  - rewrite logout_after. cbv zeta.
    destruct (Q CapitalAPI.DELETE "/api/v1/session") as [A [B T]].
    assert (X : Wire.succeeded rp = true -> CapitalAPI.replied_401 rp = false).
    { destruct rp as [r|e]; cbn; [apply accepted_not_401|reflexivity]. }
    destruct (Wire.succeeded rp) eqn:S.
    + split; [split; assumption|]. split; [|intros _; reflexivity].
      intros _. right. left. split; reflexivity.
    + split; [split; assumption|]. cbn [orb]. split; [|intros _; exact T].
      intros H. right. right. split; [reflexivity|].
      rewrite T in H. destruct (CapitalAPI.replied_401 rp); [reflexivity|congruence].
Qed.



(** ** The streaming client of a session *)

Lemma no_session_no_socket url o :
  CapitalAPI.cst o = None -> CapitalAPI.securityToken o = None ->
  CapitalAPI.createWebSocketConnection url o = inl Wire.NO_SESSION.
Proof.
  intros C S. unfold CapitalAPI.createWebSocketConnection. rewrite C. reflexivity.
Qed.

(** X28.  [createWebSocketConnection] returns a streaming client
    exactly when the REST client is authenticated, and throws
    otherwise.  The client it returns is new: it holds the two tokens
    of the session and the streaming URL of the configuration (the
    default one when there is none), it has no socket and an empty
    table, and its first handshake presents these tokens.  After a 401
    on any request of the client's own instance the method throws
    again, until the next login. *)
Theorem a_streaming_client_needs_the_session url o :
  ((exists w, CapitalAPI.createWebSocketConnection url o = inr w)
   <-> CapitalAPI.isAuthenticated o = true)
  /\ (CapitalAPI.isAuthenticated o = false ->
      CapitalAPI.createWebSocketConnection url o = inl Wire.NO_SESSION)
  /\ (forall w,
        CapitalAPI.createWebSocketConnection url o = inr w ->
        CapitalAPI.getSessionTokens o = (Some (cst w), Some (securityToken w))
        /\ streamingUrl w = or_else url DEFAULT_STREAMING_URL
        /\ ws w = None /\ subscriptions w = [] /\ trace w = [] /\ isConnected w = false
        /\ forall state,
             sockets (trace (final (connect state w)))
             = [(or_else url DEFAULT_STREAMING_URL, handshake (cst w) (securityToken w))])
  /\ (forall c rp,
        CapitalAPI.is_createSession c = false ->
        CapitalAPI.requested c rp o = true ->
        CapitalAPI.replied_401 rp = true ->
        CapitalAPI.createWebSocketConnection url
          (CapitalAPI.after (CapitalAPI.perform c rp o)) = inl Wire.NO_SESSION).
Proof.
  split; [|split; [|split]].
  - unfold CapitalAPI.createWebSocketConnection, CapitalAPI.isAuthenticated, CapitalAPI.present.
    destruct (CapitalAPI.cst o) as [c|], (CapitalAPI.securityToken o) as [s|]; cbn;
      try (split; [intros [w H]; discriminate H|intros H; try discriminate H]).
    + destruct (truthy c && truthy s); split; intros H; try reflexivity;
        try discriminate H; [eexists; reflexivity|].
      destruct H as [w H]. discriminate H.
    + rewrite andb_false_r in H. discriminate H.
  - unfold CapitalAPI.createWebSocketConnection, CapitalAPI.isAuthenticated, CapitalAPI.present.
    destruct (CapitalAPI.cst o) as [c|], (CapitalAPI.securityToken o) as [s|]; cbn;
      intros H; try reflexivity. rewrite H. reflexivity.
  - intros w. unfold CapitalAPI.createWebSocketConnection, CapitalAPI.getSessionTokens.
    destruct (CapitalAPI.cst o) as [c|], (CapitalAPI.securityToken o) as [s|];
      try discriminate.
    destruct (truthy c && truthy s); [|discriminate].
    intros H. injection H as <-. repeat split.
    intros state. rewrite connect_eq. cbv zeta.
    destruct (state =? 1); reflexivity.
  - intros c rp N R H.
    assert (G : CapitalAPI.cst (CapitalAPI.after (CapitalAPI.perform c rp o)) = None
                /\ CapitalAPI.securityToken (CapitalAPI.after (CapitalAPI.perform c rp o))
                   = None).
    { assert (K : c = CapitalAPI.call_getEncryptionKey ->
                  CapitalAPI.present (CapitalAPI.apiKey o) = true).
      { intros ->. unfold CapitalAPI.requested in R. cbn [CapitalAPI.perform] in R.
        unfold CapitalAPI.getEncryptionKey in R.
        destruct (CapitalAPI.present (CapitalAPI.apiKey o)); [reflexivity|].
        simpl in R. rewrite Nat.ltb_irrefl in R. discriminate R. }
      destruct (the_session_after c rp o N K) as [T _]. rewrite H in T.
      unfold CapitalAPI.getSessionTokens in T. injection T as C S. split; assumption. }
    destruct G as [C S]. apply no_session_no_socket; assumption.
Qed.

(** ** The API key *)

(** X29.  [setApiKey] changes the key and nothing else.  With a key
    that is not empty every later call makes its request, and the
    request carries the key in its [X-CAP-API-KEY] header; with the
    empty string the two methods that need the key reject as if there
    were none. *)
Theorem the_api_key_goes_with_every_request k o c rp :
  let o1 := CapitalAPI.setApiKey k o in
  CapitalAPI.getSessionTokens o1 = CapitalAPI.getSessionTokens o
  /\ CapitalAPI.history o1 = CapitalAPI.history o
  /\ (truthy k = true ->
      exists x,
        Wire.exchanges c rp o1 = [x]
        /\ In ("X-CAP-API-KEY", k) (CapitalAPI.request_headers (CapitalAPI.request x)))
  /\ (truthy k = false ->
      Wire.exchanges CapitalAPI.call_createSession rp o1 = []
      /\ Wire.exchanges CapitalAPI.call_getEncryptionKey rp o1 = []).
Proof.
  cbv zeta. split; [reflexivity|]. split; [reflexivity|]. split.
  - intros T.
    assert (K : CapitalAPI.present (CapitalAPI.apiKey (CapitalAPI.setApiKey k o)) = true)
      by exact T.
    destruct (perform_sent c rp (CapitalAPI.setApiKey k o))
      as [[x [X [_ [_ [H _]]]]]|[_ [_ [P _]]]]; [|rewrite K in P; discriminate P].
    exists x. split; [exact X|]. rewrite H.
    unfold CapitalAPI.intercept_request.
    change (CapitalAPI.apiKey (CapitalAPI.setApiKey k o)) with (Some k).
    rewrite (header_some "X-CAP-API-KEY" k T).
    destruct (CapitalAPI.is_createSession c); rewrite !in_app_iff;
      [right; apply in_eq|right; left; apply in_eq].
  - intros T.
    assert (K : CapitalAPI.present (CapitalAPI.apiKey (CapitalAPI.setApiKey k o)) = false).
    { cbn. rewrite T. reflexivity. }
    split.
    + destruct (perform_sent CapitalAPI.call_createSession rp (CapitalAPI.setApiKey k o))
        as [[x [_ [_ [_ [_ G]]]]]|[E _]]; [|exact E].
      rewrite (G (or_intror eq_refl)) in K. discriminate K.
    + destruct (perform_sent CapitalAPI.call_getEncryptionKey rp (CapitalAPI.setApiKey k o))
        as [[x [_ [_ [_ [_ G]]]]]|[E _]]; [|exact E].
      rewrite (G (or_introl eq_refl)) in K. discriminate K.
Qed.
